(** * Tech SEO Analysis Tool: the checklist utilities and the recommendation proxy

    A shallow embedding of [src/app/page.tsx] (score normaliser, severity
    estimator, CSV escaper and export, dataset update and the controls
    that call it, the filter of the analysis table, the
    implementation-checklist projection, auto-prioritise and the request
    for recommendations) and of [src/app/api/recommend/route.ts]
    (upstream-response extractor and POST handler), with the properties the
    specification states about them and further properties of the code.

    Layout: the JavaScript built-ins the two files call ([Module JS]), the
    functions of [page.tsx] ([Module Page]), the functions of [route.ts]
    ([Module Route]), the statements written after the specification and
    the notions the further properties are stated with ([Module Spec]),
    sample inputs ([Module Sample]), and then the lemmas and theorems. *)

From Stdlib Require Import ZArith QArith Qround String Ascii List Lia.
From Stdlib Require Import Permutation Sorted DecimalString DecimalN DecimalFacts Lqa.
From stdpp Require Import gmap strings list fin_maps.

Set Warnings "-register-all".
Close Scope Q_scope.
Open Scope string_scope.

(* ===================================================================== *)
(** * JavaScript built-ins *)
(* ===================================================================== *)

Module JS.

(** ** Strings

    A JavaScript string is carried by its UTF-8 encoding, one [ascii] per
    byte, so a source literal and its embedding are the same text (also the
    curly quotes of the acknowledgment sentence).  All the characters the
    source inspects ([","], the double quote, line feed, the letters of
    ["n/a"], digits and white space) are matched on whole encoded
    characters, which is exact because an ASCII byte never occurs inside a
    multi-byte sequence. *)

Definition chars (s : string) : list ascii := list_ascii_of_string s.
Definition str (l : list ascii) : string := string_of_list_ascii l.
Definition code (c : ascii) : N := N_of_ascii c.

(** White space as [String.prototype.trim] and [StringToNumber] see it:
    U+0009..U+000D, U+0020 (one byte); U+00A0 (two bytes); U+1680,
    U+2000..U+200A, U+2028, U+2029, U+202F, U+205F, U+3000, U+FEFF (three
    bytes). *)
Definition ws1 (a : ascii) : bool :=
  let n := code a in ((9 <=? n) && (n <=? 13) || (n =? 32))%N.

Definition ws2 (a b : ascii) : bool :=
  ((code a =? 194) && (code b =? 160))%N.

Definition ws3 (a b c : ascii) : bool :=
  let x := code a in let y := code b in let z := code c in
  ((x =? 225) && (y =? 154) && (z =? 128)
   || (x =? 226) && (y =? 128)
      && ((128 <=? z) && (z <=? 138) || (z =? 168) || (z =? 169) || (z =? 175))
   || (x =? 226) && (y =? 129) && (z =? 159)
   || (x =? 227) && (y =? 128) && (z =? 128)
   || (x =? 239) && (y =? 187) && (z =? 191))%N.

Fixpoint dropWhiteSpace (l : list ascii) : list ascii :=
  match l with
  | [] => []
  | a :: l1 =>
      if ws1 a then dropWhiteSpace l1 else
      match l1 with
      | [] => l
      | b :: l2 =>
          if ws2 a b then dropWhiteSpace l2 else
          match l2 with
          | [] => l
          | c :: l3 => if ws3 a b c then dropWhiteSpace l3 else l
          end
      end
  end.

(** The same scan from the end of the text: the bytes arrive reversed. *)
Fixpoint dropWhiteSpaceRev (l : list ascii) : list ascii :=
  match l with
  | [] => []
  | a :: l1 =>
      if ws1 a then dropWhiteSpaceRev l1 else
      match l1 with
      | [] => l
      | b :: l2 =>
          if ws2 b a then dropWhiteSpaceRev l2 else
          match l2 with
          | [] => l
          | c :: l3 => if ws3 c b a then dropWhiteSpaceRev l3 else l
          end
      end
  end.

Definition trimChars (l : list ascii) : list ascii :=
  rev (dropWhiteSpaceRev (rev (dropWhiteSpace l))).

(** [s.trim()] *)
Definition trim (s : string) : string := str (trimChars (chars s)).

(** [s.toUpperCase()].  The ASCII letters are mapped; every other byte is
    left as it is.  The source only compares the result with ['N/A'], and
    that comparison is decided as in JavaScript: the characters outside
    ASCII whose upper-case form is ASCII only (dotless i, long s, sharp s
    and the f-ligatures) give none of ['N'], ['/'] and ['A']. *)
Definition upperChar (c : ascii) : ascii :=
  let n := code c in
  if ((97 <=? n) && (n <=? 122))%N then ascii_of_N (n - 32) else c.

Definition toUpperCase (s : string) : string := str (map upperChar (chars s)).

Definition dquote : string := String "034"%char "".
Definition newline : string := String "010"%char "".

(** [l.join(sep)] on texts already converted. *)
Fixpoint join (sep : string) (l : list string) : string :=
  match l with
  | [] => ""
  | [x] => x
  | x :: r => x +:+ sep +:+ join sep r
  end.

(** ** Numbers

    A Number is NaN, an infinity or a finite binary64 value, the latter held
    exactly as a reduced fraction.  Every arithmetic result goes through
    [round64], the round-to-nearest-even of IEEE 754, so the values are the
    ones JavaScript computes.  The sign of zero is dropped: nothing in the
    two files can observe it (no division, no [Object.is], and both zeros
    print as ["0"]). *)

Inductive number : Type :=
| NaN
| PInf
| NInf
| Fin (q : Q).

Definition ofZ (z : Z) : number := Fin (inject_Z z).

(** Nearest integer to [n/d] for [0 <= n], [0 < d], ties to the even one. *)
Definition rne_div (n d : Z) : Z :=
  let q := (n / d)%Z in
  match (2 * (n mod d) ?= d)%Z with
  | Lt => q
  | Gt => (q + 1)%Z
  | Eq => if Z.even q then q else (q + 1)%Z
  end.

(** [floor (log2 (n/d))] for [0 < n], [0 < d]. *)
Definition ilog2 (n d : Z) : Z :=
  let e0 := (Z.log2 n - Z.log2 d)%Z in
  if (n * 2 ^ Z.max 0 (- e0) <? d * 2 ^ Z.max 0 e0)%Z
  then (e0 - 1)%Z else e0.

(** The Number value for a real [q]: 53 significant bits, least exponent
    [-1074] (gradual underflow), overflow to an infinity from [2^1024]. *)
Definition round64 (q : Q) : number :=
  let n := Z.abs (Qnum q) in
  let d := Zpos (Qden q) in
  if (n =? 0)%Z then Fin 0 else
  let t := Z.max (ilog2 n d - 52) (-1074) in
  let m := rne_div (n * 2 ^ Z.max 0 (- t)) (d * 2 ^ Z.max 0 t) in
  let top := (m * 2 ^ Z.max 0 t)%Z in
  if (2 ^ 1024 <=? top)%Z
  then (if (Qnum q <? 0)%Z then NInf else PInf)
  else Fin (Qred ((Z.sgn (Qnum q) * top) # Z.to_pos (2 ^ Z.max 0 (- t)))).

(** [x - y] *)
Definition sub (x y : number) : number :=
  match x, y with
  | NaN, _ | _, NaN => NaN
  | PInf, PInf | NInf, NInf => NaN
  | PInf, _ | _, NInf => PInf
  | NInf, _ | _, PInf => NInf
  | Fin a, Fin b => round64 (a - b)
  end.

(** [Number.isFinite(x)] *)
Definition isFinite (x : number) : bool :=
  match x with Fin _ => true | _ => false end.

(** Sign tests, as the sort and the [||] operator use them. *)
Definition isNegative (x : number) : bool :=
  match x with
  | NInf => true
  | Fin q => (Qnum q <? 0)%Z
  | _ => false
  end.

Definition isZero (x : number) : bool :=
  match x with Fin q => (Qnum q =? 0)%Z | _ => false end.

(** [x === y] on Numbers: NaN equals nothing. *)
Definition number_eqb (x y : number) : bool :=
  match x, y with
  | PInf, PInf | NInf, NInf => true
  | Fin a, Fin b => Qeq_bool a b
  | _, _ => false
  end.

(** [x < y] on Numbers that are not NaN. *)
Definition number_ltb (x y : number) : bool :=
  match x, y with
  | NaN, _ | _, NaN => false
  | _, NInf | PInf, _ => false
  | NInf, _ | _, PInf => true
  | Fin a, Fin b => negb (Qle_bool b a)
  end.

(** [Math.round(x)]: the nearest integer, a tie going towards [+Infinity]. *)
Definition Math_round (x : number) : number :=
  match x with
  | Fin q => ofZ (Qfloor (q + (1 # 2)))
  | _ => x
  end.

(** [Math.max(x, y)] and [Math.min(x, y)] *)
Definition Math_max (x y : number) : number :=
  match x, y with
  | NaN, _ | _, NaN => NaN
  | _, _ => if number_ltb x y then y else x
  end.

Definition Math_min (x y : number) : number :=
  match x, y with
  | NaN, _ | _, NaN => NaN
  | _, _ => if number_ltb y x then y else x
  end.

(** Decimal numerals of non-negative integers. *)
Definition decimalZ (z : Z) : string :=
  NilZero.string_of_uint (N.to_uint (Z.to_N z)).

Definition pow10 (e : Z) : Q :=
  if (0 <=? e)%Z then inject_Z (10 ^ e) else 1 # Z.to_pos (10 ^ (- e)).

(** [m * 10^e] *)
Definition scale10 (m e : Z) : Q :=
  if (0 <=? e)%Z then inject_Z (m * 10 ^ e) else m # Z.to_pos (10 ^ (- e)).

Definition Qltb (a b : Q) : bool := negb (Qle_bool b a).

(** *** [Number::toString]

    For a finite non-zero [x] the text is built from the integers [n], [k]
    and [s] of ECMA-262: [k] digits [s], as few as possible, such that
    [s * 10^(n-k)] is a real whose Number value is [x]. *)

(** [n] with [10^(n-1) <= q < 10^n], for [0 < q]. *)
Fixpoint searchUp (fuel : nat) (q : Q) (n : Z) : Z :=
  match fuel with
  | O => n
  | S f => if Qltb q (pow10 n) then n else searchUp f q (n + 1)
  end.

Fixpoint searchDown (fuel : nat) (q : Q) (n : Z) : Z :=
  match fuel with
  | O => n
  | S f => if Qle_bool (pow10 (n - 1)) q then n else searchDown f q (n - 1)
  end.

Definition decimalExponent (q : Q) : Z :=
  if Qle_bool 1 q then searchUp 400 q 1 else searchDown 400 q 0.

Definition roundTrips (q : Q) (s t : Z) : bool :=
  match round64 (scale10 s t) with
  | Fin q' => Qeq_bool q' q
  | _ => false
  end.

(** The [k]-digit candidates next to [q]; [None] when neither reads back
    as [q].  A candidate [10^k] is the one-digit-shorter [10^(k-1)] with
    the next exponent. *)
Definition digitsOfLength (q : Q) (n k : Z) : option (Z * Z) :=
  let t := (n - k)%Z in
  let lo := Qfloor (q / pow10 t) in
  let hi := (lo + 1)%Z in
  let norm (c : Z) := if (c =? 10 ^ k)%Z then (10 ^ (k - 1), n + 1)%Z else (c, n) in
  match roundTrips q lo t, roundTrips q hi t with
  | true, false => Some (norm lo)
  | false, true => Some (norm hi)
  | false, false => None
  | true, true =>
      let dl := (q - scale10 lo t)%Q in
      let dh := (scale10 hi t - q)%Q in
      if Qltb dl dh then Some (norm lo)
      else if Qltb dh dl then Some (norm hi)
      else Some (norm (if Z.even lo then lo else hi))
  end.

Fixpoint shortestDigits (fuel : nat) (q : Q) (n k : Z) : Z * Z :=
  match fuel with
  | O => (Qfloor (q / pow10 (n - k)), n)
  | S f =>
      match digitsOfLength q n k with
      | Some r => r
      | None => shortestDigits f q n (k + 1)
      end
  end.

Definition zeros (n : Z) : string := str (repeat "0"%char (Z.to_nat n)).

Definition takeS (n : Z) (s : string) : string := str (take (Z.to_nat n) (chars s)).
Definition dropS (n : Z) (s : string) : string := str (drop (Z.to_nat n) (chars s)).

Definition formatDigits (s n : Z) : string :=
  let ds := decimalZ s in
  let k := Z.of_nat (String.length ds) in
  if ((k <=? n) && (n <=? 21))%Z then ds +:+ zeros (n - k)
  else if ((0 <? n) && (n <=? 21))%Z then takeS n ds +:+ "." +:+ dropS n ds
  else if ((-6 <? n) && (n <=? 0))%Z then "0." +:+ zeros (- n) +:+ ds
  else
    let e := (n - 1)%Z in
    let es := (if (e <? 0)%Z then "-" else "+") +:+ decimalZ (Z.abs e) in
    if (k =? 1)%Z then ds +:+ "e" +:+ es
    else takeS 1 ds +:+ "." +:+ dropS 1 ds +:+ "e" +:+ es.

(** An integer of magnitude at most [2^53] prints as its decimal numeral:
    these are the digits the rule above selects for it (every shorter
    candidate is another integer, hence another Number).  Every other finite
    value goes through the search. *)
Definition positiveToString (q : Q) : string :=
  if (Zpos (Qden q) =? 1)%Z && (Qnum q <=? 2 ^ 53)%Z then decimalZ (Qnum q)
  else
    let n := decimalExponent q in
    let '(s, n') := shortestDigits 17 q n 1 in
    formatDigits s n'.

Definition Number_toString (x : number) : string :=
  match x with
  | NaN => "NaN"
  | PInf => "Infinity"
  | NInf => "-Infinity"
  | Fin q =>
      if (Qnum q =? 0)%Z then "0"
      else if (Qnum q <? 0)%Z then "-" +:+ positiveToString (Z.abs (Qnum q) # Qden q)
      else positiveToString q
  end.

(** *** [StringToNumber]

    The grammar of [StringNumericLiteral]: optional white space around a
    binary, octal or hexadecimal integer, or an optionally signed
    ["Infinity"] or decimal literal with optional fraction and exponent; the
    empty text is [0]; anything else is NaN.  The value is rounded
    correctly (as V8 does for any number of digits). *)

Definition isDigit (c : ascii) : bool := ((48 <=? code c) && (code c <=? 57))%N.

Definition digitVal (c : ascii) : Z := (Z.of_N (code c) - 48)%Z.

Definition digitsValue (l : list ascii) : Z :=
  fold_left (fun acc c => (acc * 10 + digitVal c)%Z) l 0%Z.

Fixpoint spanDigits (l : list ascii) : list ascii * list ascii :=
  match l with
  | [] => ([], [])
  | c :: r =>
      if isDigit c then let '(d, rest) := spanDigits r in (c :: d, rest)
      else ([], l)
  end.

Definition isExponentIndicator (c : ascii) : bool :=
  ((code c =? 101) || (code c =? 69))%N.

(** [ExponentPart], optional, up to the end of the text. *)
Definition parseExponent (l : list ascii) : option Z :=
  match l with
  | [] => Some 0%Z
  | c :: r =>
      if isExponentIndicator c then
        let '(neg, r') :=
          match r with
          | "+"%char :: r' => (false, r')
          | "-"%char :: r' => (true, r')
          | _ => (false, r)
          end in
        match spanDigits r' with
        | ((_ :: _) as ds, []) => Some (if neg then (- digitsValue ds)%Z else digitsValue ds)
        | _ => None
        end
      else None
  end.

(** [StrUnsignedDecimalLiteral] other than ["Infinity"]. *)
Definition parseUnsignedDecimal (l : list ascii) : option Q :=
  let '(ip, r1) := spanDigits l in
  match r1 with
  | "."%char :: r2 =>
      let '(fp, r3) := spanDigits r2 in
      match ip, fp with
      | [], [] => None
      | _, _ =>
          match parseExponent r3 with
          | Some e => Some (scale10 (digitsValue (ip ++ fp)) (e - Z.of_nat (length fp)))
          | None => None
          end
      end
  | _ =>
      match ip with
      | [] => None
      | _ =>
          match parseExponent r1 with
          | Some e => Some (scale10 (digitsValue ip) e)
          | None => None
          end
      end
  end.

Definition digitIn (base : Z) (c : ascii) : option Z :=
  let n := Z.of_N (code c) in
  let v := if ((48 <=? n) && (n <=? 57))%Z then (n - 48)%Z
           else if ((97 <=? n) && (n <=? 102))%Z then (n - 87)%Z
           else if ((65 <=? n) && (n <=? 70))%Z then (n - 55)%Z
           else 16%Z in
  if (v <? base)%Z then Some v else None.

Fixpoint radixValue (base acc : Z) (l : list ascii) : option Z :=
  match l with
  | [] => Some acc
  | c :: r =>
      match digitIn base c with
      | Some d => radixValue base (acc * base + d)%Z r
      | None => None
      end
  end.

Definition radixOf (c : ascii) : option Z :=
  let n := code c in
  if ((n =? 120) || (n =? 88))%N then Some 16%Z
  else if ((n =? 111) || (n =? 79))%N then Some 8%Z
  else if ((n =? 98) || (n =? 66))%N then Some 2%Z
  else None.

(** [NonDecimalIntegerLiteral]: [0x], [0o] or [0b] and at least one digit. *)
Definition parseNonDecimal (l : list ascii) : option Z :=
  match l with
  | z :: p :: ((_ :: _) as ds) =>
      if (code z =? 48)%N then
        match radixOf p with
        | Some b => radixValue b 0 ds
        | None => None
        end
      else None
  | _ => None
  end.

Definition StringToNumber (s : string) : number :=
  match trimChars (chars s) with
  | [] => Fin 0
  | l =>
      match parseNonDecimal l with
      | Some z => round64 (inject_Z z)
      | None =>
          let '(neg, u) :=
            match l with
            | "+"%char :: r => (false, r)
            | "-"%char :: r => (true, r)
            | _ => (false, l)
            end in
          if String.eqb (str u) "Infinity" then (if neg then NInf else PInf)
          else
            match parseUnsignedDecimal u with
            | Some q => round64 (if neg then (- q)%Q else q)
            | None => NaN
            end
      end
  end.

(** ** Primitive values

    The values a row field, a score or a CSV field can hold: the primitives
    JSON can carry, and [undefined]. *)

Inductive scalar : Type :=
| Undefined
| Null
| Bool (b : bool)
| Num (n : number)
| Str (s : string).

(** [String(v)], [v.toString()] and a template-literal hole, on a primitive. *)
Definition toStr (v : scalar) : string :=
  match v with
  | Undefined => "undefined"
  | Null => "null"
  | Bool true => "true"
  | Bool false => "false"
  | Num n => Number_toString n
  | Str s => s
  end.

(** [Number(v)] and the operand conversion of [-]. *)
Definition ToNumber (v : scalar) : number :=
  match v with
  | Undefined => NaN
  | Null => Fin 0
  | Bool true => Fin 1
  | Bool false => Fin 0
  | Num n => n
  | Str s => StringToNumber s
  end.

Definition numberTruthy (n : number) : bool :=
  match n with
  | NaN => false
  | Fin q => negb (Qnum q =? 0)%Z
  | _ => true
  end.

(** Truthiness. *)
Definition ToBoolean (v : scalar) : bool :=
  match v with
  | Undefined | Null => false
  | Bool b => b
  | Num n => numberTruthy n
  | Str s => negb (String.eqb s "")
  end.

(** [x === y] on primitives. *)
Definition strictEquals (x y : scalar) : bool :=
  match x, y with
  | Undefined, Undefined | Null, Null => true
  | Bool a, Bool b => Bool.eqb a b
  | Num a, Num b => number_eqb a b
  | Str a, Str b => String.eqb a b
  | _, _ => false
  end.

(** [x || y] on primitives and on Numbers, [x ?? y]. *)
Definition or (x y : scalar) : scalar := if ToBoolean x then x else y.
Definition orNumber (x y : number) : number := if numberTruthy x then x else y.
Definition nullish (x y : scalar) : scalar :=
  match x with Undefined | Null => y | _ => x end.

(** ** [Array.prototype.sort]

    [SortCompare] puts [x] before [y] when [comparefn(x, y)] is negative (a
    NaN result counts as [+0]).  The sort is stable (ECMAScript 2019), so
    for a consistent comparator its result is the one sorted arrangement
    that keeps equal elements in their order; the insertion sort below
    computes it: an element moves right past exactly the elements that go
    strictly before it.  ([stable_sorted_unique] below: sorted and stable
    determine the result, whatever the algorithm.) *)

Section Sort.
Context {A : Type} (comparefn : A -> A -> number).

Definition before (x y : A) : bool := isNegative (comparefn x y).

Fixpoint insertSorted (x : A) (l : list A) : list A :=
  match l with
  | [] => [x]
  | y :: l' => if before y x then y :: insertSorted x l' else x :: l
  end.

Fixpoint Array_sort (l : list A) : list A :=
  match l with
  | [] => []
  | x :: l' => insertSorted x (Array_sort l')
  end.

End Sort.

(** [l.find(p)] *)
Fixpoint Array_find {A : Type} (p : A -> bool) (l : list A) : option A :=
  match l with
  | [] => None
  | x :: l' => if p x then Some x else Array_find p l'
  end.

(** ** JSON values, exceptions

    What [JSON.parse] can return (and [undefined]): primitives, arrays and
    plain objects. *)

Inductive value : Type :=
| Prim (p : scalar)
| Arr (elems : list value)
| Obj (props : gmap string value).

Coercion Prim : scalar >-> value.

(** A thrown [Error] object; [String(e)] is [Error.prototype.toString]. *)
Inductive exn : Type :=
| Error (name message : string).

Definition errorToString (e : exn) : string :=
  match e with
  | Error name message =>
      if String.eqb message "" then name
      else if String.eqb name "" then message
      else name +:+ ": " +:+ message
  end.

Inductive result (A : Type) : Type :=
| Ok (a : A)
| Throw (e : exn).

Arguments Ok {A} a.
Arguments Throw {A} e.

Definition bind {A B : Type} (c : result A) (k : A -> result B) : result B :=
  match c with
  | Ok a => k a
  | Throw e => Throw e
  end.

Notation "'let*' x ':=' c 'in' k" := (bind c (fun x => k))
  (at level 10, x name, c at level 100, k at level 200).

(** [try { c } catch (e) { h(e) }] *)
Definition try_catch {A : Type} (c : result A) (h : exn -> A) : A :=
  match c with
  | Ok a => a
  | Throw e => h e
  end.

Definition cannotConvert : exn :=
  Error "TypeError" "Cannot convert object to primitive value".

(** [ToString] on a JSON value.  An array joins its elements with a comma,
    [null] and [undefined] giving the empty text.  A plain object has no
    callable own property, so [OrdinaryToPrimitive] ends in
    [Object.prototype.toString], the text [[object Object]], unless an own
    property named [toString] hides it: then neither [toString] (not
    callable) nor [valueOf] (not callable, or returning the object) yields
    a primitive, and a [TypeError] is thrown (V8's wording of it). *)
Fixpoint ToString (v : value) : result string :=
  match v with
  | Prim p => Ok (toStr p)
  | Arr l =>
      (fix joinElems (l : list value) : result string :=
         match l with
         | [] => Ok ""
         | x :: r =>
             let* s :=
               match x with
               | Prim Undefined | Prim Null => Ok ""
               | _ => ToString x
               end in
             match r with
             | [] => Ok s
             | _ => let* t := joinElems r in Ok (s +:+ "," +:+ t)
             end
         end) l
  | Obj m =>
      match m !! "toString" with
      | Some _ => Throw cannotConvert
      | None => Ok "[object Object]"
      end
  end.

(** [l.join(sep)] on values that are neither [null] nor [undefined]. *)
Fixpoint Array_join (sep : string) (l : list value) : result string :=
  match l with
  | [] => Ok ""
  | x :: r =>
      let* s := ToString x in
      match r with
      | [] => Ok s
      | _ => let* t := Array_join sep r in Ok (s +:+ sep +:+ t)
      end
  end.

Definition truthy (v : value) : bool :=
  match v with
  | Prim p => ToBoolean p
  | _ => true
  end.

Definition orV (x y : value) : value := if truthy x then x else y.

Definition nullishV (x y : value) : value :=
  match x with
  | Prim Undefined | Prim Null => y
  | _ => x
  end.

(** [v?.k] for a property name [k] that no built-in prototype defines (all
    the names the source reads are such): an own property of an object,
    [undefined] on anything else. *)
Definition getProp (v : value) (k : string) : value :=
  match v with
  | Obj m => default (Prim Undefined) (m !! k)
  | _ => Prim Undefined
  end.

(** The first character of a text, whole (its leading byte and the
    continuation bytes after it). *)
Fixpoint continuation (l : list ascii) : list ascii :=
  match l with
  | c :: r => if ((128 <=? code c) && (code c <? 192))%N then c :: continuation r else []
  | [] => []
  end.

(** [v?.[0]] *)
Definition getIndex0 (v : value) : value :=
  match v with
  | Arr (x :: _) => x
  | Obj m => default (Prim Undefined) (m !! "0")
  | Prim (Str s) =>
      match chars s with
      | c :: r => Prim (Str (str (c :: continuation r)))
      | [] => Prim Undefined
      end
  | _ => Prim Undefined
  end.

(** [encodeURIComponent]: the unreserved characters stay, every other byte
    of the UTF-8 text becomes a percent escape. *)
Definition hexDigit (n : N) : ascii :=
  ascii_of_N (if (n <? 10)%N then n + 48 else n + 55).

Definition unreserved (c : ascii) : bool :=
  let n := code c in
  ((65 <=? n) && (n <=? 90) || (97 <=? n) && (n <=? 122) || (48 <=? n) && (n <=? 57)
   || (n =? 45) || (n =? 95) || (n =? 46) || (n =? 33) || (n =? 126)
   || (n =? 42) || (n =? 39) || (n =? 40) || (n =? 41))%N.

Definition encodeURIComponent (s : string) : string :=
  str (flat_map
         (fun c => if unreserved c then [c]
                   else ["%"%char; hexDigit (code c / 16); hexDigit (code c mod 16)])
         (chars s)).

(** [hay.includes(needle)].  On the encoded texts the test is the same as
    on the code units: a well-formed text occurs in another exactly when
    its encoding occurs in the encoding of the other. *)
Fixpoint includes (hay needle : string) : bool :=
  String.prefix needle hay
  || match hay with
     | EmptyString => false
     | String _ hay' => includes hay' needle
     end.

(** [l.filter(p)] for a callback that can throw: the elements are tested
    in order, and the first exception ends the call. *)
Fixpoint Array_filter {A : Type} (p : A -> result bool) (l : list A) : result (list A) :=
  match l with
  | [] => Ok []
  | x :: l' =>
      let* b := p x in
      let* kept := Array_filter p l' in
      Ok (if b then x :: kept else kept)
  end.

End JS.

(* ===================================================================== *)
(** * [src/app/page.tsx] *)
(* ===================================================================== *)

Module Page.
Import JS.

(** A row is an object whose properties hold primitives; a dataset is an
    array of rows.  [r.k] reads an own property, [undefined] when absent
    (none of the names the source reads is defined on [Object.prototype]). *)
Abbreviation row := (gmap string scalar).

Definition get (r : row) (k : string) : scalar := default Undefined (r !! k).

Definition INCLUDE_NA_IN_IMPLEMENTATION : bool := true.
Definition TARGET_FIXED : string := "9".
Definition SCORE_OPTIONS : list string :=
  ["N/A"; "1"; "2"; "3"; "4"; "5"; "6"; "7"; "8"; "9"].

Definition sanitizeScore (val : scalar) : string :=
  match val with
  | Null | Undefined => ""
  | _ =>
      let s := trim (toStr val) in
      if String.eqb (toUpperCase s) "N/A" then "N/A"
      else if String.eqb s "" then ""
      else
        let n := StringToNumber s in
        if negb (isFinite n) then ""
        else Number_toString (Math_min (ofZ 9) (Math_max (ofZ 1) (Math_round n)))
  end.

(** [sanitizeScore] on any value (its parameter is [val: any]): on an array
    or an object [String(val)] runs the conversion of the value, which can
    throw. *)
Definition sanitizeScoreAny (val : value) : result string :=
  match val with
  | Prim Null | Prim Undefined => Ok ""
  | _ =>
      let* t := ToString val in
      let s := trim t in
      if String.eqb (toUpperCase s) "N/A" then Ok "N/A"
      else if String.eqb s "" then Ok ""
      else
        let n := StringToNumber s in
        if negb (isFinite n) then Ok ""
        else Ok (Number_toString (Math_min (ofZ 9) (Math_max (ofZ 1) (Math_round n))))
  end.

Definition inferSeverity (score : scalar) : number :=
  if strictEquals score (Str "") || strictEquals score (Str "N/A") then ofZ 0
  else
    let n := ToNumber score in
    if negb (isFinite n) then ofZ 0
    else sub (ofZ 10) n.

(** The test of the regular expression whose class holds the double
    quote, the comma and the line feed. *)
Definition testSpecial (s : string) : bool :=
  existsb (fun c => (code c =? 34) || (code c =? 44) || (code c =? 10))%N (chars s).

(** The global replace of every double quote by two of them. *)
Fixpoint replaceQuotes (s : string) : string :=
  match s with
  | EmptyString => EmptyString
  | String c s' =>
      if (code c =? 34)%N then String c (String c (replaceQuotes s'))
      else String c (replaceQuotes s')
  end.

Definition csvEscape (val : scalar) : string :=
  let s := toStr (nullish val (Str "")) in
  if testSpecial s then dquote +:+ replaceQuotes s +:+ dquote else s.

(** [onChangeField]: the function handed to [setData], applied to the
    current rows. *)
Definition onChangeField (id : scalar) (key : string) (value : scalar)
    (rows : list row) : list row :=
  map (fun r => if strictEquals (get r "id") id then <[key := value]> r else r) rows.

(** The comparator of the checklist:
    [(Number(a.priority||999) - Number(b.priority||999)) || b.severity - a.severity]. *)
Definition byPriorityThenSeverity (a b : row) : number :=
  orNumber
    (sub (ToNumber (or (get a "priority") (Num (ofZ 999))))
         (ToNumber (or (get b "priority") (Num (ofZ 999)))))
    (sub (ToNumber (get b "severity")) (ToNumber (get a "severity"))).

Definition implementationRows (data : list row) : list row :=
  Array_sort byPriorityThenSeverity
    (map (fun r => <["severity" := Num (inferSeverity (get r "score"))]> r)
       (List.filter
          (fun r => negb (strictEquals (get r "score") (Str "9"))
                    && (if INCLUDE_NA_IN_IMPLEMENTATION then true
                        else negb (strictEquals (get r "score") (Str "N/A"))))
          data)).

(** [(a,b) => b.severity - a.severity] *)
Definition bySeverity (a b : row) : number :=
  sub (ToNumber (get b "severity")) (ToNumber (get a "severity")).

(** [(r, i) => ({ id: r.id, priority: String(i+1) })] *)
Definition rankedEntry (i : nat) (r : row) : row :=
  <["priority" := Str (toStr (Num (ofZ (Z.of_nat i + 1))))]> (<["id" := get r "id"]> ∅).

(** The [ranked] array of [autoPrioritize]. *)
Definition ranked (data : list row) : list row :=
  imap rankedEntry (Array_sort bySeverity (implementationRows data)).

(** [ranked.find(x => x.id===r.id)?.priority] *)
Definition rankedPriority (rk : list row) (r : row) : scalar :=
  match Array_find (fun x => strictEquals (get x "id") (get r "id")) rk with
  | Some x => get x "priority"
  | None => Undefined
  end.

Definition autoPrioritize (data : list row) : list row :=
  let rk := ranked data in
  map (fun r => <["priority" := or (rankedPriority rk r) (get r "priority")]> r) data.

(** ** [downloadCSV]

    The function builds the text of the file and hands it to the browser
    as a download; the model keeps the file: its name, the type of the
    [Blob] and the text. *)

Definition headers : list string :=
  ["X/√"; "INSPECTION ELEMENT"; "PRIORITY"; "ISSUE CATEGORY";
   "ISSUE SUB-CATEGORY"; "SKILLSET"; "SCORE"; "TARGET SCORE";
   "ANALYSIS"; "RECOMMENDATIONS"; "IMPLEMENTER"].

(** The array of one row, before [.map(csvEscape)]. *)
Definition cells (r : row) : list scalar :=
  [ Str (if ToBoolean (get r "check") then "TRUE" else "FALSE");
    get r "inspectionElement";
    or (get r "priority") (Str "");
    get r "issueCategory";
    get r "issueSubCategory";
    get r "skillset";
    or (get r "score") (Str "");
    Str TARGET_FIXED;
    get r "analysis";
    get r "recommendations";
    or (get r "implementer") (Str "") ].

Definition csvLine (r : row) : string := join "," (map csvEscape (cells r)).

(** The array [lines] after the loop. *)
Definition csvLines (rows : list row) : list string :=
  join "," headers :: map csvLine rows.

Record download : Type := {
  download_name : string;
  blob_type : string;
  blob_text : string
}.

Definition downloadCSV (filename : string) (rows : list row) : download :=
  {| download_name := filename;
     blob_type := "text/csv;charset=utf-8;";
     blob_text := join newline (csvLines rows) |}.

(** ** The controls of the two tables

    Each control that changes the dataset calls [onChangeField] with the
    id of its row, a fixed key and the value it was handed, as it is or
    after a conversion; the button calls [autoPrioritize]. *)

(** [s.replace(/[^0-9]/g,'')]: the digits of the text. *)
Definition digitsOnly (s : string) : string := str (List.filter isDigit (chars s)).

(** The fields whose control hands its value over as it is. *)
Inductive textField : Type :=
| InspectionElement
| Analysis
| Recommendations
| IssueCategory
| IssueSubCategory
| Skillset
| Implementer.

Definition keyOf (f : textField) : string :=
  match f with
  | InspectionElement => "inspectionElement"
  | Analysis => "analysis"
  | Recommendations => "recommendations"
  | IssueCategory => "issueCategory"
  | IssueSubCategory => "issueSubCategory"
  | Skillset => "skillset"
  | Implementer => "implementer"
  end.

Inductive control : Type :=
| Switch (id : scalar) (v : bool)
| TextControl (f : textField) (id : scalar) (v : string)
| ScoreSelect (id : scalar) (v : string)
| PriorityInput (id : scalar) (v : string)
| AutoPrioritizeButton.

(** What a control does to the rows when it fires. *)
Definition handle (c : control) (rows : list row) : list row :=
  match c with
  | Switch id v => onChangeField id "check" (Bool v) rows
  | TextControl f id v => onChangeField id (keyOf f) (Str v) rows
  | ScoreSelect id v =>
      onChangeField id "score"
        (Str (if String.eqb v "_clear" then "" else sanitizeScore (Str v))) rows
  | PriorityInput id v => onChangeField id "priority" (Str (digitsOnly v)) rows
  | AutoPrioritizeButton => autoPrioritize rows
  end.

(** ** [filtered] *)

Section Filter.

(** [String.prototype.toLowerCase] follows the case mappings of Unicode;
    it is a parameter here, and what is proved of the filter holds for
    every function in its place. *)
Variable toLowerCase : string -> string.

(** [(v || '').toLowerCase()]: only a text has the method.  (The wording
    of the [TypeError] depends on the engine; nothing reads it.) *)
Definition lowered (v : scalar) : result string :=
  match or v (Str "") with
  | Str s => Ok (toLowerCase s)
  | _ => Throw (Error "TypeError" "toLowerCase is not a function")
  end.

Definition inCategory (filterCat : string) (r : row) : result bool :=
  let* c := lowered (get r "issueCategory") in
  Ok (String.eqb c (toLowerCase filterCat)).

Definition mentions (n : string) (r : row) : result bool :=
  let* e := lowered (get r "inspectionElement") in
  if includes e n then Ok true
  else
    let* a := lowered (get r "analysis") in
    if includes a n then Ok true
    else
      let* c := lowered (get r "recommendations") in
      Ok (includes c n).

Definition filtered (data : list row) (q filterCat : string) : result (list row) :=
  let* rows :=
    if negb (String.eqb filterCat "all") then Array_filter (inCategory filterCat) data
    else Ok data in
  if negb (String.eqb (trim q) "") then
    Array_filter (mentions (toLowerCase (trim q))) rows
  else Ok rows.

End Filter.

(** ** [generateRecs]

    What the function does is a sequence of calls: of the two state
    setters (that of the dataset through [onChangeField]) and of [fetch].
    A call of [fetch] is recorded by the object handed to
    [JSON.stringify]; its answer is a rejection, or a response whose
    [json()] is a rejection or a JSON value. *)

Inductive effect : Type :=
| setLoadingId (id : scalar)
| fetchRecommend (body : gmap string scalar)
| changeField (id : scalar) (key : string) (v : value).

Definition generic : string :=
  "No action needed. This inspection element meets best practices. Continue to monitor and keep parity with Target Score "
  +:+ TARGET_FIXED +:+ ".".

Definition requestBody (r : row) : gmap string scalar :=
  <["analysis" := or (get r "analysis") (Str "")]>
    (<["score" := or (get r "score") (Str "")]>
       (<["element" := or (get r "inspectionElement") (Str "")]>
          (<["category" := or (get r "issueCategory") (Str "")]>
             (<["subcategory" := or (get r "issueSubCategory") (Str "")]> ∅)))).

Section GenerateRecs.

Variable fetch : gmap string scalar -> result (result value).

(** The [try] block after [setLoadingId(row.id)]: the calls it issues, and
    whether an exception ends it. *)
Definition attemptRecs (r : row) : list effect * result unit :=
  if String.eqb (toStr (get r "score")) "9" then
    ([changeField (get r "id") "recommendations" (Prim (Str generic))], Ok tt)
  else
    let sent := fetchRecommend (requestBody r) in
    match fetch (requestBody r) with
    | Throw e => ([sent], Throw e)
    | Ok (Throw e) => ([sent], Throw e)
    | Ok (Ok answer) =>
        let rec :=
          orV (getProp answer "recommendation") (Prim (Str "No recommendation returned.")) in
        ([sent; changeField (get r "id") "recommendations" rec], Ok tt)
    end.

(** The whole function: the [catch] clause writes the error into the
    row, and the [finally] clause clears the loading id. *)
Definition generateRecs (r : row) : list effect :=
  let '(calls, outcome) := attemptRecs r in
  ([setLoadingId (get r "id")] ++ calls
   ++ match outcome with
      | Ok _ => []
      | Throw e =>
          [changeField (get r "id") "recommendations"
             (Prim (Str ("Error generating recommendation: " +:+ errorToString e)))]
      end
   ++ [setLoadingId Null])%list.

End GenerateRecs.

End Page.

(* ===================================================================== *)
(** * [src/app/api/recommend/route.ts] *)
(* ===================================================================== *)

Module Route.
Import JS.

(** The object [extractText] returns: each of [text] and [explain] present
    or not. *)
Record extracted : Type := { text : option string; explain : option string }.

Definition onlyText (s : string) : extracted := {| text := Some s; explain := None |}.
Definition onlyExplain (s : string) : extracted := {| text := None; explain := Some s |}.

(** [typeof v === 'string' && v]: the text when the test passes. *)
Definition nonEmptyString (v : value) : option string :=
  match v with
  | Prim (Str s) => if String.eqb s "" then None else Some s
  | _ => None
  end.

Definition extractText (data : value) : extracted :=
  try_catch
    (let c := getIndex0 (getProp data "candidates") in
     let parts := getProp (getProp c "content") "parts" in
     let* joined :=
       match parts with
       | Arr ps => Array_join "" (List.filter truthy (map (fun p => getProp p "text") ps))
       | _ => Ok ""
       end in
     if negb (String.eqb joined "") then Ok (onlyText joined)
     else
       match nonEmptyString (getProp c "output_text") with
       | Some s => Ok (onlyText s)
       | None =>
           match nonEmptyString (getProp data "text") with
           | Some s => Ok (onlyText s)
           | None =>
               let finish :=
                 orV (orV (getProp c "finishReason") (getProp c "finish_reason"))
                     (getProp (getProp data "promptFeedback") "blockReason") in
               let* reason := ToString (nullishV finish (Str "unknown")) in
               Ok (onlyExplain ("No text in response. finishReason=" +:+ reason))
           end
       end)
    (fun e => onlyExplain ("Parser error: " +:+ errorToString e)).

(** ** The handler

    [process.env], the request, [fetch] and [JSON.parse] are the handler's
    surroundings.  A request is what [req.json()] settles to.  A call of
    [fetch] is recorded by its URL and by the one varying part of its
    constant body, the prompt text; the answer is an HTTP status (a small
    integer) and what [resp.text()] settles to.  The handler returns the calls it issued, in
    order, and its [NextResponse].  The [console.error] lines write to the
    server log only; of them the model keeps the one argument whose
    evaluation can throw. *)

Record env : Type := {
  GOOGLE_GENAI_API_KEY : option string;
  NEXT_PUBLIC_GOOGLE_GENAI_API_KEY : option string;
  GEMINI_MODEL : option string
}.

Record request : Type := { json : result value }.

Record fetch_request : Type := { url : string; prompt : string }.

Record fetch_response : Type := { resp_status : Z; resp_text : result string }.

(** [resp.ok] *)
Definition ok (r : fetch_response) : bool :=
  ((200 <=? resp_status r) && (resp_status r <=? 299))%Z.

Record response : Type := { status : Z; body : value }.

(** [NextResponse.json({ recommendation }, { status })] *)
Definition NextResponse_json (recommendation : string) (st : Z) : response :=
  {| status := st; body := Obj {[ "recommendation" := Prim (Str recommendation) ]} |}.

(** [a || b] on environment entries. *)
Definition orEnv (a b : option string) : option string :=
  match a with
  | Some s => if String.eqb s "" then b else a
  | None => b
  end.

Definition MODEL (e : env) : string :=
  default "" (orEnv (GEMINI_MODEL e) (Some "gemini-2.0-flash")).

Definition API_KEY (e : env) : option string :=
  orEnv (GOOGLE_GENAI_API_KEY e) (NEXT_PUBLIC_GOOGLE_GENAI_API_KEY e).

(** [!API_KEY] *)
Definition missing (k : option string) : bool :=
  match k with
  | Some s => String.eqb s ""
  | None => true
  end.

(** A destructured field with its default: [{ k = '' } = body]. *)
Definition field (b : value) (k : string) : value :=
  match getProp b k with
  | Prim Undefined => Prim (Str "")
  | v => v
  end.

(** [if (text)]: the text when it is there and not empty. *)
Definition nonEmpty (t : option string) : option string :=
  match t with
  | Some s => if String.eqb s "" then None else t
  | None => None
  end.

(** The argument [JSON.stringify(data).slice(0, 2000)] of the second
    [console.error]: [JSON.stringify] gives [undefined] for an undefined
    [data], and reading [slice] from it throws. *)
Definition logged (data : value) : result unit :=
  match data with
  | Prim Undefined =>
      Throw (Error "TypeError" "Cannot read properties of undefined (reading 'slice')")
  | _ => Ok tt
  end.

Definition lines (l : list string) : string := join newline l.

Definition system : string :=
  trim (lines [
    "";
    "You are a senior Technical SEO engineer writing hands-on, implementation-ready recommendations.";
    "Output MUST be Markdown with clear section headers, numbered steps, concrete examples/snippets, acceptance criteria,";
    "and who should implement (Developer, Site Editor, Client). Tailor depth to severity; score < 9 requires deep detail.";
    "If facts are missing, state assumptions and provide options.";
    "" ]).

Definition user (element category subcategory score analysis : string) : string :=
  trim (lines [
    "";
    "INSPECTION ELEMENT: " +:+ element;
    "CATEGORY/SUBCATEGORY: " +:+ category +:+ " / " +:+ subcategory;
    "CURRENT SCORE: " +:+ score;
    "ANALYSIS (verbatim notes):";
    analysis;
    "";
    "Write:";
    "1) Summary of issue(s) & impact (quantify if possible)";
    "2) Remediation plan (numbered steps; include examples/snippets/tools)";
    "3) Acceptance criteria (measurable)";
    "4) Owner & effort (who implements; rough complexity)";
    "5) Risks/Dependencies";
    "6) Nice-to-haves (optional)";
    "" ]).

Definition acknowledgment (element : string) : string :=
  "No action needed. “" +:+ element
  +:+ "” meets best practices. Maintain current implementation and monitor over time.".

Definition missingKeyMessage : string := "Server is missing GOOGLE_GENAI_API_KEY.".

(** The effects of the handler: the calls of [fetch] issued so far, and an
    outcome that is a value or a thrown exception. *)
Definition io (A : Type) : Type :=
  list fetch_request -> list fetch_request * result A.

Definition ret {A : Type} (a : A) : io A := fun calls => (calls, Ok a).

Definition lift {A : Type} (c : result A) : io A := fun calls => (calls, c).

Definition bindIO {A B : Type} (c : io A) (k : A -> io B) : io B :=
  fun calls =>
    match c calls with
    | (calls', Ok a) => k a calls'
    | (calls', Throw e) => (calls', Throw e)
    end.

Notation "'let!' x ':=' c 'in' k" := (bindIO c (fun x => k))
  (at level 10, x name, c at level 100, k at level 200).

(** Destructuring [null] or [undefined] throws (V8's wording of it). *)
Definition destructure (b : value) : result value :=
  match b with
  | Prim Undefined | Prim Null =>
      Throw (Error "TypeError"
               "Cannot destructure property 'analysis' of '(intermediate value)' as it is null.")
  | _ => Ok b
  end.

Section Handler.

Variable process_env : env.
Variable fetch : fetch_request -> result fetch_response.
Variable JSON_parse : string -> result value.

(** [await fetch(url, { method: 'POST', headers, body })] *)
Definition await_fetch (call : fetch_request) : io fetch_response :=
  fun calls => ((calls ++ [call])%list, fetch call).

(** The [try] block, from after the credential test. *)
Definition attempt (key : string) (req : request) : io response :=
  let! b := lift (let* b := json req in destructure b) in
  let analysis := field b "analysis" in
  let score := field b "score" in
  let element := field b "element" in
  let category := field b "category" in
  let subcategory := field b "subcategory" in
  let! score9 := lift (ToString score) in
  if String.eqb score9 "9" then
    let! el := lift (ToString element) in
    ret (NextResponse_json (acknowledgment el) 200)
  else
    let! userText :=
      lift (let* el := ToString element in
            let* cat := ToString category in
            let* sub := ToString subcategory in
            let* sc := ToString score in
            let* an := ToString analysis in
            Ok (user el cat sub sc an)) in
    let call :=
      {| url := "https://generativelanguage.googleapis.com/v1beta/models/"
                +:+ MODEL process_env +:+ ":generateContent?key="
                +:+ encodeURIComponent key;
         prompt := system +:+ newline +:+ newline +:+ userText |} in
    let! resp := await_fetch call in
    let! raw := lift (resp_text resp) in
    let data :=
      if String.eqb raw "" then Obj ∅
      else try_catch (JSON_parse raw) (fun _ => Obj ∅) in
    if negb (ok resp) then
      ret (NextResponse_json
             ("Gemini error: " +:+ toStr (Num (ofZ (resp_status resp))) +:+ " " +:+ raw)
             500)
    else
      let r := extractText data in
      match nonEmpty (text r) with
      | Some t => ret (NextResponse_json t 200)
      | None =>
          let! _ := lift (logged data) in
          ret (NextResponse_json
                 (trim ("No recommendation text returned. " +:+ default "" (explain r)))
                 200)
      end.

Definition POST (req : request) : list fetch_request * response :=
  match API_KEY process_env with
  | Some key =>
      if String.eqb key "" then ([], NextResponse_json missingKeyMessage 500)
      else
        let '(calls, r) := attempt key req [] in
        (calls, try_catch r (fun e => NextResponse_json ("Server error: " +:+ errorToString e) 500))
  | None => ([], NextResponse_json missingKeyMessage 500)
  end.

End Handler.

End Route.
(* ===================================================================== *)
(** * The specification's notions *)
(* ===================================================================== *)

Module Spec.
Import JS Page Route.

(** ** CSV fields (section 4.3) *)

Definition comma : ascii := ","%char.
Definition quote : ascii := "034"%char.
Definition lineFeed : ascii := "010"%char.

(** The text of a field: empty for a missing value. *)
Definition fieldText (val : scalar) : string :=
  match val with
  | Undefined | Null => ""
  | _ => toStr val
  end.

(** The field contains a comma, a double quote or a newline. *)
Definition needsQuoting (s : string) : Prop :=
  In comma (chars s) \/ In quote (chars s) \/ In lineFeed (chars s).

(** The field with every double quote written twice, between double quotes. *)
Definition doubleQuotes (s : string) : string :=
  str (flat_map (fun c => if Ascii.eqb c quote then [c; c] else [c]) (chars s)).

Definition quoted (s : string) : string := dquote +:+ doubleQuotes s +:+ dquote.

(** [needle] occurs in [hay]. *)
Fixpoint occursIn (needle hay : string) : bool :=
  String.prefix needle hay
  || match hay with
     | EmptyString => false
     | String _ hay' => occursIn needle hay'
     end.

(** ** Scores (sections 3 and 4.1) *)

Definition normalizedScores : list string :=
  [""; "N/A"; "1"; "2"; "3"; "4"; "5"; "6"; "7"; "8"; "9"].

(** The text is [n/a] in some mix of upper and lower case. *)
Definition notApplicable (s : string) : Prop :=
  s = "n/a" \/ s = "N/a" \/ s = "n/A" \/ s = "N/A".

(** A space, a tab or a line break (U+0020, U+0009..U+000D). *)
Definition blank (c : ascii) : Prop :=
  In c [" "; "009"; "010"; "011"; "012"; "013"]%char.

(** The text holds blanks only. *)
Definition blanks (s : string) : Prop := Forall blank (chars s).

(** No-break space (U+00A0) and ideographic space (U+3000), encoded. *)
Definition noBreakSpace : string := String "194" (String "160" "").
Definition ideographicSpace : string := String "227" (String "128" (String "128" "")).

(** [z] is the integer nearest to [q], the upper one when two are as near. *)
Definition nearestInteger (q : Q) (z : Z) : Prop :=
  (inject_Z z - (1 # 2) <= q)%Q /\ (q < inject_Z z + (1 # 2))%Q.

Definition clamp (z : Z) : Z := Z.max 1 (Z.min 9 z).

(** ** The dataset and its checklist (sections 3 and 4.4) *)

(** The row carries the given id. *)
Definition hasId (id : scalar) (r : row) : Prop := strictEquals (get r "id") id = true.

(** The dataset is unique by id: no two positions hold the same id. *)
Definition uniqueIds (rows : list row) : Prop :=
  forall (i j : nat) (ri rj : row),
    rows !! i = Some ri -> rows !! j = Some rj ->
    strictEquals (get ri "id") (get rj "id") = true -> i = j.

(** A row of the checklist: the row with its computed severity. *)
Definition withSeverity (r : row) : row :=
  <["severity" := Num (inferSeverity (get r "score"))]> r.

(** The data model of a row: [priority] is absent, empty or a numeral of at
    most 15 digits (so that its Number is its exact value) and [score] is a
    normalised score; for the ranking, [id] is an integer. *)
Definition isDigits (s : string) : bool := forallb isDigit (chars s).

Definition priorityOk (v : scalar) : bool :=
  match v with
  | Undefined => true
  | Str s => isDigits s && (String.length s <=? 15)%nat
  | _ => false
  end.

Definition scoreOk (v : scalar) : bool :=
  match v with
  | Str s => existsb (String.eqb s) normalizedScores
  | _ => false
  end.

Definition idOk (v : scalar) : bool :=
  match v with
  | Num (Fin q) => (Zpos (Qden q) =? 1)%Z
  | _ => false
  end.

Definition wellFormed (r : row) : Prop :=
  priorityOk (get r "priority") = true /\ scoreOk (get r "score") = true.

Definition integerId (r : row) : Prop := idOk (get r "id") = true.

(** The ids of the rows, in order. *)
Definition ids (rows : list row) : list scalar := map (fun r => get r "id") rows.

(** The priority a row is ordered by: its numeral, 999 when it has none. *)
Definition effectivePriority (r : row) : Z :=
  match get r "priority" with
  | Str s => if String.eqb s "" then 999%Z else digitsValue (chars s)
  | _ => 999%Z
  end.

(** Section 4.2: 0 for the empty score and [N/A], else 10 minus the score. *)
Definition severity (score : string) : Z :=
  if String.eqb score "" || String.eqb score "N/A" then 0%Z
  else (10 - digitsValue (chars score))%Z.

Definition severityOf (r : row) : Z :=
  match get r "score" with
  | Str s => severity s
  | _ => 0%Z
  end.

(** The order of the checklist: ascending effective priority, then
    descending severity. *)
Definition checklistOrder (a b : row) : Prop :=
  (effectivePriority a < effectivePriority b)%Z
  \/ (effectivePriority a = effectivePriority b /\ (severityOf b <= severityOf a)%Z).

(** Equal keys in the order of the checklist. *)
Definition sameKeys (a b : row) : bool :=
  (effectivePriority a =? effectivePriority b)%Z && (severityOf a =? severityOf b)%Z.

(** The order of the ranking: descending severity. *)
Definition severityOrder (a b : row) : Prop := (severityOf b <= severityOf a)%Z.

Definition hasSeverity (s : Z) (r : row) : bool := (severityOf r =? s)%Z.

(** A row of the checklist built from a row of the data model. *)
Definition projected (r' : row) : Prop :=
  exists r, wellFormed r /\ r' = withSeverity r.

(** ** The proxy (sections 4.5 and 6) *)

(** An environment entry that is not set, or set to the empty text. *)
Definition unset (o : option string) : Prop := o = None \/ o = Some "".

(** The upstream credential is absent: neither of the two entries the
    handler reads holds a key. *)
Definition credentialAbsent (e : env) : Prop :=
  unset (GOOGLE_GENAI_API_KEY e) /\ unset (NEXT_PUBLIC_GOOGLE_GENAI_API_KEY e).

(** The body of a response is an object whose [recommendation] is the
    text [s]. *)
Definition carriesRecommendation (r : response) (s : string) : Prop :=
  exists m : gmap string value,
    body r = Obj m /\ m !! "recommendation" = Some (Prim (Str s)).

(** The finish or block reason of an upstream answer: the first of
    [finishReason] and [finish_reason] of the first candidate and
    [promptFeedback.blockReason] that is set. *)
Definition upstreamReason (data : value) : value :=
  let c := getIndex0 (getProp data "candidates") in
  orV (orV (getProp c "finishReason") (getProp c "finish_reason"))
      (getProp (getProp data "promptFeedback") "blockReason").

(** ** Reading a CSV text (RFC 4180, records ended by line feeds)

    Fields are separated by commas and records by line feeds; a field that
    starts with a double quote runs to the closing double quote, two
    double quotes inside it standing for one. *)

Inductive csvState : Type :=
| FieldStart
| Unquoted
| Quoted
| QuoteSeen.

(** The reader: [fld] holds the characters of the current field and [rec]
    the fields of the current record, both latest first. *)
Fixpoint readFrom (st : csvState) (fld : list ascii) (rec : list string)
    (l : list ascii) : list (list string) :=
  match l with
  | [] => [rev (str (rev fld) :: rec)]
  | c :: l' =>
      match st with
      | Quoted =>
          if Ascii.eqb c quote then readFrom QuoteSeen fld rec l'
          else readFrom Quoted (c :: fld) rec l'
      | _ =>
          if Ascii.eqb c quote then
            match st with
            | FieldStart => readFrom Quoted fld rec l'
            | QuoteSeen => readFrom Quoted (c :: fld) rec l'
            | _ => readFrom Unquoted (c :: fld) rec l'
            end
          else if Ascii.eqb c comma then readFrom FieldStart [] (str (rev fld) :: rec) l'
          else if Ascii.eqb c lineFeed then
            rev (str (rev fld) :: rec) :: readFrom FieldStart [] [] l'
          else readFrom Unquoted (c :: fld) rec l'
      end
  end.

Definition readCSV (s : string) : list (list string) :=
  readFrom FieldStart [] [] (chars s).

(** The texts of the cells of a row, in the order of the columns. *)
Definition cellTexts (r : row) : list string := map fieldText (cells r).

(** ** The invariant of the dataset under the controls *)

(** A priority as the controls leave it: absent, or a text of digits. *)
Definition priorityText (v : scalar) : bool :=
  match v with
  | Undefined => true
  | Str s => isDigits s
  | _ => false
  end.

(** A normalised score and a priority of digits. *)
Definition modelled (r : row) : Prop :=
  scoreOk (get r "score") = true /\ priorityText (get r "priority") = true.

(** ** The filter *)

(** A field that holds a text, or nothing that counts (a missing field,
    [null], [false], zero). *)
Definition textual (v : scalar) : bool :=
  match or v (Str "") with
  | Str _ => true
  | _ => false
  end.

(** The fields the filter reads are textual. *)
Definition searchable (r : row) : Prop :=
  textual (get r "issueCategory") = true
  /\ textual (get r "inspectionElement") = true
  /\ textual (get r "analysis") = true
  /\ textual (get r "recommendations") = true.

(** The text of a textual field. *)
Definition textOf (v : scalar) : string := toStr (or v (Str "")).

(** What the filter keeps of rows whose fields are textual: the category
    is the chosen one (or all are), and the query is blank or occurs in
    one of the three texts; letter case does not count. *)
Definition selected (toLowerCase : string -> string) (q filterCat : string) (r : row) : bool :=
  (String.eqb filterCat "all"
   || String.eqb (toLowerCase (textOf (get r "issueCategory"))) (toLowerCase filterCat))
  && (String.eqb (trim q) ""
      || includes (toLowerCase (textOf (get r "inspectionElement"))) (toLowerCase (trim q))
      || includes (toLowerCase (textOf (get r "analysis"))) (toLowerCase (trim q))
      || includes (toLowerCase (textOf (get r "recommendations"))) (toLowerCase (trim q))).

(** ** The call of the proxy *)

(** The request settles to a body that can be destructured, and its five
    fields (with their defaults) convert to the given texts. *)
Definition asks (req : request) (element category subcategory score analysis : string) : Prop :=
  exists b : value,
    json req = Ok b /\ destructure b = Ok b
    /\ ToString (field b "element") = Ok element
    /\ ToString (field b "category") = Ok category
    /\ ToString (field b "subcategory") = Ok subcategory
    /\ ToString (field b "score") = Ok score
    /\ ToString (field b "analysis") = Ok analysis.

(** The call of [fetch] for these texts. *)
Definition upstreamCall (e : env) (key element category subcategory score analysis : string)
    : fetch_request :=
  {| url := "https://generativelanguage.googleapis.com/v1beta/models/"
            +:+ MODEL e +:+ ":generateContent?key=" +:+ encodeURIComponent key;
     prompt := system +:+ newline +:+ newline
               +:+ user element category subcategory score analysis |}.

(** A character that [encodeURIComponent] lets through, or the percent
    sign of an escape. *)
Definition urlSafe (c : ascii) : bool := unreserved c || (code c =? 37)%N.

(** The lines of the user part of the prompt, as the template literal
    spells them between its first and its last line break. *)
Definition userLines (element category subcategory score analysis : string) : list string :=
  [ "INSPECTION ELEMENT: " +:+ element;
    "CATEGORY/SUBCATEGORY: " +:+ category +:+ " / " +:+ subcategory;
    "CURRENT SCORE: " +:+ score;
    "ANALYSIS (verbatim notes):";
    analysis;
    "";
    "Write:";
    "1) Summary of issue(s) & impact (quantify if possible)";
    "2) Remediation plan (numbered steps; include examples/snippets/tools)";
    "3) Acceptance criteria (measurable)";
    "4) Owner & effort (who implements; rough complexity)";
    "5) Risks/Dependencies";
    "6) Nice-to-haves (optional)" ].

(** ** The parts of an upstream answer *)

(** The [parts] of the first candidate. *)
Definition firstParts (data : value) : value :=
  getProp (getProp (getIndex0 (getProp data "candidates")) "content") "parts".

(** The part carries the text [t]; a part without text (or with a value
    that does not count) carries the empty text. *)
Definition partText (p : value) (t : string) : Prop :=
  getProp p "text" = Prim (Str t) \/ (truthy (getProp p "text") = false /\ t = "").

(** ** What the extractor converts and finds *)

(** The part texts of the first candidate that count, joined: the
    conversion of each to a text can throw. *)
Definition joinedParts (data : value) : result string :=
  match firstParts data with
  | Arr ps => Array_join "" (List.filter truthy (map (fun p => getProp p "text") ps))
  | _ => Ok ""
  end.

(** The text found outside the parts: the non-empty text [output_text] of
    the first candidate, else the non-empty text [text] of the answer. *)
Definition fallbackText (data : value) : option string :=
  match nonEmptyString (getProp (getIndex0 (getProp data "candidates")) "output_text") with
  | Some s => Some s
  | None => nonEmptyString (getProp data "text")
  end.

(** The upstream reason as a text, [unknown] when there is none: the
    conversion can throw. *)
Definition reasonText (data : value) : result string :=
  ToString (nullishV (upstreamReason data) (Prim (Str "unknown"))).

(** ** The ranking, written back *)

(** The row with the priority of rank [i] (from 0). *)
Definition prioritized (i : nat) (r : row) : row :=
  <["priority" := Str (decimalZ (Z.of_nat i + 1))]> r.

(** ** Notions for reading the export back *)

(** A character that neither ends a field nor opens a quoted one. *)
Definition plainChar (c : ascii) : Prop := c <> quote /\ c <> comma /\ c <> lineFeed.

(** What can follow a field: the end of the text, a comma or a line feed. *)
Definition fieldEnd (rest : list ascii) : Prop :=
  rest = [] \/ exists more, rest = comma :: more \/ rest = lineFeed :: more.

(** What can follow a record: the end of the text, or a line feed. *)
Definition recordEnd (rest : list ascii) : Prop :=
  rest = [] \/ exists more, rest = lineFeed :: more.

(** The reader at the end of a record whose fields are [rec], latest
    first. *)
Definition closeRecord (rec : list string) (rest : list ascii) : list (list string) :=
  match rest with
  | [] => [rev rec]
  | _ :: more => rev rec :: readFrom FieldStart [] [] more
  end.

(** ** The page and the route together *)

(** The route behind the [fetch] of the page: the object the page sends
    is the body the handler reads, and the body the handler answers is
    what [resp.json()] gives the page, whatever the status.  (Exact for
    objects of texts, which JSON carries as they are.) *)
Definition served (e : env) (upstream : fetch_request -> result fetch_response)
    (parse : string -> result value) (sent : gmap string scalar) : result (result value) :=
  Ok (Ok (body (snd (POST e upstream parse {| json := Ok (Obj (Prim <$> sent)) |})))).

(** The fields of a row that a request carries are textual. *)
Definition askable (r : row) : Prop :=
  textual (get r "analysis") = true
  /\ textual (get r "score") = true
  /\ textual (get r "inspectionElement") = true
  /\ textual (get r "issueCategory") = true
  /\ textual (get r "issueSubCategory") = true.

End Spec.

(* ===================================================================== *)
(** * Sample inputs *)
(* ===================================================================== *)

Module Sample.
Import JS Page Route.

Definition noKeys : env :=
  {| GOOGLE_GENAI_API_KEY := None;
     NEXT_PUBLIC_GOOGLE_GENAI_API_KEY := None;
     GEMINI_MODEL := None |}.

Definition withKey : env :=
  {| GOOGLE_GENAI_API_KEY := Some "secret-key";
     NEXT_PUBLIC_GOOGLE_GENAI_API_KEY := None;
     GEMINI_MODEL := None |}.

(** An upstream that answers 200 with an empty JSON object. *)
Definition upstreamEmpty (_ : fetch_request) : result fetch_response :=
  Ok {| resp_status := 200; resp_text := Ok "{}" |}.

Definition parseEmpty (_ : string) : result value := Ok (Obj ∅).

Definition titleFields : gmap string value :=
  <["score" := Prim (Str "9")]> {[ "element" := Prim (Str "Title tag") ]}.

(** The request body with [score] 9 and [element] Title tag. *)
Definition score9Request : request := {| json := Ok (Obj titleFields) |}.

(** An object that hides [Object.prototype.toString] behind an own property
    that cannot be called: [{ toString: null }]. *)
Definition hidesToString : value := Obj {[ "toString" := Prim Null ]}.

(** An upstream answer whose finish reason is an object that hides
    [toString]. *)
Definition badReasonAnswer : value :=
  Obj {[ "candidates" :=
           Arr [ Obj {[ "finishReason" := Obj {[ "toString" := Prim Null ]} ]} ] ]}.

(** The request body with [score] 3. *)
Definition score3Request : request :=
  {| json := Ok (Obj (<["score" := Prim (Str "3")]> {[ "element" := Prim (Str "Title tag") ]})) |}.

(** An upstream answer of the usual shape, with its text in two parts. *)
Definition answerWithText : value :=
  Obj {[ "candidates" :=
           Arr [ Obj {[ "content" :=
                          Obj {[ "parts" :=
                                   Arr [ Obj {[ "text" := Prim (Str "Shorten ") ]};
                                         Obj {[ "text" := Prim (Str "the title.") ]} ] ]} ]} ] ]}.

Definition parseAnswer (_ : string) : result value := Ok answerWithText.

Definition upstreamBusy (_ : fetch_request) : result fetch_response :=
  Ok {| resp_status := 503; resp_text := Ok "busy" |}.

Definition upstreamDown (_ : fetch_request) : result fetch_response :=
  Throw (Error "TypeError" "fetch failed").

(** Rows with the fields the checklist reads. *)
Definition mkRow (id : Z) (priority score : string) : row :=
  <["id" := Num (ofZ id)]> (<["priority" := Str priority]> {[ "score" := Str score ]}).

(** A row without priority before a row with priority 1000. *)
Definition unsetThenThousand : list row := [mkRow 1 "" "5"; mkRow 2 "1000" "5"].

(** Two rows of equal severity, the second with the smaller priority. *)
Definition tiedRows : list row := [mkRow 1 "7" "5"; mkRow 2 "3" "5"].

(** A small dataset of the data model. *)
Definition audit : list row :=
  [mkRow 1 "" "5"; mkRow 2 "3" "N/A"; mkRow 3 "1" "9"; mkRow 4 "3" "2"].

(** Lower case for the samples: the letters of ASCII. *)
Definition lowerAscii (s : string) : string :=
  str (map (fun c => if ((65 <=? code c) && (code c <=? 90))%N
                     then ascii_of_N (code c + 32) else c)
         (chars s)).

(** Rows with the texts the filter reads. *)
Definition note (id : Z) (element category analysis : string) : row :=
  <["id" := Num (ofZ id)]>
    (<["inspectionElement" := Str element]>
       (<["issueCategory" := Str category]> {[ "analysis" := Str analysis ]})).

Definition notes : list row :=
  [ note 1 "Title tag" "4- Content" "Too long, truncated in results";
    note 2 "Robots.txt" "1- Accessibility" "Blocks the blog";
    note 3 "Meta description" "4- Content" "Missing on the home page" ].

End Sample.

(* ===================================================================== *)
(** * Properties *)
(* ===================================================================== *)

Import JS Page Route Spec.

(** ** Texts *)

Lemma chars_str (l : list ascii) : chars (str l) = l.
Proof. apply list_ascii_of_string_of_list_ascii. Qed.

Lemma str_chars (s : string) : str (chars s) = s.
Proof. apply string_of_list_ascii_of_string. Qed.

Lemma chars_append (a b : string) : chars (a +:+ b) = (chars a ++ chars b)%list.
Proof. induction a as [|c a IH]; simpl; [reflexivity|]. now rewrite <- IH. Qed.

Lemma length_chars (s : string) : length (chars s) = String.length s.
Proof. induction s as [|c s IH]; simpl; [reflexivity|]. now rewrite <- IH. Qed.

Lemma code_eqb (c : ascii) (n : N) :
  (n < 256)%N -> (code c =? n)%N = true <-> c = ascii_of_N n.
Proof.
  intros Hn. unfold code. rewrite N.eqb_eq. split.
  - intros H. rewrite <- H. symmetry. apply ascii_N_embedding.
  - intros ->. now apply N_ascii_embedding.
Qed.

(** ** Numbers *)

Lemma Qle_bool_inject_Z (a b : Z) : Qle_bool (inject_Z a) (inject_Z b) = (a <=? b)%Z.
Proof. unfold Qle_bool, inject_Z. simpl. now rewrite !Z.mul_1_r. Qed.

Lemma number_ltb_ofZ (a b : Z) : number_ltb (ofZ a) (ofZ b) = (a <? b)%Z.
Proof.
  unfold number_ltb, ofZ. rewrite Qle_bool_inject_Z.
  destruct (Z.leb_spec b a), (Z.ltb_spec a b); simpl; try reflexivity; lia.
Qed.

Lemma Math_max_ofZ (a b : Z) : Math_max (ofZ a) (ofZ b) = ofZ (Z.max a b).
Proof.
  unfold Math_max. change (ofZ a) with (Fin (inject_Z a)) at 1.
  change (ofZ b) with (Fin (inject_Z b)) at 1. cbv iota.
  fold (ofZ a) (ofZ b). rewrite number_ltb_ofZ.
  destruct (Z.ltb_spec a b); f_equal; lia.
Qed.

Lemma Math_min_ofZ (a b : Z) : Math_min (ofZ a) (ofZ b) = ofZ (Z.min a b).
Proof.
  unfold Math_min. change (ofZ a) with (Fin (inject_Z a)) at 1.
  change (ofZ b) with (Fin (inject_Z b)) at 1. cbv iota.
  fold (ofZ a) (ofZ b). rewrite number_ltb_ofZ.
  destruct (Z.ltb_spec b a); f_equal; lia.
Qed.

Lemma Number_toString_ofZ (z : Z) :
  (0 <= z <= 2 ^ 53)%Z -> Number_toString (ofZ z) = decimalZ z.
Proof.
  intros Hz. unfold Number_toString, ofZ, inject_Z, positiveToString.
  cbn [Qnum Qden].
  destruct (Z.eqb_spec z 0) as [->|Hnz]; [reflexivity|].
  destruct (Z.ltb_spec z 0); [lia|].
  destruct (Z.leb_spec z (2 ^ 53)); [reflexivity|lia].
Qed.

Lemma Math_round_nearest (q : Q) : nearestInteger q (Qfloor (q + (1 # 2))).
Proof.
  unfold nearestInteger.
  pose proof (Qfloor_le (q + (1 # 2))) as H1.
  pose proof (Qlt_floor (q + (1 # 2))) as H2.
  rewrite inject_Z_plus in H2. change (inject_Z 1) with 1%Q in H2.
  split; lra.
Qed.

(** ** Small integers are exact *)

Lemma rne_div_1 (x : Z) : rne_div x 1 = x.
Proof.
  unfold rne_div. rewrite Z.mod_1_r, Z.div_1_r. reflexivity.
Qed.

Lemma Qred_inject_Z (z : Z) : Qred (inject_Z z) = inject_Z z.
Proof.
  unfold Qred, inject_Z.
  pose proof (Z.ggcd_gcd z 1) as Hg. pose proof (Z.ggcd_correct_divisors z 1) as Hd.
  destruct (Z.ggcd z 1) as [g [aa bb]]. simpl in *.
  rewrite Z.gcd_1_r in Hg. subst g. destruct Hd as [Ha Hb].
  rewrite Z.mul_1_l in Ha, Hb. subst. reflexivity.
Qed.

Lemma round64_inject_Z (z : Z) : (Z.abs z < 2 ^ 53)%Z -> round64 (inject_Z z) = ofZ z.
Proof.
  intros Hz. unfold round64, inject_Z, ofZ. cbn [Qnum Qden].
  destruct (Z.eqb_spec (Z.abs z) 0) as [H0|H0].
  { assert (z = 0)%Z as -> by lia. reflexivity. }
  set (n := Z.abs z) in *.
  assert (0 < n)%Z as Hn by lia.
  pose proof (Z.log2_spec n Hn) as [Hlo Hhi].
  pose proof (Z.log2_nonneg n) as Hlog.
  assert (Z.log2 n < 53)%Z as Hl53 by (apply Z.log2_lt_pow2; lia).
  assert (ilog2 n 1 = Z.log2 n) as ->.
  { unfold ilog2. change (Z.log2 1) with 0%Z. rewrite Z.sub_0_r.
    rewrite (Z.max_l 0 (- Z.log2 n)) by lia. rewrite (Z.max_r 0 (Z.log2 n)) by lia.
    destruct (Z.ltb_spec (n * 2 ^ 0) (1 * 2 ^ Z.log2 n)); [lia|reflexivity]. }
  rewrite (Z.max_l (Z.log2 n - 52) (-1074)) by lia.
  rewrite (Z.max_r 0 (- (Z.log2 n - 52))) by lia.
  rewrite (Z.max_l 0 (Z.log2 n - 52)) by lia.
  change (2 ^ 0)%Z with 1%Z. rewrite !Z.mul_1_r. rewrite rne_div_1.
  set (k := (- (Z.log2 n - 52))%Z).
  assert (0 <= k)%Z as Hk by lia.
  assert (0 < 2 ^ k)%Z as Hpk by (apply Z.pow_pos_nonneg; lia).
  assert (n * 2 ^ k < 2 ^ 53)%Z as Hsmall.
  { replace 53%Z with (Z.succ (Z.log2 n) + k)%Z by lia.
    rewrite Z.pow_add_r by lia. nia. }
  destruct (Z.leb_spec (2 ^ 1024) (n * 2 ^ k)) as [Hbig|_].
  { exfalso. assert (2 ^ 53 < 2 ^ 1024)%Z by reflexivity. lia. }
  f_equal.
  rewrite <- (Qred_inject_Z z).
  apply Qred_complete. unfold Qeq. cbn [Qnum Qden].
  rewrite Z2Pos.id by exact Hpk. unfold n.
  rewrite Z.mul_1_r, Z.mul_assoc, (Z.mul_comm (Z.sgn z)), Z.abs_sgn. reflexivity.
Qed.

Lemma Qminus_inject_Z (a b : Z) : (inject_Z a - inject_Z b)%Q = inject_Z (a - b).
Proof.
  unfold Qminus, Qplus, Qopp, inject_Z. cbn [Qnum Qden]. f_equal. lia.
Qed.

Lemma sub_ofZ (a b : Z) : (Z.abs (a - b) < 2 ^ 53)%Z -> sub (ofZ a) (ofZ b) = ofZ (a - b).
Proof.
  intros H. unfold sub, ofZ. rewrite Qminus_inject_Z. now apply round64_inject_Z.
Qed.

(** ** Numerals of digits *)
Lemma isDigit_not_space (a : ascii) :
  isDigit a = true ->
  ws1 a = false /\ (forall b, ws2 a b = false) /\ (forall b c, ws3 a b c = false)
  /\ (forall b, ws2 b a = false) /\ (forall b c, ws3 c b a = false).
Proof.
  destruct a as [[] [] [] [] [] [] [] []]; intros H; try discriminate H;
    (split; [reflexivity|]); (split; [reflexivity|]); (split; [reflexivity|]);
    (split; [intros b; unfold ws2; cbn; apply andb_false_r|]);
    intros b c; unfold ws3; cbn; rewrite ?andb_false_r; reflexivity.
Qed.

Lemma dropWhiteSpace_digit (a : ascii) (l : list ascii) :
  isDigit a = true -> dropWhiteSpace (a :: l) = a :: l.
Proof.
  intros H. destruct (isDigit_not_space a H) as (H1 & H2 & H3 & _).
  simpl. rewrite H1. destruct l as [|b [|c l]]; [reflexivity| |].
  - now rewrite H2.
  - now rewrite H2, H3.
Qed.

Lemma dropWhiteSpaceRev_digit (a : ascii) (l : list ascii) :
  isDigit a = true -> dropWhiteSpaceRev (a :: l) = a :: l.
Proof.
  intros H. destruct (isDigit_not_space a H) as (H1 & _ & _ & H2 & H3).
  simpl. rewrite H1. destruct l as [|b [|c l]]; [reflexivity| |].
  - now rewrite H2.
  - now rewrite H2, H3.
Qed.

Lemma trimChars_digits (l : list ascii) :
  forallb isDigit l = true -> trimChars l = l.
Proof.
  intros H. unfold trimChars. destruct l as [|a l]; [reflexivity|].
  simpl in H. apply andb_true_iff in H as [Ha Hl].
  rewrite dropWhiteSpace_digit by exact Ha.
  assert (forallb isDigit (rev (a :: l)) = true) as Hrev.
  { rewrite forallb_forall. intros x Hx. apply in_rev in Hx.
    destruct Hx as [<- | Hx]; [exact Ha|].
    rewrite forallb_forall in Hl. now apply Hl. }
  destruct (rev (a :: l)) as [|b r] eqn:Hr.
  { apply (f_equal (@length ascii)) in Hr. rewrite length_rev in Hr. discriminate. }
  simpl in Hrev. apply andb_true_iff in Hrev as [Hb _].
  rewrite dropWhiteSpaceRev_digit by exact Hb.
  rewrite <- Hr. apply rev_involutive.
Qed.

Lemma spanDigits_digits (l : list ascii) :
  forallb isDigit l = true -> spanDigits l = (l, []).
Proof.
  induction l as [|c l IH]; [reflexivity|]. simpl.
  intros H. apply andb_true_iff in H as [Hc Hl]. now rewrite Hc, IH.
Qed.

Lemma radixOf_digit (p : ascii) : isDigit p = true -> radixOf p = None.
Proof.
  destruct p as [[] [] [] [] [] [] [] []]; intros H; try discriminate H; reflexivity.
Qed.

Lemma parseNonDecimal_digits (l : list ascii) :
  forallb isDigit l = true -> parseNonDecimal l = None.
Proof.
  destruct l as [|z [|p [|d ds]]]; try reflexivity.
  simpl. intros H. apply andb_true_iff in H as [_ H]. apply andb_true_iff in H as [Hp _].
  rewrite (radixOf_digit p Hp). now destruct (code z =? 48)%N.
Qed.

Lemma digit_first (a : ascii) (l : list ascii) :
  isDigit a = true ->
  match a :: l with
  | "+"%char :: r => (false, r)
  | "-"%char :: r => (true, r)
  | _ => (false, a :: l)
  end = (false, a :: l)
  /\ String.eqb (str (a :: l)) "Infinity" = false.
Proof.
  destruct a as [[] [] [] [] [] [] [] []]; intros H; try discriminate H;
    split; reflexivity.
Qed.

Lemma digitVal_range (c : ascii) : isDigit c = true -> (0 <= digitVal c <= 9)%Z.
Proof.
  unfold isDigit, digitVal. intros H. apply andb_true_iff in H as [H1 H2].
  apply N.leb_le in H1, H2. lia.
Qed.

Lemma fold_digits_bound (l : list ascii) (acc : Z) :
  forallb isDigit l = true -> (0 <= acc)%Z ->
  (0 <= fold_left (fun acc c => acc * 10 + digitVal c) l acc
   < (acc + 1) * 10 ^ Z.of_nat (length l))%Z.
Proof.
  revert acc. induction l as [|c l IH]; intros acc H Hacc.
  - simpl. lia.
  - simpl in H. apply andb_true_iff in H as [Hc Hl].
    pose proof (digitVal_range c Hc) as Hd.
    cbn [fold_left length]. rewrite Nat2Z.inj_succ, Z.pow_succ_r by lia.
    specialize (IH (acc * 10 + digitVal c)%Z Hl ltac:(lia)).
    assert (0 < 10 ^ Z.of_nat (length l))%Z by (apply Z.pow_pos_nonneg; lia).
    nia.
Qed.

Lemma digitsValue_bound (l : list ascii) :
  forallb isDigit l = true ->
  (0 <= digitsValue l < 10 ^ Z.of_nat (length l))%Z.
Proof.
  intros H. pose proof (fold_digits_bound l 0 H ltac:(lia)) as Hb.
  unfold digitsValue. lia.
Qed.

Lemma StringToNumber_digits (s : string) :
  s <> "" -> forallb isDigit (chars s) = true -> (String.length s <= 15)%nat ->
  StringToNumber s = ofZ (digitsValue (chars s)).
Proof.
  intros Hne Hd Hlen. unfold StringToNumber.
  rewrite trimChars_digits by exact Hd.
  pose proof (digitsValue_bound (chars s) Hd) as Hb.
  rewrite length_chars in Hb.
  destruct (chars s) as [|a l] eqn:Hc.
  { exfalso. apply Hne. rewrite <- (str_chars s), Hc. reflexivity. }
  rewrite parseNonDecimal_digits by exact Hd.
  assert (isDigit a = true) as Ha by (simpl in Hd; now apply andb_true_iff in Hd as [? _]).
  destruct (digit_first a l Ha) as [-> ->].
  unfold parseUnsignedDecimal. rewrite spanDigits_digits by exact Hd.
  cbn [parseExponent]. unfold scale10. cbn [Z.leb Z.compare].
  rewrite Z.pow_0_r, Z.mul_1_r.
  apply round64_inject_Z.
  assert (10 ^ Z.of_nat (String.length s) <= 10 ^ 15)%Z
    by (apply Z.pow_le_mono_r; lia).
  assert (10 ^ 15 < 2 ^ 53)%Z by reflexivity. lia.
Qed.

(** ** Checks of the built-ins *)

(** [0.1], rounding to even at [2^53], the largest finite value and the
    overflow, the least positive value and the underflow. *)
Example round64_examples :
  round64 (1 # 10) = Fin (3602879701896397 # 36028797018963968)
  /\ round64 (inject_Z (2 ^ 53 + 1)) = ofZ (2 ^ 53)
  /\ round64 (inject_Z (2 ^ 53 + 3)) = ofZ (2 ^ 53 + 4)
  /\ round64 (inject_Z (2 ^ 1024 - 2 ^ 970 - 1)) = ofZ (2 ^ 1024 - 2 ^ 971)
  /\ round64 (inject_Z (2 ^ 1024 - 2 ^ 970)) = PInf
  /\ round64 (3 # 2 ^ 1076) = Fin (1 # 2 ^ 1074)
  /\ round64 (1 # 2 ^ 1075) = ofZ 0.
Proof. repeat split; vm_compute; reflexivity. Qed.

Example StringToNumber_examples :
  map StringToNumber
    ["15"; " 7 "; "0x1F"; "0b101"; "+5"; "-2.5"; "5."; ".5"; "1e3"; "";
     "abc"; "1e"; "-0x10"; "1_000"; "12px"; "Infinity"; "-Infinity"; "1e999";
     "9007199254740993"]
  = [ofZ 15; ofZ 7; ofZ 31; ofZ 5; ofZ 5; Fin (-5 # 2); ofZ 5; Fin (1 # 2); ofZ 1000; ofZ 0;
     NaN; NaN; NaN; NaN; NaN; PInf; NInf; PInf;
     ofZ 9007199254740992].
Proof. vm_compute. reflexivity. Qed.

Example Number_toString_examples :
  map Number_toString
    [ofZ 0; ofZ (-5); Fin (1 # 2); Fin (-1 # 4); StringToNumber "0.1";
     StringToNumber "1e21"; StringToNumber "1e-7"; StringToNumber "0.000001";
     StringToNumber "123456789012345680000"; StringToNumber "5e-324";
     ofZ (2 ^ 60); NaN; NInf]
  = ["0"; "-5"; "0.5"; "-0.25"; "0.1"; "1e+21"; "1e-7"; "0.000001";
     "123456789012345680000"; "5e-324"; "1152921504606847000"; "NaN"; "-Infinity"].
Proof. vm_compute. reflexivity. Qed.

(** On integers the digit search selects the decimal numeral, as
    [positiveToString] takes it to. *)
Example shortestDigits_of_integers :
  map (fun z => let '(s, n) := shortestDigits 17 (inject_Z z) (decimalExponent (inject_Z z)) 1 in
                formatDigits s n)
    [1; 9; 10; 12; 100; 999; 1000; 123456789; 2 ^ 53]%Z
  = map decimalZ [1; 9; 10; 12; 100; 999; 1000; 123456789; 2 ^ 53]%Z.
Proof. vm_compute. reflexivity. Qed.

(** ** Primitive values *)

Lemma Qeq_bool_sym (a b : Q) : Qeq_bool a b = Qeq_bool b a.
Proof.
  destruct (Qeq_bool a b) eqn:H1, (Qeq_bool b a) eqn:H2; try reflexivity.
  - apply Qeq_bool_iff in H1. symmetry in H1. apply Qeq_bool_iff in H1. congruence.
  - apply Qeq_bool_iff in H2. symmetry in H2. apply Qeq_bool_iff in H2. congruence.
Qed.

Lemma Qeq_bool_trans (a b c : Q) :
  Qeq_bool a b = true -> Qeq_bool b c = true -> Qeq_bool a c = true.
Proof.
  rewrite !Qeq_bool_iff. intros H1 H2. now rewrite H1.
Qed.

Lemma strictEquals_sym (a b : scalar) : strictEquals a b = strictEquals b a.
Proof.
  destruct a as [| |x|x|x], b as [| |y|y|y]; simpl; try reflexivity.
  - now destruct x, y.
  - destruct x, y; simpl; try reflexivity. apply Qeq_bool_sym.
  - apply String.eqb_sym.
Qed.

Lemma strictEquals_trans (a b c : scalar) :
  strictEquals a b = true -> strictEquals b c = true -> strictEquals a c = true.
Proof.
  destruct a as [| |x|x|x], b as [| |y|y|y], c as [| |z|z|z]; simpl; try congruence.
  - destruct x, y, z; simpl; congruence.
  - destruct x, y, z; simpl; try congruence. apply Qeq_bool_trans.
  - rewrite !String.eqb_eq. congruence.
Qed.

Lemma strictEquals_Str (v : scalar) (s : string) :
  strictEquals v (Str s) = true <-> v = Str s.
Proof.
  destruct v; simpl; split; try congruence.
  - rewrite String.eqb_eq. congruence.
  - intros [= ->]. apply String.eqb_refl.
Qed.

(** ** [Array.prototype.sort] rearranges *)

Section SortPermutation.
Context {A : Type} (comparefn : A -> A -> number).

Lemma insertSorted_Permutation (x : A) (l : list A) :
  Permutation (insertSorted comparefn x l) (x :: l).
Proof.
  induction l as [|y l IH]; simpl; [reflexivity|].
  destruct (before comparefn y x); [|reflexivity].
  rewrite IH. apply perm_swap.
Qed.

Lemma Array_sort_Permutation (l : list A) : Permutation (Array_sort comparefn l) l.
Proof.
  induction l as [|x l IH]; simpl; [reflexivity|].
  rewrite insertSorted_Permutation. now constructor.
Qed.

End SortPermutation.

(** ** [Array.prototype.sort] sorts, and is stable *)

Section SortSorted.
Context {A : Type} (comparefn : A -> A -> number).
Context (P : A -> Prop) (le : A -> A -> Prop).
Hypothesis le_total : forall x y, P x -> P y -> before comparefn y x = false -> le x y.
Hypothesis le_before : forall x y, P x -> P y -> before comparefn y x = true -> le y x.
Hypothesis le_trans : forall x y z, P x -> P y -> P z -> le x y -> le y z -> le x z.

Lemma insertSorted_In (x y : A) (l : list A) :
  In y (insertSorted comparefn x l) <-> y = x \/ In y l.
Proof.
  induction l as [|z l IH]; simpl; [intuition|].
  destruct (before comparefn z x); simpl; [rewrite IH|]; intuition.
Qed.

Lemma insertSorted_sorted (x : A) (l : list A) :
  P x -> Forall P l -> StronglySorted le l ->
  StronglySorted le (insertSorted comparefn x l).
Proof.
  intros Hx HP Hs. induction l as [|y l IH]; simpl.
  - constructor; constructor.
  - inversion HP as [|? ? Hy HPl]; subst. inversion Hs as [|? ? Hsl Hyl]; subst.
    destruct (before comparefn y x) eqn:Hb.
    + constructor; [now apply IH|].
      apply List.Forall_forall. intros z Hz. apply insertSorted_In in Hz as [-> | Hz].
      * now apply le_before.
      * rewrite List.Forall_forall in Hyl. now apply Hyl.
    + constructor; [assumption|].
      assert (le x y) as Hxy by now apply le_total.
      constructor; [exact Hxy|].
      rewrite List.Forall_forall in Hyl, HPl |- *. intros z Hz.
      apply le_trans with y; auto.
Qed.

Lemma Array_sort_Forall (l : list A) : Forall P l -> Forall P (Array_sort comparefn l).
Proof.
  intros H. rewrite List.Forall_forall in H |- *. intros x Hx.
  apply H. eapply Permutation_in; [apply Array_sort_Permutation|exact Hx].
Qed.

Lemma Array_sort_sorted (l : list A) :
  Forall P l -> StronglySorted le (Array_sort comparefn l).
Proof.
  induction l as [|x l IH]; intros H; simpl; [constructor|].
  inversion H; subst. apply insertSorted_sorted; auto.
  now apply Array_sort_Forall.
Qed.

End SortSorted.

Section SortStable.
Context {A : Type} (comparefn : A -> A -> number).
Context (P : A -> Prop) (p : A -> bool).
Hypothesis before_apart :
  forall x y, P x -> P y -> before comparefn y x = true -> p x = true -> p y = true -> False.

Lemma insertSorted_filter (x : A) (l : list A) :
  P x -> Forall P l ->
  List.filter p (insertSorted comparefn x l) = List.filter p (x :: l).
Proof.
  intros Hx HP. induction l as [|y l IH]; [reflexivity|].
  inversion HP as [|? ? Hy HPl]; subst. specialize (IH HPl).
  cbn [insertSorted]. destruct (before comparefn y x) eqn:Hb; [|reflexivity].
  cbn [List.filter] in *. rewrite IH.
  destruct (p x) eqn:Hpx, (p y) eqn:Hpy; try reflexivity.
  exfalso. eapply before_apart; eauto.
Qed.

Lemma Array_sort_filter (l : list A) :
  Forall P l -> List.filter p (Array_sort comparefn l) = List.filter p l.
Proof.
  induction l as [|x l IH]; intros H; [reflexivity|].
  inversion H; subst. cbn [Array_sort].
  rewrite insertSorted_filter; auto.
  - cbn [List.filter]. now rewrite IH.
  - now apply (Array_sort_Forall comparefn P).
Qed.

End SortStable.

Section StableSortUnique.
Context {A : Type} (le : A -> A -> Prop) (same : A -> A -> bool).
Hypothesis same_spec : forall x y, same x y = true <-> le x y /\ le y x.
Hypothesis le_refl : forall x, le x x.

Lemma filter_same_In (z : A) (l : list A) : In z l -> In z (List.filter (same z) l).
Proof.
  intros H. apply filter_In. split; [exact H|]. apply same_spec. split; apply le_refl.
Qed.

(** Two sorted arrangements that list every class of equal elements in
    the same order are the same list. *)
Lemma stable_sorted_unique (l1 l2 : list A) :
  StronglySorted le l1 -> StronglySorted le l2 ->
  (forall z, List.filter (same z) l1 = List.filter (same z) l2) ->
  l1 = l2.
Proof.
  revert l2. induction l1 as [|x l1 IH]; intros l2 H1 H2 Hf.
  - destruct l2 as [|y l2]; [reflexivity|].
    pose proof (filter_same_In y (y :: l2) (or_introl eq_refl)) as Hin.
    rewrite <- Hf in Hin. destruct Hin.
  - destruct l2 as [|y l2].
    { pose proof (filter_same_In x (x :: l1) (or_introl eq_refl)) as Hin.
      rewrite Hf in Hin. destruct Hin. }
    inversion H1 as [|? ? H1' Hx]; subst. inversion H2 as [|? ? H2' Hy]; subst.
    rewrite List.Forall_forall in Hx, Hy.
    assert (le x y /\ le y x) as Hxy.
    { split.
      - pose proof (filter_same_In y (y :: l2) (or_introl eq_refl)) as Hin.
        rewrite <- Hf in Hin. apply filter_In in Hin as [[<- | Hin] _]; auto.
      - pose proof (filter_same_In x (x :: l1) (or_introl eq_refl)) as Hin.
        rewrite Hf in Hin. apply filter_In in Hin as [[<- | Hin] _]; auto. }
    assert (x = y) as <-.
    { pose proof (Hf x) as Hfx. cbn [List.filter] in Hfx.
      assert (same x x = true) as Hxx by (apply same_spec; split; apply le_refl).
      assert (same x y = true) as Hsxy by now apply same_spec.
      rewrite Hxx, Hsxy in Hfx. now injection Hfx. }
    f_equal. apply IH; auto.
    intros z. pose proof (Hf z) as Hfz. cbn [List.filter] in Hfz.
    destruct (same z x); [now injection Hfz | exact Hfz].
Qed.

End StableSortUnique.

(** ** C2: the score normaliser *)

Lemma upperChar_N (c : ascii) : upperChar c = "N"%char -> c = "N"%char \/ c = "n"%char.
Proof.
  destruct c as [[] [] [] [] [] [] [] []]; vm_compute; intros H;
    first [discriminate H | now left | now right].
Qed.

Lemma upperChar_A (c : ascii) : upperChar c = "A"%char -> c = "A"%char \/ c = "a"%char.
Proof.
  destruct c as [[] [] [] [] [] [] [] []]; vm_compute; intros H;
    first [discriminate H | now left | now right].
Qed.

Lemma upperChar_slash (c : ascii) : upperChar c = "/"%char -> c = "/"%char.
Proof.
  destruct c as [[] [] [] [] [] [] [] []]; vm_compute; intros H;
    first [discriminate H | reflexivity].
Qed.

Lemma toUpperCase_NA (s : string) : toUpperCase s = "N/A" <-> notApplicable s.
Proof.
  unfold notApplicable. split.
  - intros H. apply (f_equal chars) in H. unfold toUpperCase in H.
    rewrite chars_str in H. rewrite <- (str_chars s).
    destruct (chars s) as [|c1 [|c2 [|c3 [|c4 l]]]]; try discriminate H.
    simpl in H. injection H as H1 H2 H3.
    apply upperChar_N in H1. apply upperChar_slash in H2. apply upperChar_A in H3.
    destruct H1 as [-> | ->], H3 as [-> | ->]; subst c2; simpl; auto.
  - intros [-> | [-> | [-> | ->]]]; reflexivity.
Qed.

Lemma clamped_digit (z : Z) :
  In (decimalZ (clamp z)) ["1"; "2"; "3"; "4"; "5"; "6"; "7"; "8"; "9"].
Proof.
  assert (1 <= clamp z <= 9)%Z as H by (unfold clamp; lia).
  assert (clamp z = 1 \/ clamp z = 2 \/ clamp z = 3 \/ clamp z = 4 \/ clamp z = 5
          \/ clamp z = 6 \/ clamp z = 7 \/ clamp z = 8 \/ clamp z = 9)%Z as Hc by lia.
  repeat (destruct Hc as [-> | Hc]; [simpl; tauto|]). rewrite Hc. simpl; tauto.
Qed.

Lemma clampRound (q : Q) :
  Number_toString (Math_min (ofZ 9) (Math_max (ofZ 1) (Math_round (Fin q))))
  = decimalZ (clamp (Qfloor (q + (1 # 2)))).
Proof.
  unfold Math_round. rewrite Math_max_ofZ, Math_min_ofZ.
  rewrite Number_toString_ofZ by lia. unfold clamp. f_equal. lia.
Qed.

(** The normaliser on a value that is neither [null] nor [undefined], by
    the text [s] it trims to. *)
Lemma sanitizeScore_cases (x : scalar) :
  x <> Null -> x <> Undefined ->
  let s := trim (toStr x) in
  (notApplicable s -> sanitizeScore x = "N/A")
  /\ (s = "" -> sanitizeScore x = "")
  /\ (~ notApplicable s -> s <> "" -> isFinite (StringToNumber s) = false ->
      sanitizeScore x = "")
  /\ (~ notApplicable s -> s <> "" -> forall q, StringToNumber s = Fin q ->
      exists z, nearestInteger q z /\ sanitizeScore x = decimalZ (clamp z)).
Proof.
  intros Hn Hu s.
  assert (sanitizeScore x =
            if String.eqb (toUpperCase s) "N/A" then "N/A"
            else if String.eqb s "" then ""
            else if negb (isFinite (StringToNumber s)) then ""
            else Number_toString
                   (Math_min (ofZ 9) (Math_max (ofZ 1) (Math_round (StringToNumber s)))))
    as ->.
  { destruct x; try congruence; reflexivity. }
  pose proof (toUpperCase_NA s) as Hna.
  destruct (String.eqb_spec (toUpperCase s) "N/A") as [Hup|Hup].
  - apply Hna in Hup. repeat split; intros; try tauto.
    destruct Hup as [E | [E | [E | E]]]; congruence.
  - assert (~ notApplicable s) as Hnot by tauto.
    destruct (String.eqb_spec s "") as [Hs|Hs].
    + repeat split; intros; tauto.
    + repeat split; intros; try tauto.
      * match goal with Hf : isFinite _ = false |- _ => now rewrite Hf end.
      * match goal with Hf : StringToNumber _ = Fin _ |- _ => rewrite Hf end.
        cbn [isFinite negb]. rewrite clampRound.
        eexists. split; [apply Math_round_nearest | reflexivity].
Qed.

Lemma sanitizeScore_range (x : scalar) : In (sanitizeScore x) normalizedScores.
Proof.
  assert (x = Null \/ x = Undefined \/ (x <> Null /\ x <> Undefined)) as Hx
    by (destruct x; auto; right; right; split; discriminate).
  destruct Hx as [-> | [-> | [Hn Hu]]]; [simpl; tauto | simpl; tauto |].
  destruct (sanitizeScore_cases x Hn Hu) as (H1 & H2 & H3 & H4).
  set (s := trim (toStr x)) in *.
  destruct (String.eqb_spec (toUpperCase s) "N/A") as [Hup|Hup].
  { apply toUpperCase_NA in Hup. rewrite (H1 Hup). simpl; tauto. }
  rewrite toUpperCase_NA in Hup.
  destruct (String.eqb_spec s "") as [Hs|Hs]; [rewrite (H2 Hs); simpl; tauto|].
  destruct (StringToNumber s) as [| | |q] eqn:Hnum;
    try (rewrite (H3 Hup Hs eq_refl); simpl; tauto).
  destruct (H4 Hup Hs q eq_refl) as (z & _ & ->).
  pose proof (clamped_digit z) as Hd. simpl in Hd |- *. tauto.
Qed.

Lemma ws1_blank (c : ascii) : blank c -> ws1 c = true.
Proof.
  unfold blank. simpl. intros H.
  repeat (destruct H as [<- | H]; [reflexivity|]). destruct H.
Qed.

Lemma ws2_blank (a b : ascii) : blank b -> ws2 a b = false.
Proof.
  unfold blank. simpl. intros H. unfold ws2.
  repeat (destruct H as [<- | H]; [apply andb_false_r|]). destruct H.
Qed.

Lemma ws3_blank (a b c : ascii) : blank b \/ blank c -> ws3 a b c = false.
Proof.
  unfold blank. simpl. unfold ws3. cbv zeta.
  intros [H | H];
    repeat (destruct H as [<- | H];
            [cbn; rewrite ?andb_false_r, ?orb_false_r; reflexivity|]);
    destruct H.
Qed.

Lemma dropWhiteSpace_blank_prefix (p l : list ascii) :
  Forall blank p -> dropWhiteSpace (p ++ l)%list = dropWhiteSpace l.
Proof.
  induction 1 as [|c p Hc _ IH]; [reflexivity|].
  cbn [app dropWhiteSpace]. now rewrite (ws1_blank c Hc).
Qed.

Lemma dropWhiteSpaceRev_blank_prefix (p l : list ascii) :
  Forall blank p -> dropWhiteSpaceRev (p ++ l)%list = dropWhiteSpaceRev l.
Proof.
  induction 1 as [|c p Hc _ IH]; [reflexivity|].
  cbn [app dropWhiteSpaceRev]. now rewrite (ws1_blank c Hc).
Qed.

Lemma dropWhiteSpace_blank_suffix (n : nat) (l p : list ascii) :
  (length l <= n)%nat -> Forall blank p ->
  dropWhiteSpace (l ++ p)%list
  = match dropWhiteSpace l with [] => [] | x :: m => x :: (m ++ p)%list end.
Proof.
  revert l. induction n as [|n IH]; intros l Hlen Hp.
  { destruct l; [|simpl in Hlen; lia].
    cbn [app dropWhiteSpace]. rewrite <- (app_nil_r p).
    now rewrite (dropWhiteSpace_blank_prefix p [] Hp). }
  destruct l as [|a [|b [|c l]]]; simpl in Hlen.
  - cbn [app dropWhiteSpace]. rewrite <- (app_nil_r p).
    now rewrite (dropWhiteSpace_blank_prefix p [] Hp).
  - cbn [app dropWhiteSpace]. destruct (ws1 a) eqn:Ea.
    + apply (IH [] ltac:(simpl; lia) Hp).
    + destruct Hp as [|x p Hx Hp]; [reflexivity|].
      rewrite (ws2_blank a x Hx).
      destruct Hp as [|y p Hy Hp]; [reflexivity|].
      now rewrite (ws3_blank a x y (or_introl Hx)).
  - cbn [app dropWhiteSpace]. destruct (ws1 a) eqn:Ea.
    + apply (IH [b] ltac:(simpl; lia) Hp).
    + destruct (ws2 a b) eqn:Eab.
      * apply (IH [] ltac:(simpl; lia) Hp).
      * destruct Hp as [|x p Hx Hp]; [reflexivity|].
        now rewrite (ws3_blank a b x (or_intror Hx)).
  - cbn [app dropWhiteSpace]. destruct (ws1 a) eqn:Ea.
    + apply (IH (b :: c :: l) ltac:(simpl; lia) Hp).
    + destruct (ws2 a b) eqn:Eab.
      * apply (IH (c :: l) ltac:(simpl; lia) Hp).
      * destruct (ws3 a b c) eqn:Eabc; [|reflexivity].
        apply (IH l ltac:(lia) Hp).
Qed.

(** Blanks around a text do not change what [trim] gives. *)
Lemma trimChars_blanks (p l q : list ascii) :
  Forall blank p -> Forall blank q -> trimChars (p ++ l ++ q)%list = trimChars l.
Proof.
  intros Hp Hq. unfold trimChars. f_equal.
  rewrite (dropWhiteSpace_blank_prefix p _ Hp).
  rewrite (dropWhiteSpace_blank_suffix _ l q (le_n _) Hq).
  destruct (dropWhiteSpace l) as [|x m]; [reflexivity|].
  change (x :: (m ++ q)%list) with ((x :: m) ++ q)%list.
  rewrite rev_app_distr. apply dropWhiteSpaceRev_blank_prefix.
  apply Forall_rev. exact Hq.
Qed.

Lemma trim_blanks (p s q : string) :
  blanks p -> blanks q -> trim (p +:+ s +:+ q) = trim s.
Proof.
  intros Hp Hq. unfold trim. now rewrite !chars_append, trimChars_blanks.
Qed.

Lemma sanitizeScoreAny_Prim (p : scalar) : sanitizeScoreAny (Prim p) = Ok (sanitizeScore p).
Proof.
  destruct p; try reflexivity; unfold sanitizeScoreAny, sanitizeScore;
    cbn [ToString bind];
    repeat match goal with |- context [if ?b then _ else _] => destruct b end; reflexivity.
Qed.

Lemma sanitizeScoreAny_text (val : value) (t : string) :
  val <> Prim Null -> val <> Prim Undefined -> ToString val = Ok t ->
  sanitizeScoreAny val = Ok (sanitizeScore (Str t)).
Proof.
  intros Hn Hu Ht. rewrite <- sanitizeScoreAny_Prim.
  assert (forall v, v <> Prim Null -> v <> Prim Undefined ->
            sanitizeScoreAny v
            = let* t := ToString v in
              let s := trim t in
              if String.eqb (toUpperCase s) "N/A" then Ok "N/A"
              else if String.eqb s "" then Ok ""
              else
                let n := StringToNumber s in
                if negb (isFinite n) then Ok ""
                else Ok (Number_toString (Math_min (ofZ 9) (Math_max (ofZ 1) (Math_round n)))))
    as H.
  { intros [[]| |] H1 H2; try reflexivity; congruence. }
  rewrite (H val Hn Hu), (H (Prim (Str t))) by discriminate.
  rewrite Ht. reflexivity.
Qed.

Lemma sanitizeScoreAny_throws (val : value) (e : exn) :
  val <> Prim Null -> val <> Prim Undefined -> ToString val = Throw e ->
  sanitizeScoreAny val = Throw e.
Proof.
  intros Hn Hu Ht.
  destruct val as [[]| |]; try congruence; try discriminate Ht;
    unfold sanitizeScoreAny; rewrite Ht; reflexivity.
Qed.

(** What the normaliser returns, when it returns, is a normalised score. *)
Lemma sanitizeScoreAny_range (val : value) (r : string) :
  sanitizeScoreAny val = Ok r -> In r normalizedScores.
Proof.
  intros H.
  assert (val = Prim Null \/ val = Prim Undefined
          \/ (val <> Prim Null /\ val <> Prim Undefined)) as Hv.
  { destruct val as [[]| |]; auto; right; right; split; discriminate. }
  destruct Hv as [-> | [-> | [Hn Hu]]].
  - injection H as <-. simpl; tauto.
  - injection H as <-. simpl; tauto.
  - destruct (ToString val) as [t|e] eqn:Ht.
    + rewrite (sanitizeScoreAny_text val t Hn Hu Ht) in H.
      assert (r = sanitizeScore (Str t)) as -> by congruence.
      apply sanitizeScore_range.
    + rewrite (sanitizeScoreAny_throws val e Hn Hu Ht) in H. discriminate H.
Qed.

(** C2, as amended.  The normaliser is total on the primitive values
    ([undefined], [null], booleans, numbers, texts: what a score control or
    a stored row hands it) and on every array and plain object whose
    conversion to a text does not throw, and what it returns is the empty
    text, [N/A] or a digit from [1] to [9].  [null] and [undefined] give
    the empty text; any other value is read through its text [t]
    ([String(val)]) trimmed to [s]: [n/a] in any case gives [N/A]; the
    empty [s] gives the empty text; an [s] that does not parse as a finite
    number gives the empty text; any other [s] gives the decimal numeral of
    the nearest integer clamped into [1, 9].  A text of blanks gives the
    empty text, and blanks around a text change nothing.  When the
    conversion of the value to a text throws, the normaliser throws that
    error. *)
Theorem sanitizeScore_any_input (val : value) :
  sanitizeScoreAny (Prim Null) = Ok "" /\ sanitizeScoreAny (Prim Undefined) = Ok ""
  /\ (forall p : scalar,
        sanitizeScoreAny (Prim p) = Ok (sanitizeScore p)
        /\ In (sanitizeScore p) normalizedScores)
  /\ (val <> Prim Null -> val <> Prim Undefined ->
      forall e, ToString val = Throw e -> sanitizeScoreAny val = Throw e)
  /\ (val <> Prim Null -> val <> Prim Undefined ->
      forall t, ToString val = Ok t ->
      let s := trim t in
      exists r,
        sanitizeScoreAny val = Ok r
        /\ In r normalizedScores
        /\ (notApplicable s -> r = "N/A")
        /\ (s = "" -> r = "")
        /\ (~ notApplicable s -> s <> "" -> isFinite (StringToNumber s) = false -> r = "")
        /\ (~ notApplicable s -> s <> "" -> forall q, StringToNumber s = Fin q ->
            exists z, nearestInteger q z /\ r = decimalZ (clamp z)))
  /\ (forall s, blanks s -> sanitizeScoreAny (Prim (Str s)) = Ok "")
  /\ (forall p s q, blanks p -> blanks q ->
        sanitizeScoreAny (Prim (Str (p +:+ s +:+ q))) = sanitizeScoreAny (Prim (Str s)))
  /\ sanitizeScoreAny (Prim (Str "15")) = Ok "9"
  /\ sanitizeScoreAny (Prim (Str "0")) = Ok "1"
  /\ sanitizeScoreAny (Prim (Str "n/a")) = Ok "N/A"
  /\ sanitizeScoreAny (Prim (Str "")) = Ok ""
  /\ sanitizeScoreAny (Prim (Str "   ")) = Ok ""
  /\ sanitizeScoreAny (Prim (Str "abc")) = Ok ""
  /\ sanitizeScoreAny (Prim (Str " 7 ")) = Ok "7"
  /\ sanitizeScoreAny (Prim (Str (noBreakSpace +:+ "4.5" +:+ ideographicSpace))) = Ok "5"
  /\ sanitizeScoreAny (Prim (Str "2.5")) = Ok "3"
  /\ sanitizeScoreAny (Prim (Str "8.49")) = Ok "8"
  /\ sanitizeScoreAny (Prim (Str "-0.5")) = Ok "1"
  /\ sanitizeScoreAny (Prim (Str "0x1F")) = Ok "9"
  /\ sanitizeScoreAny (Prim (Str "1e400")) = Ok ""
  /\ sanitizeScoreAny (Prim (Str "1 2")) = Ok ""
  /\ sanitizeScoreAny (Prim (Num (round64 (37 # 5)))) = Ok "7"
  /\ sanitizeScoreAny (Prim (Num (ofZ 0))) = Ok "1"
  /\ sanitizeScoreAny (Prim (Num NaN)) = Ok ""
  /\ sanitizeScoreAny (Prim (Num PInf)) = Ok ""
  /\ sanitizeScoreAny (Prim (Bool true)) = Ok ""
  /\ sanitizeScoreAny (Arr [Prim (Str " 7 ")]) = Ok "7"
  /\ sanitizeScoreAny (Arr [Prim (Num (ofZ 1)); Prim (Num (ofZ 2))]) = Ok ""
  /\ sanitizeScoreAny (Obj ∅) = Ok "".
Proof.
  split; [reflexivity|]. split; [reflexivity|].
  split; [intros p; split; [apply sanitizeScoreAny_Prim | apply sanitizeScore_range]|].
  split; [intros Hn Hu e; now apply sanitizeScoreAny_throws|].
  split.
  { intros Hn Hu t Ht s. exists (sanitizeScore (Str t)).
    split; [now apply sanitizeScoreAny_text|].
    split; [apply sanitizeScore_range|].
    apply (sanitizeScore_cases (Str t)); discriminate. }
  split.
  { intros s Hs. rewrite sanitizeScoreAny_Prim. f_equal.
    pose proof (sanitizeScore_cases (Str s) ltac:(discriminate) ltac:(discriminate)) as Hc.
    cbv zeta in Hc. destruct Hc as (_ & Hc & _). apply Hc.
    cbn [toStr]. unfold trim.
    pose proof (trimChars_blanks (chars s) [] [] Hs (List.Forall_nil _)) as H.
    rewrite !app_nil_r in H. now rewrite H. }
  split.
  { intros p s q Hp Hq. rewrite !sanitizeScoreAny_Prim. f_equal.
    unfold sanitizeScore. cbn [toStr]. now rewrite trim_blanks. }
  repeat split; vm_compute; reflexivity.
Qed.

(** C2, as stated, fails on "no input raises an error": on an object whose
    own [toString] cannot be called (and on an array that holds one)
    [String(val)] throws a [TypeError], and so does the normaliser. *)
Lemma sanitizeScore_throws_TypeError :
  ToString Sample.hidesToString = Throw cannotConvert
  /\ sanitizeScoreAny Sample.hidesToString = Throw cannotConvert
  /\ sanitizeScoreAny (Arr [Sample.hidesToString]) = Throw cannotConvert
  /\ errorToString cannotConvert = "TypeError: Cannot convert object to primitive value".
Proof. repeat split; vm_compute; reflexivity. Qed.

Lemma sanitizeScore_fixes (s : string) :
  In s normalizedScores -> sanitizeScore (Str s) = s.
Proof.
  intros Hin. simpl in Hin.
  repeat (destruct Hin as [<- | Hin]; [vm_compute; reflexivity|]). destruct Hin.
Qed.

(** The invariant of section 3: a normalised score is a fixed point, so
    normalising twice is normalising once. *)
Theorem sanitizeScore_idempotent (x : scalar) :
  sanitizeScore (Str (sanitizeScore x)) = sanitizeScore x.
Proof. apply sanitizeScore_fixes, sanitizeScore_range. Qed.

(** ** C7: the CSV escaper *)

Lemma testSpecial_spec (s : string) : testSpecial s = true <-> needsQuoting s.
Proof.
  unfold testSpecial, needsQuoting. rewrite existsb_exists. split.
  - intros (c & Hin & Hc).
    rewrite !orb_true_iff in Hc. rewrite !code_eqb in Hc by reflexivity.
    destruct Hc as [[-> | ->] | ->]; auto.
  - intros [H | [H | H]]; eexists; (split; [exact H | reflexivity]).
Qed.

Lemma replaceQuotes_spec (s : string) : replaceQuotes s = doubleQuotes s.
Proof.
  unfold doubleQuotes. induction s as [|c s IH]; [reflexivity|].
  cbn [replaceQuotes chars list_ascii_of_string flat_map].
  fold (chars s). unfold str in *. rewrite IH.
  destruct (Ascii.eqb_spec c quote) as [-> | Hne].
  - reflexivity.
  - assert ((code c =? 34)%N = false) as ->; [|reflexivity].
    apply not_true_iff_false. rewrite code_eqb by reflexivity. exact Hne.
Qed.

Lemma doubleQuotes_length (s : string) :
  String.length s <= String.length (doubleQuotes s).
Proof.
  unfold doubleQuotes. rewrite <- !length_chars, chars_str.
  induction (chars s) as [|c l IH]; simpl; [lia|].
  destruct (Ascii.eqb c quote); simpl; lia.
Qed.

Lemma quoted_longer (s : string) : quoted s <> s.
Proof.
  intros H. apply (f_equal String.length) in H.
  unfold quoted in H. rewrite <- !length_chars, !chars_append, !length_app in H.
  rewrite !length_chars in H. pose proof (doubleQuotes_length s). simpl in H. lia.
Qed.

Lemma csvEscape_fieldText (val : scalar) :
  csvEscape val = if testSpecial (fieldText val) then quoted (fieldText val) else fieldText val.
Proof.
  unfold csvEscape, quoted. rewrite replaceQuotes_spec.
  destruct val; reflexivity.
Qed.

(** C7.  For every field value, with [s] its text: [csvEscape] returns [s]
    between double quotes with every double quote of [s] doubled exactly
    when [s] contains a comma, a double quote or a line feed, and returns
    [s] itself exactly when it contains none.  The field made of [a,b],
    a double quote, [c], a line feed and [d] comes out between double
    quotes with its inner quote doubled; a plain field is unchanged. *)
Theorem csvEscape_quotes_iff_special (val : scalar) :
  let s := fieldText val in
  (needsQuoting s <-> csvEscape val = quoted s)
  /\ (~ needsQuoting s <-> csvEscape val = s)
  /\ csvEscape (Str ("a,b" +:+ dquote +:+ "c" +:+ newline +:+ "d"))
     = dquote +:+ "a,b" +:+ dquote +:+ dquote +:+ "c" +:+ newline +:+ "d" +:+ dquote
  /\ csvEscape (Str "Title tag") = "Title tag".
Proof.
  cbv zeta. split; [|split; [|split; reflexivity]].
  - rewrite csvEscape_fieldText, <- testSpecial_spec.
    pose proof (quoted_longer (fieldText val)) as Hq.
    destruct (testSpecial (fieldText val)); split; intros H; congruence.
  - rewrite csvEscape_fieldText, <- testSpecial_spec.
    pose proof (quoted_longer (fieldText val)) as Hq.
    destruct (testSpecial (fieldText val)); split; intros H; congruence.
Qed.

(** ** C9: one field of one row *)

Lemma onChangeField_lookup (id : scalar) (key : string) (value : scalar)
    (rows : list row) (i : nat) :
  onChangeField id key value rows !! i
  = (fun r => if strictEquals (get r "id") id then <[key := value]> r else r) <$> rows !! i.
Proof. unfold onChangeField. apply list_lookup_fmap. Qed.

(** C9.  For every dataset that is unique by id, [onChangeField id key value]
    keeps the length and the order of the rows; when the row at position
    [i] carries the id, the result is the dataset with that one row
    replaced by the row whose field [key] is [value] and whose every other
    field is as before; when no row carries the id, the result is the
    dataset itself. *)
Theorem onChangeField_frame (id : scalar) (key : string) (value : scalar)
    (rows : list row) :
  uniqueIds rows ->
  length (onChangeField id key value rows) = length rows
  /\ (forall (i : nat) (r : row),
        rows !! i = Some r -> hasId id r ->
        onChangeField id key value rows = <[i := <[key := value]> r]> rows
        /\ (<[key := value]> r) !! key = Some value
        /\ (forall k : string, k <> key -> (<[key := value]> r) !! k = r !! k))
  /\ ((forall r : row, In r rows -> ~ hasId id r) ->
      onChangeField id key value rows = rows).
Proof.
  intros Huniq. split; [|split].
  - unfold onChangeField. apply length_map.
  - intros i r Hi Hid. split; [|split].
    + apply list_eq. intros j. rewrite onChangeField_lookup.
      destruct (decide (i = j)) as [<-|Hne].
      * rewrite list_lookup_insert_eq by (eapply lookup_lt_Some; eauto).
        rewrite Hi. simpl. unfold hasId in Hid. now rewrite Hid.
      * rewrite list_lookup_insert_ne by exact Hne.
        destruct (rows !! j) as [r'|] eqn:Hj; [|reflexivity]. simpl.
        destruct (strictEquals (get r' "id") id) eqn:Hid'; [|reflexivity].
        exfalso. apply Hne. apply (Huniq i j r r' Hi Hj).
        apply strictEquals_trans with id; [exact Hid|].
        now rewrite strictEquals_sym.
    + apply lookup_insert_eq.
    + intros k Hk. now apply lookup_insert_ne.
  - intros Hnone. unfold onChangeField.
    rewrite <- (map_id rows) at 2. apply map_ext_in.
    intros r Hr. specialize (Hnone r Hr). unfold hasId in Hnone.
    now destruct (strictEquals (get r "id") id).
Qed.

(** The update of a score in a dataset of two rows. *)
Lemma onChangeField_frame_witness :
  uniqueIds [Sample.mkRow 1 "" "5"; Sample.mkRow 2 "3" "N/A"]
  /\ length (onChangeField (Num (ofZ 2)) "score" (Str "7")
               [Sample.mkRow 1 "" "5"; Sample.mkRow 2 "3" "N/A"]) = 2.
Proof.
  assert (uniqueIds [Sample.mkRow 1 "" "5"; Sample.mkRow 2 "3" "N/A"]) as H.
  { intros [|[|i]] [|[|j]] ri rj Hi Hj; simpl in Hi, Hj; try discriminate;
      try reflexivity; injection Hi as <-; injection Hj as <-;
      vm_compute; discriminate. }
  split; [exact H|].
  exact (proj1 (onChangeField_frame (Num (ofZ 2)) "score" (Str "7") _ H)).
Defined.

(** ** C6: what the checklist holds *)

Lemma get_withSeverity (r : row) (k : string) :
  k <> "severity" -> get (withSeverity r) k = get r k.
Proof.
  intros Hk. unfold get, withSeverity. rewrite lookup_insert_ne; [reflexivity|congruence].
Qed.

Lemma implementationRows_unfold (data : list row) :
  implementationRows data
  = Array_sort byPriorityThenSeverity
      (map withSeverity
         (List.filter (fun r => negb (strictEquals (get r "score") (Str "9"))) data)).
Proof.
  unfold implementationRows. f_equal. f_equal.
  apply List.filter_ext. intros r. apply andb_true_r.
Qed.

Lemma implementationRows_Permutation (data : list row) :
  Permutation (implementationRows data)
    (map withSeverity
       (List.filter (fun r => negb (strictEquals (get r "score") (Str "9"))) data)).
Proof. rewrite implementationRows_unfold. apply Array_sort_Permutation. Qed.

Lemma In_implementationRows (data : list row) (r' : row) :
  In r' (implementationRows data)
  <-> exists r, In r data /\ get r "score" <> Str "9" /\ r' = withSeverity r.
Proof.
  rewrite (Permutation_in' (eq_refl r') (implementationRows_Permutation data)).
  rewrite in_map_iff. split.
  - intros (r & <- & Hr). apply filter_In in Hr as [Hin Hk].
    exists r. repeat split; auto. intros H9.
    apply strictEquals_Str in H9. now rewrite H9 in Hk.
  - intros (r & Hin & H9 & ->). exists r. split; [reflexivity|].
    apply filter_In. split; [exact Hin|].
    apply negb_true_iff, not_true_iff_false. now rewrite strictEquals_Str.
Qed.

(** C6.  For every dataset, the checklist is a rearrangement of the rows
    whose score is not the text [9], each with its severity added: a row
    is in it exactly when it comes from a row of the dataset whose score is
    not [9]; no row with score [9] is in it, and rows with score [N/A] or
    the empty score are. *)
Theorem implementationRows_excludes_only_9 (data : list row) :
  Permutation (implementationRows data)
    (map withSeverity
       (List.filter (fun r => negb (strictEquals (get r "score") (Str "9"))) data))
  /\ (forall r' : row,
        In r' (implementationRows data)
        <-> exists r, In r data /\ get r "score" <> Str "9" /\ r' = withSeverity r)
  /\ (forall r' : row, In r' (implementationRows data) -> get r' "score" <> Str "9")
  /\ (forall r : row,
        In r data -> get r "score" = Str "N/A" \/ get r "score" = Str "" ->
        In (withSeverity r) (implementationRows data)).
Proof.
  split; [apply implementationRows_Permutation|].
  split; [apply In_implementationRows|]. split.
  - intros r' Hr'. apply In_implementationRows in Hr' as (r & _ & H9 & ->).
    now rewrite get_withSeverity.
  - intros r Hin Hs. apply In_implementationRows. exists r.
    repeat split; auto. destruct Hs as [-> | ->]; discriminate.
Qed.

(** ** The comparators on rows of the data model *)

Lemma effectivePriority_Number (r : row) :
  priorityOk (get r "priority") = true ->
  ToNumber (or (get r "priority") (Num (ofZ 999))) = ofZ (effectivePriority r)
  /\ (0 <= effectivePriority r < 10 ^ 15)%Z.
Proof.
  unfold effectivePriority, priorityOk, or, isDigits.
  destruct (get r "priority") as [| | | |s]; try discriminate.
  - intros _. split; [reflexivity|]. split; [lia|reflexivity].
  - intros H. apply andb_true_iff in H as [Hd Hl]. apply Nat.leb_le in Hl.
    cbn [ToBoolean]. destruct (String.eqb_spec s "") as [->|Hs]; cbn [negb].
    + split; [reflexivity|]. split; [lia|reflexivity].
    + cbn [ToNumber]. split; [now apply StringToNumber_digits|].
      pose proof (digitsValue_bound (chars s) Hd) as Hb. rewrite length_chars in Hb.
      assert (10 ^ Z.of_nat (String.length s) <= 10 ^ 15)%Z
        by (apply Z.pow_le_mono_r; lia).
      lia.
Qed.

Lemma inferSeverity_normalized (v : scalar) :
  scoreOk v = true ->
  exists s, v = Str s /\ inferSeverity v = ofZ (severity s) /\ (0 <= severity s <= 9)%Z.
Proof.
  unfold scoreOk. destruct v as [| | | |s]; try discriminate.
  intros H. exists s. split; [reflexivity|].
  apply existsb_exists in H as (t & Hin & Heq). apply String.eqb_eq in Heq. subst t.
  simpl in Hin.
  repeat (destruct Hin as [<- | Hin]; [split; [vm_compute; reflexivity | vm_compute; split; discriminate]|]).
  destruct Hin.
Qed.

Lemma isNegative_ofZ (z : Z) : isNegative (ofZ z) = (z <? 0)%Z.
Proof. reflexivity. Qed.

Lemma orNumber_ofZ (z : Z) (y : number) :
  orNumber (ofZ z) y = if (z =? 0)%Z then y else ofZ z.
Proof. unfold orNumber, ofZ, numberTruthy, inject_Z. cbn [Qnum]. now destruct (z =? 0)%Z. Qed.

Lemma projected_keys (r' : row) :
  projected r' ->
  ToNumber (or (get r' "priority") (Num (ofZ 999))) = ofZ (effectivePriority r')
  /\ (0 <= effectivePriority r' < 10 ^ 15)%Z
  /\ ToNumber (get r' "severity") = ofZ (severityOf r')
  /\ (0 <= severityOf r' <= 9)%Z.
Proof.
  intros (r & [Hp Hs] & ->).
  unfold effectivePriority, severityOf.
  rewrite (get_withSeverity r "priority"), (get_withSeverity r "score") by discriminate.
  destruct (effectivePriority_Number r Hp) as [H1 H2].
  destruct (inferSeverity_normalized _ Hs) as (s & Hs1 & Hs2 & Hs3).
  split; [exact H1|]. split; [exact H2|].
  unfold get at 1, withSeverity. rewrite lookup_insert_eq. cbn [default ToNumber].
  rewrite Hs1 in *. now split.
Qed.

Lemma before_checklist (a b : row) :
  projected a -> projected b ->
  before byPriorityThenSeverity a b = true
  <-> (effectivePriority a < effectivePriority b)%Z
      \/ (effectivePriority a = effectivePriority b /\ (severityOf b < severityOf a)%Z).
Proof.
  intros Ha Hb.
  destruct (projected_keys a Ha) as (Pa & Ba & Sa & Ca).
  destruct (projected_keys b Hb) as (Pb & Bb & Sb & Cb).
  unfold before, byPriorityThenSeverity. rewrite Pa, Pb, Sa, Sb.
  assert (10 ^ 15 < 2 ^ 53)%Z by reflexivity.
  rewrite !sub_ofZ by lia. rewrite orNumber_ofZ.
  destruct (Z.eqb_spec (effectivePriority a - effectivePriority b) 0);
    rewrite isNegative_ofZ, Z.ltb_lt; lia.
Qed.

Lemma before_severity (a b : row) :
  projected a -> projected b ->
  before bySeverity a b = true <-> (severityOf b < severityOf a)%Z.
Proof.
  intros Ha Hb.
  destruct (projected_keys a Ha) as (_ & _ & Sa & Ca).
  destruct (projected_keys b Hb) as (_ & _ & Sb & Cb).
  unfold before, bySeverity. rewrite Sa, Sb.
  rewrite sub_ofZ by (change (2 ^ 53)%Z with 9007199254740992%Z; lia).
  rewrite isNegative_ofZ, Z.ltb_lt. lia.
Qed.

(** ** The severity estimator *)

(** Section 4.2 and the examples of section 8: on a normalised score the
    estimator is 0 for the empty score and [N/A] and 10 minus the score
    otherwise. *)
Theorem inferSeverity_normalized_score (s : string) :
  (In s normalizedScores -> inferSeverity (Str s) = ofZ (severity s))
  /\ inferSeverity (Str "9") = ofZ 1
  /\ inferSeverity (Str "1") = ofZ 9
  /\ inferSeverity (Str "") = ofZ 0
  /\ inferSeverity (Str "N/A") = ofZ 0.
Proof.
  split; [|repeat split; vm_compute; reflexivity].
  intros Hin.
  assert (scoreOk (Str s) = true) as Hok.
  { apply existsb_exists. exists s. split; [exact Hin | apply String.eqb_refl]. }
  destruct (inferSeverity_normalized _ Hok) as (t & [= <-] & H & _). exact H.
Qed.

(** ** C1: the order of the checklist *)

Lemma StronglySorted_lookup {A : Type} (R : A -> A -> Prop) (l : list A) :
  StronglySorted R l ->
  forall (i j : nat) (a b : A), (i < j)%nat -> l !! i = Some a -> l !! j = Some b -> R a b.
Proof.
  induction 1 as [|x l Hs IH Hx]; intros i j a b Hij Hi Hj; [discriminate|].
  destruct j as [|j]; [lia|]. destruct i as [|i]; simpl in Hi, Hj.
  - injection Hi as <-. rewrite List.Forall_forall in Hx. apply Hx.
    apply list_elem_of_In. eapply list_elem_of_lookup_2; eauto.
  - apply (IH i j); auto. lia.
Qed.

Lemma projected_rows (data : list row) (p : row -> bool) :
  Forall wellFormed data -> Forall projected (map withSeverity (List.filter p data)).
Proof.
  intros H. rewrite List.Forall_forall in H |- *. intros r' Hr'.
  apply in_map_iff in Hr' as (r & <- & Hr). apply filter_In in Hr as [Hr _].
  exists r. split; [now apply H | reflexivity].
Qed.

Lemma implementationRows_projected (data : list row) :
  Forall wellFormed data -> Forall projected (implementationRows data).
Proof.
  intros H. rewrite implementationRows_unfold.
  apply (Array_sort_Forall _ projected). now apply projected_rows.
Qed.

Lemma implementationRows_sorted (data : list row) :
  Forall wellFormed data -> StronglySorted checklistOrder (implementationRows data).
Proof.
  intros Hwf. rewrite implementationRows_unfold.
  apply (Array_sort_sorted byPriorityThenSeverity projected checklistOrder).
  - intros x y Hx Hy Hb. apply not_true_iff_false in Hb.
    rewrite (before_checklist y x Hy Hx) in Hb. unfold checklistOrder. lia.
  - intros x y Hx Hy Hb. apply (before_checklist y x Hy Hx) in Hb.
    unfold checklistOrder. lia.
  - intros x y z _ _ _. unfold checklistOrder. lia.
  - now apply projected_rows.
Qed.

Lemma sameKeys_spec (a b : row) :
  sameKeys a b = true <-> checklistOrder a b /\ checklistOrder b a.
Proof.
  unfold sameKeys, checklistOrder. rewrite andb_true_iff, !Z.eqb_eq. lia.
Qed.

(** The checklist is the stable sort: any arrangement of the kept rows
    that is in the order of the checklist and keeps rows of equal keys in
    their order is the list [implementationRows] computes. *)
Lemma implementationRows_is_the_stable_sort (data l' : list row) :
  Forall wellFormed data ->
  let kept := map withSeverity
                (List.filter (fun r => negb (strictEquals (get r "score") (Str "9"))) data) in
  StronglySorted checklistOrder l' ->
  (forall z, List.filter (sameKeys z) l' = List.filter (sameKeys z) kept) ->
  l' = implementationRows data.
Proof.
  intros Hwf kept Hs Hf.
  apply (stable_sorted_unique checklistOrder sameKeys sameKeys_spec).
  - intros x. unfold checklistOrder. lia.
  - exact Hs.
  - now apply implementationRows_sorted.
  - intros z. rewrite Hf, implementationRows_unfold. symmetry.
    apply (Array_sort_filter byPriorityThenSeverity projected (sameKeys z)).
    + intros x y Hx Hy Hb Hzx Hzy. apply (before_checklist y x Hy Hx) in Hb.
      unfold sameKeys in *. rewrite andb_true_iff, !Z.eqb_eq in Hzx, Hzy. lia.
    + now apply projected_rows.
Qed.

(** C1, as amended.  For every dataset of rows of the data model, the
    checklist is in ascending order of effective priority, the numeral of
    the row or 999 when the row has none, and rows of equal effective
    priority are in descending order of severity.  So a row without
    priority comes after every row whose priority is below 999. *)
Theorem implementationRows_order (data : list row) :
  Forall wellFormed data ->
  StronglySorted checklistOrder (implementationRows data)
  /\ (forall (i j : nat) (a b : row),
        implementationRows data !! i = Some a ->
        implementationRows data !! j = Some b ->
        get a "priority" = Undefined \/ get a "priority" = Str "" ->
        (effectivePriority b < 999)%Z ->
        (j < i)%nat).
Proof.
  intros Hwf.
  pose proof (implementationRows_sorted data Hwf) as Hsorted.
  split; [exact Hsorted|].
  intros i j a b Hi Hj Ha Hb.
  assert (effectivePriority a = 999%Z) as Hpa.
  { unfold effectivePriority. destruct Ha as [-> | ->]; reflexivity. }
  destruct (Nat.lt_trichotomy i j) as [Hlt | [-> | Hgt]]; [| |exact Hgt].
  2:{ rewrite Hi in Hj. injection Hj as <-. lia. }
  pose proof (StronglySorted_lookup _ _ Hsorted i j a b Hlt Hi Hj) as Hord.
  unfold checklistOrder in Hord. lia.
Qed.

(** The order of the checklist of the sample dataset. *)
Lemma implementationRows_order_witness :
  Forall wellFormed Sample.audit
  /\ StronglySorted checklistOrder (implementationRows Sample.audit).
Proof.
  assert (Forall wellFormed Sample.audit) as H by (repeat constructor).
  split; [exact H|].
  exact (proj1 (implementationRows_order Sample.audit H)).
Defined.

(** C1, as stated, fails: the row without priority comes before the row
    whose priority is 1000. *)
Lemma implementationRows_unset_before_1000 :
  map (fun r => (get r "id", get r "priority"))
    (implementationRows Sample.unsetThenThousand)
  = [(Num (ofZ 1), Str ""); (Num (ofZ 2), Str "1000")].
Proof. vm_compute. reflexivity. Qed.

(** Why the data model bounds the numeral: two numerals of sixteen digits
    can name the same Number; their rows then tie on priority, and the
    severity decides. *)
Example byPriorityThenSeverity_beyond_2_53 :
  byPriorityThenSeverity
    (withSeverity (Sample.mkRow 1 "9007199254740993" "1"))
    (withSeverity (Sample.mkRow 2 "9007199254740992" "5"))
  = ofZ (-4).
Proof. vm_compute. reflexivity. Qed.

(** ** C8: the ranking *)

Lemma decimalZ_nonempty (z : Z) : decimalZ z <> "".
Proof.
  unfold decimalZ, NilZero.string_of_uint.
  destruct (N.to_uint (Z.to_N z)); simpl; discriminate.
Qed.

Lemma idOk_strictEquals (a b : scalar) :
  idOk a = true -> idOk b = true -> strictEquals a b = true <-> a = b.
Proof.
  unfold idOk. destruct a as [| | |[| | |[n1 d1]]|], b as [| | |[| | |[n2 d2]]|];
    try discriminate. cbn [Qden]. intros H1 H2.
  apply Z.eqb_eq in H1, H2. injection H1 as ->. injection H2 as ->.
  cbn [strictEquals number_eqb]. unfold Qeq_bool. cbn [Qnum Qden].
  rewrite Z.eqb_eq, !Z.mul_1_r. split; [now intros -> | now intros [= ->]].
Qed.

Lemma get_rankedEntry_id (n : nat) (r : row) : get (rankedEntry n r) "id" = get r "id".
Proof.
  unfold get, rankedEntry. rewrite lookup_insert_ne by discriminate.
  now rewrite lookup_insert_eq.
Qed.

Lemma get_rankedEntry_priority (n : nat) (r : row) :
  (Z.of_nat n + 1 <= 2 ^ 53)%Z ->
  get (rankedEntry n r) "priority" = Str (decimalZ (Z.of_nat n + 1)).
Proof.
  intros Hn. unfold get, rankedEntry. rewrite lookup_insert_eq. cbn [default toStr].
  now rewrite Number_toString_ofZ by lia.
Qed.

Lemma find_rankedEntry (r : row) (l : list row) :
  Forall integerId l -> integerId r -> NoDup (ids l) ->
  forall (k i : nat) (x : row),
    l !! i = Some x -> get x "id" = get r "id" ->
    Array_find (fun e => strictEquals (get e "id") (get r "id"))
      (imap (fun j y => rankedEntry (k + j) y) l)
    = Some (rankedEntry (k + i) x).
Proof.
  intros Hl Hr. induction l as [|y l IH]; intros Hnd k i x Hi Hx; [discriminate|].
  inversion Hl as [|? ? Hy Hl']; subst. inversion Hnd as [|? ? Hnotin Hnd']; subst.
  cbn [imap Array_find]. rewrite get_rankedEntry_id.
  destruct i as [|i]; simpl in Hi.
  - injection Hi as ->. rewrite Hx.
    assert (strictEquals (get r "id") (get r "id") = true) as ->
      by now apply idOk_strictEquals.
    reflexivity.
  - assert (strictEquals (get y "id") (get r "id") = false) as ->.
    { apply not_true_iff_false. rewrite idOk_strictEquals by assumption.
      intros Heq. apply Hnotin. rewrite Heq, <- Hx.
      apply list_elem_of_In, (in_map (fun z : row => get z "id")), list_elem_of_In.
      eapply list_elem_of_lookup_2; eauto. }
    rewrite (imap_ext _ (fun j z => rankedEntry (S k + j) z)).
    2:{ intros j z _. simpl. f_equal. lia. }
    rewrite (IH Hl' Hnd' (S k) i x Hi Hx). f_equal. f_equal. lia.
Qed.

Lemma find_rankedEntry_none (r : row) (l : list row) (k : nat) :
  Forall integerId l -> integerId r ->
  (forall x, In x l -> get x "id" <> get r "id") ->
  Array_find (fun e => strictEquals (get e "id") (get r "id"))
    (imap (fun j y => rankedEntry (k + j) y) l) = None.
Proof.
  intros Hl Hr. revert k. induction l as [|y l IH]; intros k Hno; [reflexivity|].
  inversion Hl as [|? ? Hy Hl']; subst.
  cbn [imap Array_find]. rewrite get_rankedEntry_id.
  assert (strictEquals (get y "id") (get r "id") = false) as ->.
  { apply not_true_iff_false. rewrite idOk_strictEquals by assumption.
    apply Hno. now left. }
  rewrite (imap_ext _ (fun j z => rankedEntry (S k + j) z)).
  2:{ intros j z _. simpl. f_equal. lia. }
  apply IH; auto. intros x Hx. apply Hno. now right.
Qed.

Lemma ranked_unfold (data : list row) :
  ranked data
  = imap (fun j y => rankedEntry (0 + j) y) (Array_sort bySeverity (implementationRows data)).
Proof. reflexivity. Qed.

Lemma ids_injective (l : list row) (a b : row) :
  NoDup (ids l) -> In a l -> In b l -> get a "id" = get b "id" -> a = b.
Proof.
  unfold ids. induction l as [|x l IH]; intros Hnd Ha Hb Hf; [destruct Ha|].
  inversion Hnd as [|? ? Hx Hnd']; subst.
  destruct Ha as [-> | Ha], Hb as [-> | Hb]; auto.
  - exfalso. apply Hx. rewrite Hf.
    now apply list_elem_of_In, (in_map (fun r : row => get r "id")).
  - exfalso. apply Hx. rewrite <- Hf.
    now apply list_elem_of_In, (in_map (fun r : row => get r "id")).
Qed.

Lemma ids_filter (keep : row -> bool) (l : list row) :
  NoDup (ids l) -> NoDup (ids (List.filter keep l)).
Proof.
  unfold ids. induction l as [|x l IH]; intros Hnd; [constructor|].
  inversion Hnd as [|? ? Hx Hnd']; subst. simpl.
  destruct (keep x); [|now apply IH]. simpl. constructor; [|now apply IH].
  intros Hin. apply Hx. apply list_elem_of_In, in_map_iff in Hin as (y & Hy & Hin).
  apply filter_In in Hin as [Hin _]. rewrite <- Hy.
  now apply list_elem_of_In, (in_map (fun r : row => get r "id")).
Qed.

Lemma before_severity_apart (s : Z) (x y : row) :
  projected x -> projected y -> before bySeverity y x = true ->
  hasSeverity s x = true -> hasSeverity s y = true -> False.
Proof.
  intros Hx Hy Hb Hsx Hsy. apply (before_severity y x Hy Hx) in Hb.
  unfold hasSeverity in *. apply Z.eqb_eq in Hsx, Hsy. lia.
Qed.

Section Ranking.

Variable data : list row.
Hypothesis data_wellFormed : Forall wellFormed data.
Hypothesis data_integerId : Forall integerId data.
Hypothesis data_unique : NoDup (ids data).

Local Abbreviation ranking := (Array_sort bySeverity (implementationRows data)).

Lemma ranking_In (x : row) :
  In x ranking <-> exists r, In r data /\ get r "score" <> Str "9" /\ x = withSeverity r.
Proof.
  rewrite <- In_implementationRows.
  split; apply Permutation_in; [|symmetry]; apply Array_sort_Permutation.
Qed.

Lemma ranking_integerId : Forall integerId ranking.
Proof.
  apply List.Forall_forall. intros x Hx. apply ranking_In in Hx as (r & Hr & _ & ->).
  unfold integerId. rewrite get_withSeverity by discriminate.
  rewrite List.Forall_forall in data_integerId. now apply data_integerId.
Qed.

Lemma ranking_unique : NoDup (ids ranking).
Proof.
  assert (Permutation (ids ranking)
            (ids (List.filter (fun r => negb (strictEquals (get r "score") (Str "9"))) data)))
    as Hperm.
  { unfold ids. rewrite (Permutation_map _ (Array_sort_Permutation bySeverity _)).
    rewrite (Permutation_map _ (implementationRows_Permutation data)).
    rewrite map_map. erewrite map_ext; [reflexivity|].
    intros r. now apply get_withSeverity. }
  rewrite Hperm. now apply ids_filter.
Qed.

Lemma ranking_length : (length ranking <= length data)%nat.
Proof.
  rewrite (Permutation_length (Array_sort_Permutation bySeverity _)).
  rewrite (Permutation_length (implementationRows_Permutation data)).
  rewrite length_map. apply List.filter_length_le.
Qed.

Lemma autoPrioritize_lookup (j : nat) (r : row) :
  data !! j = Some r ->
  autoPrioritize data !! j
  = Some (<["priority" := or (rankedPriority (ranked data) r) (get r "priority")]> r).
Proof.
  intros Hj. unfold autoPrioritize.
  rewrite (list_lookup_fmap
             (fun r => <["priority" := or (rankedPriority (ranked data) r) (get r "priority")]> r)).
  now rewrite Hj.
Qed.

Lemma ranked_row (j i : nat) (r : row) :
  (Z.of_nat (length data) < 2 ^ 32)%Z ->
  data !! j = Some r -> ranking !! i = Some (withSeverity r) ->
  autoPrioritize data !! j = Some (<["priority" := Str (decimalZ (Z.of_nat i + 1))]> r).
Proof.
  intros Hlen Hj Hi. rewrite (autoPrioritize_lookup j r Hj). do 2 f_equal.
  assert (integerId r) as Hr.
  { rewrite List.Forall_forall in data_integerId. apply data_integerId.
    apply list_elem_of_In. eapply list_elem_of_lookup_2; eauto. }
  unfold rankedPriority. rewrite ranked_unfold.
  rewrite (find_rankedEntry r ranking ranking_integerId Hr ranking_unique 0 i
             (withSeverity r) Hi (get_withSeverity r "id" ltac:(discriminate))).
  cbn [Nat.add].
  assert (i < length ranking)%nat as Hlt by (eapply lookup_lt_Some; eauto).
  pose proof ranking_length. assert (2 ^ 32 < 2 ^ 53)%Z by reflexivity.
  rewrite get_rankedEntry_priority by lia.
  unfold or. cbn [ToBoolean].
  destruct (String.eqb_spec (decimalZ (Z.of_nat i + 1)) "") as [He|_]; [|reflexivity].
  now apply decimalZ_nonempty in He.
Qed.

Lemma unranked_row (j : nat) (r : row) :
  data !! j = Some r -> get r "score" = Str "9" ->
  autoPrioritize data !! j = Some (<["priority" := get r "priority"]> r).
Proof.
  intros Hj H9. rewrite (autoPrioritize_lookup j r Hj). do 2 f_equal.
  assert (In r data) as Hin by (apply list_elem_of_In; eapply list_elem_of_lookup_2; eauto).
  assert (integerId r) as Hr.
  { rewrite List.Forall_forall in data_integerId. now apply data_integerId. }
  unfold rankedPriority. rewrite ranked_unfold.
  rewrite (find_rankedEntry_none r ranking 0 ranking_integerId Hr); [reflexivity|].
  intros x Hx Heq. apply ranking_In in Hx as (r2 & Hr2 & Hs2 & ->).
  rewrite get_withSeverity in Heq by discriminate.
  assert (r2 = r) as -> by (eapply ids_injective; eauto).
  contradiction.
Qed.

End Ranking.

(** C8, as amended.  For every dataset of rows of the data model, unique by
    integer id and of a length an array can have: the ranking is the
    checklist rearranged in descending order of severity, rows of equal
    severity keeping the order they have in the checklist (which is by
    ascending priority, not the order of the dataset); the row at rank [i]
    (from 0) receives the priority [i+1] as a decimal numeral, so the first,
    of highest severity, receives 1 and the others the following integers;
    nothing else of a row changes, and a row with score 9 keeps its
    priority. *)
Theorem autoPrioritize_ranking (data : list row) :
  Forall wellFormed data -> Forall integerId data ->
  NoDup (ids data) ->
  (Z.of_nat (length data) < 2 ^ 32)%Z ->
  let ranking := Array_sort bySeverity (implementationRows data) in
  Permutation ranking (implementationRows data)
  /\ StronglySorted severityOrder ranking
  /\ (forall x y : row,
        ranking !! 0%nat = Some x -> In y ranking -> (severityOf y <= severityOf x)%Z)
  /\ (forall s : Z,
        List.filter (hasSeverity s) ranking
        = List.filter (hasSeverity s) (implementationRows data))
  /\ length (autoPrioritize data) = length data
  /\ (forall (j : nat) (r : row),
        data !! j = Some r -> get r "score" <> Str "9" ->
        exists i : nat,
          ranking !! i = Some (withSeverity r)
          /\ autoPrioritize data !! j
             = Some (<["priority" := Str (decimalZ (Z.of_nat i + 1))]> r))
  /\ (forall (j : nat) (r : row),
        data !! j = Some r -> get r "score" = Str "9" ->
        autoPrioritize data !! j = Some (<["priority" := get r "priority"]> r)).
Proof.
  intros Hwf Hid Hnd Hlen ranking.
  pose proof (implementationRows_projected data Hwf) as Hproj.
  split; [apply Array_sort_Permutation|].
  assert (StronglySorted severityOrder ranking) as Hsorted.
  { apply (Array_sort_sorted bySeverity projected severityOrder); [| | |exact Hproj].
    - intros x y Hx Hy Hb. apply not_true_iff_false in Hb.
      rewrite (before_severity y x Hy Hx) in Hb. unfold severityOrder. lia.
    - intros x y Hx Hy Hb. apply (before_severity y x Hy Hx) in Hb.
      unfold severityOrder. lia.
    - intros x y z _ _ _. unfold severityOrder. lia. }
  split; [exact Hsorted|].
  split.
  { intros x y H0 Hy. apply list_elem_of_In, list_elem_of_lookup_1 in Hy as [k Hk].
    destruct k as [|k]; [rewrite H0 in Hk; injection Hk as <-; lia|].
    apply (StronglySorted_lookup _ _ Hsorted 0%nat (S k) x y); [lia|exact H0|exact Hk]. }
  split.
  { intros s. apply (Array_sort_filter bySeverity projected (hasSeverity s)); [|exact Hproj].
    intros x y. apply before_severity_apart. }
  split; [unfold autoPrioritize; apply length_map|].
  split.
  - intros j r Hj H9.
    assert (In (withSeverity r) ranking) as Hin.
    { apply ranking_In. exists r. repeat split; auto.
      apply list_elem_of_In. eapply list_elem_of_lookup_2; eauto. }
    apply list_elem_of_In, list_elem_of_lookup_1 in Hin as [i Hi].
    exists i. split; [exact Hi|]. now apply ranked_row.
  - intros j r Hj H9. now apply unranked_row.
Qed.

(** The ranking of the sample dataset. *)
Lemma autoPrioritize_ranking_witness :
  (Forall wellFormed Sample.audit
   /\ Forall integerId Sample.audit
   /\ NoDup (ids Sample.audit)
   /\ (Z.of_nat (length Sample.audit) < 2 ^ 32)%Z)
  /\ length (autoPrioritize Sample.audit) = length Sample.audit.
Proof.
  assert (Forall wellFormed Sample.audit) as H1 by (repeat constructor).
  assert (Forall integerId Sample.audit) as H2 by (repeat constructor).
  assert (NoDup (ids Sample.audit)) as H3.
  { unfold ids. repeat (constructor;
            [intros Hin; apply list_elem_of_In in Hin; simpl in Hin;
             repeat (destruct Hin as [Hin|Hin]; [vm_compute in Hin; discriminate Hin|]);
             exact Hin|]).
    constructor. }
  assert (Z.of_nat (length Sample.audit) < 2 ^ 32)%Z as H4 by reflexivity.
  split; [exact (conj H1 (conj H2 (conj H3 H4)))|].
  exact (proj1 (proj2 (proj2 (proj2 (proj2
           (autoPrioritize_ranking Sample.audit H1 H2 H3 H4)))))).
Defined.

(** C8, as stated, fails: of two rows of equal severity, the second of the
    dataset receives priority 1, because its current priority put it first
    in the checklist. *)
Lemma autoPrioritize_tie_by_checklist :
  map (fun r => inferSeverity (get r "score")) Sample.tiedRows = [ofZ 5; ofZ 5]
  /\ map (fun r => (get r "id", get r "priority")) Sample.tiedRows
     = [(Num (ofZ 1), Str "7"); (Num (ofZ 2), Str "3")]
  /\ map (fun r => (get r "id", get r "priority")) (autoPrioritize Sample.tiedRows)
     = [(Num (ofZ 1), Str "2"); (Num (ofZ 2), Str "1")].
Proof. repeat split; vm_compute; reflexivity. Qed.

(** ** C10: the extractor *)

Lemma nonEmptyString_nonempty (v : value) (s : string) :
  nonEmptyString v = Some s -> s <> "".
Proof.
  unfold nonEmptyString. destruct v as [[| | | |t]| |]; try discriminate.
  destruct (String.eqb_spec t ""); congruence.
Qed.

Lemma append_inv_head (p a b : string) : p +:+ a = p +:+ b -> a = b.
Proof.
  intros H. apply (f_equal chars) in H. rewrite !chars_append in H.
  apply app_inv_head in H. rewrite <- (str_chars a), <- (str_chars b). now f_equal.
Qed.

(** The extractor, by the conversions it runs and the texts it finds. *)
Lemma extractText_cases (data : value) :
  extractText data
  = match joinedParts data with
    | Throw e => onlyExplain ("Parser error: " +:+ errorToString e)
    | Ok joined =>
        if String.eqb joined "" then
          match fallbackText data with
          | Some s => onlyText s
          | None =>
              match reasonText data with
              | Ok reason => onlyExplain ("No text in response. finishReason=" +:+ reason)
              | Throw e => onlyExplain ("Parser error: " +:+ errorToString e)
              end
          end
        else onlyText joined
    end.
Proof.
  unfold extractText, joinedParts, fallbackText, reasonText, upstreamReason, firstParts.
  set (c := getIndex0 (getProp data "candidates")).
  destruct (match getProp (getProp c "content") "parts" with
            | Arr ps => Array_join "" (List.filter truthy (map (fun p => getProp p "text") ps))
            | _ => Ok ""
            end) as [joined|e]; cbn [bind try_catch]; [|reflexivity].
  destruct (String.eqb joined ""); cbn [negb]; [|reflexivity].
  destruct (nonEmptyString (getProp c "output_text")); [reflexivity|].
  destruct (nonEmptyString (getProp data "text")); [reflexivity|].
  destruct (ToString _); reflexivity.
Qed.

Lemma fallbackText_nonempty (data : value) (t : string) :
  fallbackText data = Some t -> t <> "".
Proof.
  unfold fallbackText.
  destruct (nonEmptyString (getProp _ "output_text")) as [s|] eqn:H1.
  - intros [= <-]. exact (nonEmptyString_nonempty _ _ H1).
  - apply nonEmptyString_nonempty.
Qed.

Lemma reasonText_unknown (data : value) (reason : string) :
  reasonText data = Ok reason ->
  upstreamReason data = Prim Undefined \/ upstreamReason data = Prim Null ->
  reason = "unknown".
Proof.
  unfold reasonText. intros H [E | E]; rewrite E in H; simpl in H; congruence.
Qed.

(** C10, as amended.  For every input, [extractText] returns (it is a
    total function: the [try] catches what the conversions throw), and its
    result holds exactly one of its two fields, decided as follows.  When
    the part texts of the first candidate join to a non-empty text, that
    text is the [text]; else when the candidate's [output_text] or the
    answer's [text] is a non-empty text, that one is.  When no text is
    found and no conversion throws, the diagnostic is
    [No text in response. finishReason=] followed by the upstream finish or
    block reason, [unknown] when there is none.  When joining the part
    texts throws, or no text is found and converting the reason throws,
    the diagnostic is [Parser error: ] followed by the error thrown; and
    that diagnostic is returned in no other case. *)
Theorem extractText_text_or_diagnostic (data : value) :
  (forall t, joinedParts data = Ok t -> t <> "" -> extractText data = onlyText t)
  /\ (forall t, joinedParts data = Ok "" -> fallbackText data = Some t ->
        t <> "" /\ extractText data = onlyText t)
  /\ (forall reason,
        joinedParts data = Ok "" -> fallbackText data = None ->
        reasonText data = Ok reason ->
        extractText data = onlyExplain ("No text in response. finishReason=" +:+ reason)
        /\ (upstreamReason data = Prim Undefined \/ upstreamReason data = Prim Null ->
            reason = "unknown"))
  /\ (forall e,
        joinedParts data = Throw e
        \/ (joinedParts data = Ok "" /\ fallbackText data = None
            /\ reasonText data = Throw e) ->
        extractText data = onlyExplain ("Parser error: " +:+ errorToString e))
  /\ (forall s,
        extractText data = onlyExplain ("Parser error: " +:+ s) ->
        exists e, s = errorToString e
                  /\ (joinedParts data = Throw e \/ reasonText data = Throw e))
  /\ ((exists t, t <> "" /\ extractText data = onlyText t)
      \/ (exists reason,
            reasonText data = Ok reason
            /\ (upstreamReason data = Prim Undefined \/ upstreamReason data = Prim Null ->
                reason = "unknown")
            /\ extractText data
               = onlyExplain ("No text in response. finishReason=" +:+ reason))
      \/ (exists e,
            (joinedParts data = Throw e \/ reasonText data = Throw e)
            /\ extractText data = onlyExplain ("Parser error: " +:+ errorToString e))).
Proof.
  rewrite (extractText_cases data).
  destruct (joinedParts data) as [joined|e1].
  2:{ split_and!; try (intros; discriminate).
      - intros e [[= <-] | (H & _)]; [reflexivity | discriminate H].
      - intros s [= H]. apply append_inv_head in H. eauto.
      - right; right. eauto. }
  destruct (String.eqb_spec joined "") as [-> | Hj].
  2:{ split_and!; try (intros; congruence).
      - intros e [H | (H & _)]; [discriminate H | congruence].
      - intros s H. discriminate H.
      - left. eauto. }
  destruct (fallbackText data) as [t|] eqn:Hf.
  { pose proof (fallbackText_nonempty data t Hf) as Ht.
    split_and!; try (intros; congruence).
    - intros t' _ [= <-]. split; [exact Ht | reflexivity].
    - intros e [H | (_ & H & _)]; discriminate H.
    - intros s H. discriminate H.
    - left. eauto. }
  destruct (reasonText data) as [reason|e2] eqn:Hr.
  - split_and!; try (intros; congruence).
    + intros r _ _ [= <-]. split; [reflexivity | now apply (reasonText_unknown data)].
    + intros e [H | (_ & _ & H)]; discriminate H.
    + intros s H. discriminate H.
    + right; left. exists reason. split_and!; auto. now apply (reasonText_unknown data).
  - split_and!; try (intros; congruence).
    + intros e [H | (_ & _ & [= <-])]; [discriminate H | reflexivity].
    + intros s [= H]. apply append_inv_head in H. eauto.
    + right; right. eauto.
Qed.

(** C10, as stated, fails on the diagnostic: when the upstream finish
    reason is an object that hides [toString], converting it throws, and
    the diagnostic is the parser error, which names neither the reason nor
    [unknown]. *)
Lemma extractText_parser_error :
  upstreamReason Sample.badReasonAnswer = Obj {[ "toString" := Prim Null ]}
  /\ extractText Sample.badReasonAnswer
     = onlyExplain "Parser error: TypeError: Cannot convert object to primitive value"
  /\ occursIn "finishReason"
       "Parser error: TypeError: Cannot convert object to primitive value" = false
  /\ occursIn "unknown"
       "Parser error: TypeError: Cannot convert object to primitive value" = false.
Proof. repeat split; vm_compute; reflexivity. Qed.

(** ** The recommendation proxy *)

Lemma NextResponse_json_carries (s : string) (st : Z) :
  carriesRecommendation (NextResponse_json s st) s.
Proof.
  eexists. split; [reflexivity|]. apply lookup_singleton_eq.
Qed.

Lemma missing_spec (e : env) : missing (API_KEY e) = true <-> credentialAbsent e.
Proof.
  unfold credentialAbsent, unset, API_KEY, orEnv, missing.
  destruct (GOOGLE_GENAI_API_KEY e) as [a|], (NEXT_PUBLIC_GOOGLE_GENAI_API_KEY e) as [b|];
    try destruct (String.eqb_spec a ""); try destruct (String.eqb_spec b "");
    subst; simpl; try rewrite String.eqb_eq; try rewrite String.eqb_neq;
    split; intros; try congruence; try tauto; intuition (try congruence; auto).
Qed.

Section ProxyProperties.

Variable process_env : env.
Variable fetch : fetch_request -> result fetch_response.
Variable JSON_parse : string -> result value.

Local Abbreviation attempt := (attempt process_env fetch JSON_parse).
Local Abbreviation await_fetch := (await_fetch fetch).
Local Abbreviation POST := (POST process_env fetch JSON_parse).

(** Whatever the [try] block returns was built by [NextResponse.json]. *)
Lemma attempt_json (key : string) (req : request) (r : response) :
  snd (attempt key req []) = Ok r ->
  exists s st, r = NextResponse_json s st /\ (st = 200 \/ st = 500)%Z.
Proof.
  unfold Route.attempt, bindIO, lift, ret, await_fetch, bind.
  repeat (case_match; simpl in *; simplify_eq; try discriminate);
    intros [= <-]; eauto.
Qed.

Lemma POST_json (req : request) :
  exists s st, snd (POST req) = NextResponse_json s st /\ (st = 200 \/ st = 500)%Z.
Proof.
  unfold Route.POST.
  destruct (API_KEY process_env) as [key|]; [|simpl; eauto].
  destruct (String.eqb key ""); [simpl; eauto|].
  pose proof (attempt_json key req) as H.
  destruct (attempt key req []) as [calls [r|e]]; simpl in *; eauto.
Qed.

(** C4.  Whatever the environment, the request, the answer of [fetch] and
    the outcome of [JSON.parse] (so on success, missing credential,
    upstream HTTP error, no extractable text and any thrown exception
    alike), the body of the response is an object whose [recommendation]
    field is a text, and the status is 200 or 500. *)
Theorem POST_always_carries_recommendation (req : request) :
  exists s : string,
    carriesRecommendation (snd (POST req)) s
    /\ (status (snd (POST req)) = 200 \/ status (snd (POST req)) = 500)%Z.
Proof.
  destruct (POST_json req) as (s & st & -> & Hst).
  exists s. split; [apply NextResponse_json_carries | exact Hst].
Qed.

(** C5.  While the credential is absent, every request is answered with
    status 500 and the message that names [GOOGLE_GENAI_API_KEY], and no
    call of [fetch] is issued. *)
Theorem POST_missing_credential (req : request) :
  credentialAbsent process_env ->
  fst (POST req) = []
  /\ status (snd (POST req)) = 500%Z
  /\ carriesRecommendation (snd (POST req)) "Server is missing GOOGLE_GENAI_API_KEY."
  /\ occursIn "GOOGLE_GENAI_API_KEY" "Server is missing GOOGLE_GENAI_API_KEY." = true.
Proof.
  intros Habs. apply missing_spec in Habs.
  assert (POST req = ([], NextResponse_json missingKeyMessage 500)) as ->.
  { unfold Route.POST, missing in *.
    destruct (API_KEY process_env) as [key|]; [|reflexivity].
    now rewrite Habs. }
  repeat split. apply NextResponse_json_carries.
Qed.

(** C3, as amended.  A request whose [score] is exactly the text [9] never
    reaches [fetch].  When moreover the credential is present and the
    [element] converts to the text [el] (as every text does), the answer is
    status 200 with the fixed sentence that quotes [el]. *)
Theorem POST_score9_short_circuit (req : request) (fields : gmap string value) :
  json req = Ok (Obj fields) ->
  fields !! "score" = Some (Prim (Str "9")) ->
  fst (POST req) = []
  /\ (forall el : string,
        ~ credentialAbsent process_env ->
        ToString (field (Obj fields) "element") = Ok el ->
        status (snd (POST req)) = 200%Z
        /\ carriesRecommendation (snd (POST req))
             ("No action needed. “" +:+ el
              +:+ "” meets best practices. Maintain current implementation and monitor over time.")).
Proof.
  intros Hjson Hscore.
  assert (forall key, attempt key req [] =
            ([], let* el := ToString (field (Obj fields) "element") in
                 Ok (NextResponse_json (acknowledgment el) 200))) as Hatt.
  { intros key.
    assert (field (Obj fields) "score" = Prim (Str "9")) as Hfield
      by (unfold field; cbn [getProp]; now rewrite Hscore).
    unfold Route.attempt, bindIO, lift, ret. rewrite Hjson. cbn [bind destructure].
    rewrite Hfield. cbn.
    now destruct (ToString (field (Obj fields) "element")). }
  split.
  - unfold Route.POST. destruct (API_KEY process_env) as [key|]; [|reflexivity].
    destruct (String.eqb key ""); [reflexivity|]. now rewrite Hatt.
  - intros el Hkey Hel. rewrite <- missing_spec in Hkey.
    unfold Route.POST, missing in *.
    destruct (API_KEY process_env) as [key|]; [|congruence].
    destruct (String.eqb key ""); [congruence|].
    rewrite Hatt, Hel. cbn. split; [reflexivity|].
    apply NextResponse_json_carries.
Qed.

Lemma attempt_calls (key : string) (req : request) :
  (length (fst (attempt key req [])) <= 1)%nat.
Proof.
  unfold Route.attempt, bindIO, lift, ret, await_fetch.
  repeat (case_match; simpl in *; simplify_eq; try lia).
Qed.

(** Section 5: one invocation issues at most one call of [fetch]. *)
Theorem POST_at_most_one_call (req : request) : (length (fst (POST req)) <= 1)%nat.
Proof.
  unfold Route.POST.
  destruct (API_KEY process_env) as [key|]; [|simpl; lia].
  destruct (String.eqb key ""); [simpl; lia|].
  pose proof (attempt_calls key req) as H.
  destruct (attempt key req []) as [calls r]. exact H.
Qed.

End ProxyProperties.

(** The theorem on the missing credential, at the environment without
    keys. *)
Lemma POST_missing_credential_witness :
  credentialAbsent Sample.noKeys
  /\ fst (POST Sample.noKeys Sample.upstreamEmpty Sample.parseEmpty Sample.score9Request) = []
  /\ status (snd (POST Sample.noKeys Sample.upstreamEmpty Sample.parseEmpty Sample.score9Request))
     = 500%Z.
Proof.
  assert (credentialAbsent Sample.noKeys) as H by (split; left; reflexivity).
  split; [exact H|].
  pose proof (POST_missing_credential Sample.noKeys Sample.upstreamEmpty Sample.parseEmpty
                Sample.score9Request H) as (H1 & H2 & _).
  exact (conj H1 H2).
Defined.

(** The short circuit, at the request for the Title tag. *)
Lemma POST_score9_short_circuit_witness :
  json Sample.score9Request = Ok (Obj Sample.titleFields)
  /\ Sample.titleFields !! "score" = Some (Prim (Str "9"))
  /\ fst (POST Sample.withKey Sample.upstreamEmpty Sample.parseEmpty Sample.score9Request) = [].
Proof.
  assert (Sample.titleFields !! "score" = Some (Prim (Str "9"))) as H by reflexivity.
  split; [reflexivity|]. split; [exact H|].
  exact (proj1 (POST_score9_short_circuit Sample.withKey Sample.upstreamEmpty Sample.parseEmpty
                  Sample.score9Request Sample.titleFields eq_refl H)).
Defined.

(** The outcomes of section 6 on sample requests: the upstream text; an
    upstream HTTP error; an answer without text; a call that fails; a body
    that is not JSON. *)
Example POST_outcomes :
  snd (POST Sample.withKey Sample.upstreamEmpty Sample.parseAnswer Sample.score3Request)
  = NextResponse_json "Shorten the title." 200
  /\ snd (POST Sample.withKey Sample.upstreamBusy Sample.parseEmpty Sample.score3Request)
     = NextResponse_json "Gemini error: 503 busy" 500
  /\ snd (POST Sample.withKey Sample.upstreamEmpty Sample.parseEmpty Sample.score3Request)
     = NextResponse_json
         "No recommendation text returned. No text in response. finishReason=unknown" 200
  /\ snd (POST Sample.withKey Sample.upstreamDown Sample.parseEmpty Sample.score3Request)
     = NextResponse_json "Server error: TypeError: fetch failed" 500
  /\ POST Sample.withKey Sample.upstreamEmpty Sample.parseEmpty
       {| json := Throw (Error "SyntaxError" "Unexpected end of JSON input") |}
     = ([], NextResponse_json "Server error: SyntaxError: Unexpected end of JSON input" 500)
  /\ map url (fst (POST Sample.withKey Sample.upstreamEmpty Sample.parseAnswer
                     Sample.score3Request))
     = ["https://generativelanguage.googleapis.com/v1beta/models/gemini-2.0-flash:generateContent?key=secret-key"].
Proof. repeat split; vm_compute; reflexivity. Qed.

(** C3, as stated, fails: with no credential configured, the request with
    [score] 9 and [element] Title tag is answered 500 with the
    missing-key message, which does not mention the element. *)
Lemma POST_score9_without_credential :
  json Sample.score9Request = Ok (Obj Sample.titleFields)
  /\ Sample.titleFields !! "score" = Some (Prim (Str "9"))
  /\ Sample.titleFields !! "element" = Some (Prim (Str "Title tag"))
  /\ POST Sample.noKeys Sample.upstreamEmpty Sample.parseEmpty Sample.score9Request
     = ([], NextResponse_json "Server is missing GOOGLE_GENAI_API_KEY." 500)
  /\ occursIn "Title tag" "Server is missing GOOGLE_GENAI_API_KEY." = false.
Proof. repeat split; reflexivity. Qed.

(** ** The CSV export, read back *)

(** Before the end of a field the reader is in the same situation whether or
    not the field was quoted. *)
Lemma readFrom_fieldEnd (st : csvState) (fld : list ascii) (rec : list string)
    (rest : list ascii) :
  st <> Quoted -> fieldEnd rest ->
  readFrom st fld rec rest = readFrom Unquoted fld rec rest.
Proof.
  intros Hst [-> | (more & [-> | ->])]; destruct st; try congruence; reflexivity.
Qed.

Lemma readFrom_plain (l : list ascii) :
  Forall plainChar l ->
  forall (st : csvState) (fld : list ascii) (rec : list string) (rest : list ascii),
    st = FieldStart \/ st = Unquoted -> fieldEnd rest ->
    readFrom st fld rec (l ++ rest) = readFrom Unquoted (rev l ++ fld) rec rest.
Proof.
  induction 1 as [|c l (Hq & Hc & Hl) _ IH]; intros st fld rec rest Hst Hrest.
  - apply readFrom_fieldEnd; [destruct Hst; congruence | exact Hrest].
  - cbn [app rev]. rewrite <- app_assoc. cbn [app].
    rewrite <- (IH Unquoted (c :: fld) rec rest (or_intror eq_refl) Hrest).
    apply Ascii.eqb_neq in Hq, Hc, Hl.
    destruct Hst as [-> | ->]; cbn [readFrom]; now rewrite Hq, Hc, Hl.
Qed.

Lemma readFrom_quoted (l fld : list ascii) (rec : list string) (rest : list ascii) :
  readFrom Quoted fld rec
    (flat_map (fun c => if Ascii.eqb c quote then [c; c] else [c]) l ++ quote :: rest)
  = readFrom QuoteSeen (rev l ++ fld) rec rest.
Proof.
  revert fld. induction l as [|c l IH]; intros fld; [reflexivity|].
  cbn [flat_map rev]. rewrite <- !app_assoc. cbn [app].
  rewrite <- IH. destruct (Ascii.eqb c quote) eqn:Hc; cbn [app readFrom]; rewrite Hc.
  - reflexivity.
  - reflexivity.
Qed.

Lemma plain_text (s : string) : testSpecial s = false -> Forall plainChar (chars s).
Proof.
  intros H. apply List.Forall_forall. intros c Hin.
  unfold plainChar. repeat split; intros ->;
    (enough (testSpecial s = true) by congruence);
    apply testSpecial_spec; unfold needsQuoting; auto.
Qed.

(** One cell, then the rest of the text. *)
Lemma readFrom_csvEscape (val : scalar) (rec : list string) (rest : list ascii) :
  fieldEnd rest ->
  readFrom FieldStart [] rec (chars (csvEscape val) ++ rest)
  = readFrom Unquoted (rev (chars (fieldText val))) rec rest.
Proof.
  intros Hrest. rewrite csvEscape_fieldText.
  destruct (testSpecial (fieldText val)) eqn:Hs.
  - unfold quoted, doubleQuotes. rewrite !chars_append, chars_str.
    cbn [dquote chars list_ascii_of_string app]. rewrite <- app_assoc. cbn [app readFrom].
    change (Ascii.eqb "034" quote) with true. cbv iota.
    rewrite readFrom_quoted, app_nil_r.
    apply readFrom_fieldEnd; [discriminate | exact Hrest].
  - rewrite (readFrom_plain _ (plain_text _ Hs)) by auto.
    now rewrite app_nil_r.
Qed.

(** One line of cells, then the rest of the text. *)
Lemma readFrom_cells (l : list scalar) :
  l <> [] ->
  forall (rec : list string) (rest : list ascii),
    recordEnd rest ->
    readFrom FieldStart [] rec (chars (join "," (map csvEscape l)) ++ rest)
    = closeRecord (rev (map fieldText l) ++ rec) rest.
Proof.
  induction l as [|v l IH]; [congruence|]. intros _ rec rest Hrest.
  destruct l as [|w l].
  - cbn [map join rev app]. rewrite readFrom_csvEscape.
    + destruct Hrest as [-> | (more & ->)]; cbn [readFrom closeRecord];
        now rewrite rev_involutive, str_chars.
    + destruct Hrest as [-> | (more & ->)]; [now left | right; eauto].
  - change (join "," (map csvEscape (v :: w :: l)))
      with (csvEscape v +:+ "," +:+ join "," (map csvEscape (w :: l))).
    rewrite !chars_append, <- !app_assoc.
    rewrite readFrom_csvEscape by (right; eexists; left; reflexivity).
    cbn [chars list_ascii_of_string app readFrom].
    change (Ascii.eqb "," quote) with false. change (Ascii.eqb "," comma) with true.
    cbv iota. rewrite rev_involutive, str_chars.
    rewrite IH by (discriminate || exact Hrest).
    cbn [map rev]. now rewrite <- !app_assoc.
Qed.

Lemma readFrom_lines (ls : list (list scalar)) :
  ls <> [] -> Forall (fun l => l <> []) ls ->
  readFrom FieldStart [] []
    (chars (join newline (map (fun l => join "," (map csvEscape l)) ls)))
  = map (map fieldText) ls.
Proof.
  induction ls as [|l ls IH]; [congruence|]. intros _ Hne.
  inversion Hne as [|? ? Hl Hls]; subst.
  destruct ls as [|l2 ls].
  - cbn [map join]. rewrite <- (app_nil_r (chars _)).
    rewrite readFrom_cells by (auto; now left).
    cbn [closeRecord]. now rewrite app_nil_r, rev_involutive.
  - change (join newline (map (fun l => join "," (map csvEscape l)) (l :: l2 :: ls)))
      with (join "," (map csvEscape l) +:+ newline
            +:+ join newline (map (fun l => join "," (map csvEscape l)) (l2 :: ls))).
    rewrite !chars_append, <- ?app_assoc.
    rewrite readFrom_cells by (auto; right; eexists; reflexivity).
    cbn [newline chars list_ascii_of_string app closeRecord].
    rewrite app_nil_r, rev_involutive. fold (chars (join newline
      (map (fun l => join "," (map csvEscape l)) (l2 :: ls)))).
    rewrite IH by (discriminate || exact Hls). reflexivity.
Qed.

(** No header needs quoting. *)
Lemma headers_escaped : join "," headers = join "," (map csvEscape (map Str headers)).
Proof. vm_compute. reflexivity. Qed.

Lemma csvLines_cells (rows : list row) :
  csvLines rows
  = map (fun l => join "," (map csvEscape l)) (map Str headers :: map cells rows).
Proof.
  unfold csvLines. cbn [map]. rewrite <- headers_escaped. f_equal.
  rewrite map_map. reflexivity.
Qed.

Lemma readCSV_csvLines (rows : list row) :
  readCSV (join newline (csvLines rows)) = headers :: map cellTexts rows.
Proof.
  unfold readCSV. rewrite csvLines_cells, readFrom_lines.
  - cbn [map]. f_equal. now rewrite map_map.
  - discriminate.
  - constructor; [discriminate|]. apply List.Forall_forall. intros l Hl.
    apply in_map_iff in Hl as (r & <- & _). discriminate.
Qed.

(** The export is a CSV text that reads back as the dataset.  For every
    file name and every list of rows (the empty one too), the download
    carries the given name, and a reader of CSV that splits fields at
    commas, records at line feeds and undoes the quoting reads its text
    as the header record followed, row by row and in order, by the eleven
    cell texts of each row: so there is one record more than there are
    rows, each of eleven fields, whatever commas, double quotes and line
    feeds the cells hold. *)
Theorem downloadCSV_reads_back (filename : string) (rows : list row) :
  download_name (downloadCSV filename rows) = filename
  /\ readCSV (blob_text (downloadCSV filename rows)) = headers :: map cellTexts rows
  /\ length (readCSV (blob_text (downloadCSV filename rows))) = S (length rows)
  /\ Forall (fun rec => length rec = 11%nat) (readCSV (blob_text (downloadCSV filename rows))).
Proof.
  cbn [downloadCSV download_name blob_text].
  rewrite readCSV_csvLines. split; [reflexivity|]. split; [reflexivity|].
  split; [cbn [length]; now rewrite length_map|].
  constructor; [reflexivity|]. apply List.Forall_forall. intros rec Hrec.
  apply in_map_iff in Hrec as (r & <- & _). reflexivity.
Qed.

Lemma readCSV_csvEscape (val : scalar) : readCSV (csvEscape val) = [[fieldText val]].
Proof.
  unfold readCSV. rewrite <- (app_nil_r (chars _)).
  rewrite readFrom_csvEscape by now left.
  cbn [readFrom rev app]. now rewrite rev_involutive, str_chars.
Qed.

(** The escaper loses nothing: two values whose escaped cells are the same
    text have the same field text. *)
Theorem csvEscape_injective (a b : scalar) :
  csvEscape a = csvEscape b -> fieldText a = fieldText b.
Proof.
  intros H. apply (f_equal readCSV) in H. rewrite !readCSV_csvEscape in H. congruence.
Qed.

(** A missing value and the empty text are the one case of two different
    values with one cell. *)
Lemma csvEscape_injective_witness :
  csvEscape Null = csvEscape (Str "") /\ fieldText Null = fieldText (Str "").
Proof.
  assert (csvEscape Null = csvEscape (Str "")) as H by reflexivity.
  split; [exact H | exact (csvEscape_injective Null (Str "") H)].
Defined.

(** The severity of a checklist row is not a column of the export. *)
Lemma cellTexts_withSeverity (r : row) : cellTexts (withSeverity r) = cellTexts r.
Proof.
  unfold cellTexts, cells. now rewrite !get_withSeverity by discriminate.
Qed.

(** The export of the checklist.  For every dataset, the text exported
    from [implementationRows] reads back as the header record followed by
    records that are, up to their order, the cell texts of the rows of the
    dataset whose score is not the text [9]: the same eleven columns as
    the export of the dataset, without the severity. *)
Theorem checklist_export (filename : string) (data : list row) :
  exists records : list (list string),
    readCSV (blob_text (downloadCSV filename (implementationRows data))) = headers :: records
    /\ Permutation records
         (map cellTexts
            (List.filter (fun r => negb (strictEquals (get r "score") (Str "9"))) data)).
Proof.
  exists (map cellTexts (implementationRows data)). split.
  - apply readCSV_csvLines.
  - rewrite (Permutation_map cellTexts (implementationRows_Permutation data)).
    rewrite map_map. erewrite map_ext; [reflexivity|]. apply cellTexts_withSeverity.
Qed.

(** ** The controls *)

Lemma get_insert_ne (r : row) (k j : string) (v : scalar) :
  k <> j -> get (<[k := v]> r) j = get r j.
Proof. intros H. unfold get. now rewrite lookup_insert_ne. Qed.

Lemma get_insert_eq (r : row) (k : string) (v : scalar) : get (<[k := v]> r) k = v.
Proof. unfold get. now rewrite lookup_insert_eq. Qed.

Lemma ids_onChangeField (id : scalar) (key : string) (v : scalar) (rows : list row) :
  key <> "id" -> ids (onChangeField id key v rows) = ids rows.
Proof.
  intros Hk. unfold ids, onChangeField. rewrite map_map. apply map_ext.
  intros r. destruct (strictEquals (get r "id") id); [|reflexivity].
  now apply get_insert_ne.
Qed.

Lemma ids_autoPrioritize (rows : list row) : ids (autoPrioritize rows) = ids rows.
Proof.
  unfold ids, autoPrioritize. rewrite map_map. apply map_ext.
  intros r. now apply get_insert_ne.
Qed.

Lemma keyOf_not_id (f : textField) : keyOf f <> "id".
Proof. destruct f; discriminate. Qed.

(** No control adds, removes, reorders or renames a row: whatever control
    fires, with whatever id and value, the ids of the rows are the same
    list as before, and so is the number of rows. *)
Theorem handle_keeps_ids (c : control) (rows : list row) :
  ids (handle c rows) = ids rows /\ length (handle c rows) = length rows.
Proof.
  assert (ids (handle c rows) = ids rows) as H.
  { destruct c; cbn [handle];
      try (apply ids_onChangeField; (discriminate || apply keyOf_not_id)).
    apply ids_autoPrioritize. }
  split; [exact H|].
  apply (f_equal (@length _)) in H. unfold ids in H. now rewrite !length_map in H.
Qed.

Lemma isDigit_string_of_uint (d : Decimal.uint) :
  forallb isDigit (chars (NilZero.string_of_uint d)) = true.
Proof.
  assert (forallb isDigit (chars (NilEmpty.string_of_uint d)) = true) as H
    by (induction d; simpl; auto).
  destruct d; exact H || reflexivity.
Qed.

Lemma isDigits_decimalZ (z : Z) : isDigits (decimalZ z) = true.
Proof. apply isDigit_string_of_uint. Qed.

Lemma isDigits_digitsOnly (s : string) : isDigits (digitsOnly s) = true.
Proof.
  unfold isDigits, digitsOnly. rewrite chars_str. apply forallb_forall.
  intros c Hc. now apply filter_In in Hc.
Qed.

Lemma scoreOk_sanitizeScore (x : scalar) : scoreOk (Str (sanitizeScore x)) = true.
Proof.
  apply existsb_exists. exists (sanitizeScore x).
  split; [apply sanitizeScore_range | apply String.eqb_refl].
Qed.

Lemma modelled_onChangeField (id : scalar) (key : string) (v : scalar) (rows : list row) :
  (key = "score" -> scoreOk v = true) ->
  (key = "priority" -> priorityText v = true) ->
  Forall modelled rows -> Forall modelled (onChangeField id key v rows).
Proof.
  intros Hs Hp H. unfold onChangeField. apply List.Forall_forall.
  intros r' Hin. apply in_map_iff in Hin as (r & <- & Hr).
  rewrite List.Forall_forall in H. specialize (H r Hr) as [H1 H2].
  destruct (strictEquals (get r "id") id); [|now split].
  unfold modelled.
  destruct (String.eqb_spec key "score") as [Hks|Hks].
  { subst key. rewrite get_insert_eq, get_insert_ne by discriminate. auto. }
  destruct (String.eqb_spec key "priority") as [Hkp|Hkp].
  { subst key. rewrite get_insert_eq, get_insert_ne by discriminate. auto. }
  rewrite !get_insert_ne by congruence. auto.
Qed.

Lemma Array_find_In {A : Type} (p : A -> bool) (l : list A) (x : A) :
  Array_find p l = Some x -> In x l.
Proof.
  induction l as [|y l IH]; [discriminate|]. cbn [Array_find].
  destruct (p y); [intros [= ->]; now left | intros H; right; auto].
Qed.

Lemma In_imap_rankedEntry (l : list row) (x : row) :
  In x (imap rankedEntry l) ->
  exists (i : nat) (y : row), (i < length l)%nat /\ x = rankedEntry i y.
Proof.
  intros H. apply list_elem_of_In, list_elem_of_lookup_1 in H as [i Hi].
  rewrite list_lookup_imap in Hi.
  destruct (l !! i) as [y|] eqn:Hy; [|discriminate].
  injection Hi as <-. exists i, y. split; [eapply lookup_lt_Some; eauto | reflexivity].
Qed.

Lemma priorityText_rankedPriority (rows : list row) (r : row) :
  (Z.of_nat (length rows) < 2 ^ 32)%Z ->
  priorityText (get r "priority") = true ->
  priorityText (or (rankedPriority (ranked rows) r) (get r "priority")) = true.
Proof.
  intros Hlen Hr. unfold rankedPriority.
  destruct (Array_find _ (ranked rows)) as [x|] eqn:Hx; [|exact Hr].
  apply Array_find_In, In_imap_rankedEntry in Hx as (i & y & Hi & ->).
  pose proof (ranking_length rows). assert (2 ^ 32 < 2 ^ 53)%Z by reflexivity.
  rewrite get_rankedEntry_priority by lia.
  unfold or. cbn [ToBoolean].
  destruct (negb _); [apply isDigits_decimalZ | exact Hr].
Qed.

(** The controls keep the dataset in its model.  If every row has a
    normalised score and a priority that is absent or a text of digits
    (and the dataset has a length an array can have), then so has every
    row after any control fired: the score select stores only normalised
    scores, the priority input only digits, auto-prioritise only
    numerals, and the other controls touch neither field. *)
Theorem handle_keeps_model (c : control) (rows : list row) :
  (Z.of_nat (length rows) < 2 ^ 32)%Z ->
  Forall modelled rows -> Forall modelled (handle c rows).
Proof.
  intros Hlen H. destruct c; cbn [handle].
  - apply modelled_onChangeField; (discriminate || exact H).
  - apply modelled_onChangeField; [| |exact H]; intros Hk; destruct f; discriminate.
  - apply modelled_onChangeField; [| discriminate | exact H].
    intros _. destruct (String.eqb v "_clear"); [reflexivity | apply scoreOk_sanitizeScore].
  - apply modelled_onChangeField; [discriminate | | exact H].
    intros _. apply isDigits_digitsOnly.
  - unfold autoPrioritize. apply List.Forall_forall. intros r' Hin.
    apply in_map_iff in Hin as (r & <- & Hr).
    rewrite List.Forall_forall in H. specialize (H r Hr) as [H1 H2].
    split.
    + now rewrite get_insert_ne by discriminate.
    + rewrite get_insert_eq. now apply priorityText_rankedPriority.
Qed.

(** The sample dataset is in the model. *)
Lemma audit_modelled : Forall modelled Sample.audit.
Proof. repeat constructor. Qed.

Lemma audit_wellFormed : Forall wellFormed Sample.audit.
Proof. repeat constructor. Qed.

Lemma audit_integerId : Forall integerId Sample.audit.
Proof. repeat constructor. Qed.

Lemma audit_unique : NoDup (ids Sample.audit).
Proof.
  unfold ids.
  repeat (constructor;
          [intros Hin; apply list_elem_of_In in Hin; simpl in Hin;
           repeat (destruct Hin as [Hin|Hin]; [vm_compute in Hin; discriminate Hin|]);
           exact Hin|]).
  constructor.
Qed.

Lemma audit_length : (Z.of_nat (length Sample.audit) < 2 ^ 32)%Z.
Proof. reflexivity. Qed.

(** Auto-prioritise on the sample dataset. *)
Lemma handle_keeps_model_witness :
  ((Z.of_nat (length Sample.audit) < 2 ^ 32)%Z /\ Forall modelled Sample.audit)
  /\ Forall modelled (handle AutoPrioritizeButton Sample.audit).
Proof.
  split; [exact (conj audit_length audit_modelled)|].
  exact (handle_keeps_model AutoPrioritizeButton Sample.audit audit_length audit_modelled).
Defined.

(** The score select.  Whatever value it hands over, what is stored is a
    normalised score; each of the options it offers is stored as it is;
    and the entry that clears stores the empty score. *)
Theorem ScoreSelect_stores (id : scalar) (v : string) (rows : list row) :
  (exists s, In s normalizedScores
             /\ handle (ScoreSelect id v) rows = onChangeField id "score" (Str s) rows)
  /\ (In v SCORE_OPTIONS -> handle (ScoreSelect id v) rows = onChangeField id "score" (Str v) rows)
  /\ (v = "_clear" -> handle (ScoreSelect id v) rows = onChangeField id "score" (Str "") rows).
Proof.
  split; [|split].
  - cbn [handle]. destruct (String.eqb v "_clear").
    + exists "". split; [now left | reflexivity].
    + exists (sanitizeScore (Str v)). split; [apply sanitizeScore_range | reflexivity].
  - intros Hin. cbn [handle]. simpl in Hin.
    repeat (destruct Hin as [<- | Hin]; [reflexivity|]). destruct Hin.
  - intros ->. reflexivity.
Qed.

Lemma strictEquals_apart (a b c : scalar) :
  strictEquals b c = false -> strictEquals a b = true -> strictEquals a c = false.
Proof.
  intros Hbc Hab. apply not_true_iff_false. intros Hac.
  apply not_true_iff_false in Hbc. apply Hbc.
  apply strictEquals_trans with a; [|exact Hac]. now rewrite strictEquals_sym.
Qed.

(** Updates compose.  Two updates of fields other than [id] can be applied
    in either order when they differ in the key or in the id (so an
    answer that arrives late overwrites nothing typed meanwhile in
    another field or another row); and of two updates of the same field
    of the same id, the later one alone counts. *)
Theorem onChangeField_compose (id1 id2 : scalar) (k1 k2 : string) (v1 v2 : scalar)
    (rows : list row) :
  k1 <> "id" -> k2 <> "id" ->
  (k1 <> k2 \/ strictEquals id1 id2 = false ->
   onChangeField id1 k1 v1 (onChangeField id2 k2 v2 rows)
   = onChangeField id2 k2 v2 (onChangeField id1 k1 v1 rows))
  /\ (k1 = k2 -> id1 = id2 ->
      onChangeField id1 k1 v1 (onChangeField id2 k2 v2 rows) = onChangeField id1 k1 v1 rows).
Proof.
  intros H1 H2. unfold onChangeField. rewrite !map_map. split.
  - intros Hor. apply map_ext. intros r.
    destruct (strictEquals (get r "id") id2) eqn:E2, (strictEquals (get r "id") id1) eqn:E1;
      rewrite ?get_insert_ne by congruence; rewrite ?E1, ?E2; try reflexivity.
    destruct Hor as [Hk | Hid].
    + now apply insert_insert_ne.
    + rewrite strictEquals_sym in Hid.
      rewrite (strictEquals_apart _ _ _ Hid E2) in E1. discriminate.
  - intros <- <-. apply map_ext. intros r.
    destruct (strictEquals (get r "id") id1) eqn:E1;
      rewrite ?get_insert_ne by congruence; rewrite ?E1; [|reflexivity].
    apply insert_insert_eq.
Qed.

(** A score and a priority, set in either order. *)
Lemma onChangeField_compose_witness :
  ("score" <> "id" /\ "priority" <> "id")
  /\ onChangeField (Num (ofZ 1)) "score" (Str "7")
       (onChangeField (Num (ofZ 2)) "priority" (Str "1") Sample.audit)
     = onChangeField (Num (ofZ 2)) "priority" (Str "1")
         (onChangeField (Num (ofZ 1)) "score" (Str "7") Sample.audit).
Proof.
  assert ("score" <> "id") as H1 by discriminate.
  assert ("priority" <> "id") as H2 by discriminate.
  split; [exact (conj H1 H2)|].
  apply (onChangeField_compose (Num (ofZ 1)) (Num (ofZ 2)) "score" "priority"
           (Str "7") (Str "1") Sample.audit H1 H2).
  left. discriminate.
Defined.

(** Scoring a row 9 takes it off the checklist and leaves the rest.  After
    the score select of the row with the given id stored [9], a row is on
    the checklist exactly when it was on it before and does not carry
    that id. *)
Theorem score9_leaves_checklist (id : scalar) (rows : list row) (r' : row) :
  In r' (implementationRows (handle (ScoreSelect id "9") rows))
  <-> In r' (implementationRows rows) /\ strictEquals (get r' "id") id = false.
Proof.
  change (handle (ScoreSelect id "9") rows) with (onChangeField id "score" (Str "9") rows).
  rewrite !In_implementationRows. unfold onChangeField. split.
  - intros (r & Hin & H9 & ->). apply in_map_iff in Hin as (r0 & <- & Hr0).
    destruct (strictEquals (get r0 "id") id) eqn:E.
    + rewrite get_insert_eq in H9. congruence.
    + rewrite get_withSeverity by discriminate. eauto.
  - intros ((r & Hin & H9 & ->) & E). rewrite get_withSeverity in E by discriminate.
    exists r. repeat split; auto. apply in_map_iff. exists r. now rewrite E.
Qed.

(** The severity of a normalised score.  Whatever value is normalised,
    when the normaliser returns (it does on every primitive value, and on
    every array and object whose conversion to a text does not throw), the
    severity of the result is a whole number from 0 to 9, and it is 0
    exactly when the normalised score is empty or [N/A]. *)
Theorem inferSeverity_sanitized (val : value) :
  (forall r : string,
     sanitizeScoreAny val = Ok r ->
     exists z : Z,
       (0 <= z <= 9)%Z
       /\ inferSeverity (Str r) = ofZ z
       /\ (z = 0%Z <-> r = "" \/ r = "N/A"))
  /\ (forall x : scalar,
        sanitizeScoreAny (Prim x) = Ok (sanitizeScore x)
        /\ exists z : Z,
             (0 <= z <= 9)%Z
             /\ inferSeverity (Str (sanitizeScore x)) = ofZ z
             /\ (z = 0%Z <-> sanitizeScore x = "" \/ sanitizeScore x = "N/A"))
  /\ (forall t : string,
        ToString val = Ok t -> exists r, sanitizeScoreAny val = Ok r).
Proof.
  assert (forall r : string,
            In r normalizedScores ->
            exists z : Z,
              (0 <= z <= 9)%Z
              /\ inferSeverity (Str r) = ofZ z
              /\ (z = 0%Z <-> r = "" \/ r = "N/A")) as Hsev.
  { intros r H. exists (severity r).
    assert (scoreOk (Str r) = true) as Hok.
    { apply existsb_exists. exists r. split; [exact H | apply String.eqb_refl]. }
    destruct (inferSeverity_normalized _ Hok) as (s & [= <-] & Heq & Hb).
    split; [exact Hb|]. split; [exact Heq|].
    simpl in H.
    repeat (destruct H as [<- | H];
            [vm_compute; split; [intros; auto; discriminate | intros [|]; auto; discriminate]|]).
    destruct H. }
  split; [|split].
  - intros r Hr. apply Hsev. exact (sanitizeScoreAny_range val r Hr).
  - intros x. split; [apply sanitizeScoreAny_Prim|]. apply Hsev, sanitizeScore_range.
  - intros t Ht.
    assert (val = Prim Null \/ val = Prim Undefined
            \/ (val <> Prim Null /\ val <> Prim Undefined)) as Hv.
    { destruct val as [[]| |]; auto; right; right; split; discriminate. }
    destruct Hv as [-> | [-> | [Hn Hu]]]; [now exists "" | now exists "" |].
    exists (sanitizeScore (Str t)). now apply sanitizeScoreAny_text.
Qed.

(** The estimator does not clamp.  On a text of at most 15 digits the
    severity is 10 minus the number the text denotes: outside the
    normalised scores it is negative as soon as that number is above 10
    (and it is 10 for a zero). *)
Theorem inferSeverity_numerals (s : string) :
  s <> "" -> isDigits s = true -> (String.length s <= 15)%nat ->
  inferSeverity (Str s) = ofZ (10 - digitsValue (chars s))
  /\ (isNegative (inferSeverity (Str s)) = true <-> (10 < digitsValue (chars s))%Z).
Proof.
  intros Hne Hd Hlen.
  assert (inferSeverity (Str s) = ofZ (10 - digitsValue (chars s))) as H.
  { unfold inferSeverity. cbn [strictEquals].
    apply String.eqb_neq in Hne. rewrite Hne.
    assert (String.eqb s "N/A" = false) as ->.
    { apply String.eqb_neq. intros ->. discriminate Hd. }
    cbn [orb ToNumber]. apply String.eqb_neq in Hne.
    rewrite (StringToNumber_digits s Hne Hd Hlen). cbn [isFinite ofZ negb].
    pose proof (digitsValue_bound (chars s) Hd) as Hb. rewrite length_chars in Hb.
    assert (10 ^ Z.of_nat (String.length s) <= 10 ^ 15)%Z by (apply Z.pow_le_mono_r; lia).
    assert (10 ^ 15 < 2 ^ 53)%Z by reflexivity.
    apply sub_ofZ; lia. }
  split; [exact H|]. rewrite H, isNegative_ofZ, Z.ltb_lt. lia.
Qed.

(** The score 15 has severity -5. *)
Lemma inferSeverity_numerals_witness :
  ("15" <> "" /\ isDigits "15" = true /\ (String.length "15" <= 15)%nat)
  /\ inferSeverity (Str "15") = ofZ (10 - digitsValue (chars "15")).
Proof.
  assert ("15" <> "") as H1 by discriminate.
  assert (isDigits "15" = true) as H2 by reflexivity.
  assert (String.length "15" <= 15)%nat as H3 by (simpl; lia).
  split; [exact (conj H1 (conj H2 H3))|].
  exact (proj1 (inferSeverity_numerals "15" H1 H2 H3)).
Defined.

(** ** The filter of the analysis table *)

Section FilterProperties.

Variable toLowerCase : string -> string.

Local Abbreviation filtered := (filtered toLowerCase).
Local Abbreviation inCategory := (inCategory toLowerCase).
Local Abbreviation mentions := (mentions toLowerCase).
Local Abbreviation lowered := (lowered toLowerCase).

Lemma Array_filter_sublist {A : Type} (p : A -> result bool) (l kept : list A) :
  Array_filter p l = Ok kept -> sublist kept l.
Proof.
  revert kept. induction l as [|x l IH]; intros kept.
  - intros [= <-]. constructor.
  - cbn [Array_filter]. destruct (p x) as [b|e]; [|discriminate]. cbn [bind].
    destruct (Array_filter p l) as [k|e]; [|discriminate]. cbn [bind].
    intros [= <-]. destruct b; [apply sublist_skip | apply sublist_cons]; now apply IH.
Qed.

Lemma Array_filter_kept {A : Type} (p : A -> result bool) (l kept : list A) :
  Array_filter p l = Ok kept -> Forall (fun x => p x = Ok true) kept.
Proof.
  revert kept. induction l as [|x l IH]; intros kept.
  - intros [= <-]. constructor.
  - cbn [Array_filter]. destruct (p x) as [b|e] eqn:Hp; [|discriminate]. cbn [bind].
    destruct (Array_filter p l) as [k|e]; [|discriminate]. cbn [bind].
    intros [= <-]. destruct b; [constructor|]; auto.
Qed.

Lemma Forall_sublist {A : Type} (P : A -> Prop) (l1 l2 : list A) :
  sublist l1 l2 -> Forall P l2 -> Forall P l1.
Proof.
  intros Hsub H. rewrite List.Forall_forall in H |- *. intros x Hx.
  apply H, list_elem_of_In. eapply elem_of_sublist; [|exact Hsub].
  now apply list_elem_of_In.
Qed.

Lemma Array_filter_all {A : Type} (p : A -> result bool) (l : list A) :
  Forall (fun x => p x = Ok true) l -> Array_filter p l = Ok l.
Proof.
  induction 1 as [|x l Hx _ IH]; [reflexivity|].
  cbn [Array_filter]. now rewrite Hx, IH.
Qed.

Lemma Array_filter_again {A : Type} (p : A -> result bool) (l kept : list A) :
  Array_filter p l = Ok kept -> Array_filter p kept = Ok kept.
Proof. intros H. eapply Array_filter_all, Array_filter_kept, H. Qed.

Lemma Array_filter_pure {A : Type} (p : A -> result bool) (f : A -> bool) (l : list A) :
  Forall (fun x => p x = Ok (f x)) l -> Array_filter p l = Ok (List.filter f l).
Proof.
  induction 1 as [|x l Hx _ IH]; [reflexivity|].
  cbn [Array_filter List.filter]. rewrite Hx, IH. cbn [bind]. reflexivity.
Qed.

(** The filter only selects.  When it returns, the rows it returns are
    rows of the dataset, unchanged and in their order, each at most as
    often as it occurs, and filtering them again with the same query and
    category returns them all; and without a category and with a blank
    query the dataset comes back as it is, whatever its rows hold. *)
Theorem filtered_selects (data : list row) (q filterCat : string) :
  (forall rows : list row,
     filtered data q filterCat = Ok rows ->
     sublist rows data /\ filtered rows q filterCat = Ok rows)
  /\ (filterCat = "all" -> trim q = "" -> filtered data q filterCat = Ok data).
Proof.
  split.
  2:{ intros -> Hq. unfold Page.filtered. now rewrite Hq. }
  intros rows. unfold Page.filtered.
  destruct (negb (String.eqb filterCat "all")) eqn:Hc;
    destruct (negb (String.eqb (trim q) "")) eqn:Hq; cbn [bind].
  - destruct (Array_filter (inCategory filterCat) data) as [mid|e] eqn:Hmid; [|discriminate].
    cbn [bind]. intros Hrows. split.
    + etransitivity; eapply Array_filter_sublist; eauto.
    + assert (Array_filter (inCategory filterCat) rows = Ok rows) as ->.
      { apply Array_filter_all.
        apply Array_filter_kept in Hmid. apply Array_filter_sublist in Hrows.
        eapply Forall_sublist; eauto. }
      cbn [bind]. eapply Array_filter_again; eauto.
  - destruct (Array_filter (inCategory filterCat) data) as [mid|e] eqn:Hmid; [|discriminate].
    cbn [bind]. intros [= <-]. split.
    + eapply Array_filter_sublist; eauto.
    + now rewrite (Array_filter_again _ _ _ Hmid).
  - intros Hrows. split.
    + eapply Array_filter_sublist; eauto.
    + eapply Array_filter_again; eauto.
  - intros [= <-]. split; reflexivity.
Qed.

Lemma lowered_textual (v : scalar) :
  textual v = true -> lowered v = Ok (toLowerCase (textOf v)).
Proof.
  unfold textual, Page.lowered, textOf. now destruct (or v (Str "")).
Qed.

(** On rows whose category, element, analysis and recommendations are
    texts (or missing), the filter never throws, and keeps exactly the
    rows of the chosen category in which the trimmed query occurs in the
    element, the analysis or the recommendations, letter case apart. *)
Theorem filtered_searchable (data : list row) (q filterCat : string) :
  Forall searchable data ->
  filtered data q filterCat = Ok (List.filter (selected toLowerCase q filterCat) data).
Proof.
  intros H. unfold Page.filtered.
  set (cat := fun r : row =>
        String.eqb (toLowerCase (textOf (get r "issueCategory"))) (toLowerCase filterCat)).
  set (n := toLowerCase (trim q)).
  set (hit := fun r : row =>
        includes (toLowerCase (textOf (get r "inspectionElement"))) n
        || includes (toLowerCase (textOf (get r "analysis"))) n
        || includes (toLowerCase (textOf (get r "recommendations"))) n).
  assert (forall l, Forall searchable l -> Array_filter (inCategory filterCat) l = Ok (List.filter cat l))
    as Hcat.
  { intros l Hl. apply Array_filter_pure. eapply List.Forall_impl; [|exact Hl].
    intros r (Hr & _). cbn beta. unfold Page.inCategory. now rewrite lowered_textual. }
  assert (forall l, Forall searchable l -> Array_filter (mentions n) l = Ok (List.filter hit l))
    as Hhit.
  { intros l Hl. apply Array_filter_pure. eapply List.Forall_impl; [|exact Hl].
    intros r (_ & H1 & H2 & H3). cbn beta. unfold Page.mentions, hit.
    rewrite !lowered_textual by assumption. cbn [bind].
    destruct (includes _ n); [reflexivity|].
    destruct (includes _ n); reflexivity. }
  assert (forall (f : row -> bool) l, Forall searchable l -> Forall searchable (List.filter f l))
    as Hkeep.
  { intros f l Hl. rewrite List.Forall_forall in Hl |- *. intros r Hr.
    apply filter_In in Hr as [Hr _]. auto. }
  unfold selected. fold n.
  destruct (String.eqb filterCat "all"); destruct (String.eqb (trim q) ""); cbn [negb bind orb].
  - f_equal. symmetry. rewrite <- (List.filter_ext (fun _ => true)) by reflexivity.
    clear. induction data as [|r l IH]; cbn; congruence.
  - rewrite Hhit by exact H. reflexivity.
  - rewrite Hcat by exact H. cbn [bind]. f_equal. apply List.filter_ext.
    intros r. fold (cat r). now rewrite andb_true_r.
  - rewrite Hcat by exact H. cbn [bind]. rewrite Hhit by now apply Hkeep.
    f_equal. clear. induction data as [|r l IH]; [reflexivity|].
    cbn [List.filter]. fold (cat r). destruct (cat r); cbn [List.filter andb].
    + fold (hit r). destruct (hit r); now rewrite IH.
    + exact IH.
Qed.

End FilterProperties.

(** The query [Blog] in the category of accessibility selects the second
    sample row; a blank query in all categories selects every row. *)
Example filtered_samples :
  filtered Sample.lowerAscii Sample.notes " Blog " "1- accessibility"
  = Ok [Sample.note 2 "Robots.txt" "1- Accessibility" "Blocks the blog"]
  /\ filtered Sample.lowerAscii Sample.notes "  " "all" = Ok Sample.notes.
Proof. split; vm_compute; reflexivity. Qed.

Lemma filtered_searchable_witness :
  Forall searchable Sample.notes
  /\ filtered Sample.lowerAscii Sample.notes "missing" "4- Content"
     = Ok (List.filter (selected Sample.lowerAscii "missing" "4- Content") Sample.notes).
Proof.
  assert (Forall searchable Sample.notes) as H by (repeat constructor).
  split; [exact H|].
  exact (filtered_searchable Sample.lowerAscii Sample.notes "missing" "4- Content" H).
Defined.

(** ** [generateRecs] *)

Section GenerateRecsProperties.

Variable fetch : gmap string scalar -> result (result value).

Local Abbreviation generateRecs := (generateRecs fetch).

Lemma truthy_orV (x : value) (s : string) : s <> "" -> truthy (orV x (Prim (Str s))) = true.
Proof.
  intros Hs. unfold orV. destruct (truthy x) eqn:Hx; [exact Hx|].
  cbn [truthy ToBoolean]. now destruct (String.eqb_spec s "").
Qed.

(** What one run does, whatever the row and whatever [fetch] and the
    answer do.  The loading id is set to the id of the row first and
    cleared last (also when the call fails); in between the row receives
    exactly one new [recommendations] value, never an empty one (the
    answer, the fallback sentence or the error); and at most one request
    is sent before it, none at all when the score of the row prints as
    [9], in which case the value is the fixed sentence. *)
Theorem generateRecs_calls (r : row) :
  exists (sent : list effect) (rec : value),
    generateRecs r
    = ([setLoadingId (get r "id")] ++ sent
       ++ [changeField (get r "id") "recommendations" rec; setLoadingId Null])%list
    /\ truthy rec = true
    /\ (sent = [] \/ sent = [fetchRecommend (requestBody r)])
    /\ (toStr (get r "score") = "9" -> sent = [] /\ rec = Prim (Str generic)).
Proof.
  unfold Page.generateRecs, attemptRecs.
  destruct (String.eqb_spec (toStr (get r "score")) "9") as [H9|H9].
  - exists [], (Prim (Str generic)). repeat split; auto.
  - destruct (fetch (requestBody r)) as [[json|e]|e].
    + eexists [_], _. split; [reflexivity|]. split; [now apply truthy_orV|].
      split; [now right | intros; contradiction].
    + eexists [_], _. split; [reflexivity|]. split; [reflexivity|].
      split; [now right | intros; contradiction].
    + eexists [_], _. split; [reflexivity|]. split; [reflexivity|].
      split; [now right | intros; contradiction].
Qed.

End GenerateRecsProperties.

(** ** More on the recommendation proxy *)

Lemma dropWhiteSpaceRev_N (n : nat) (m : list ascii) :
  (length m <= n)%nat -> dropWhiteSpaceRev (m ++ ["N"%char]) <> [].
Proof.
  revert m. induction n as [|n IH]; intros m Hm.
  { destruct m; [discriminate | simpl in Hm; lia]. }
  destruct m as [|a [|b [|c m]]]; cbn [app dropWhiteSpaceRev length] in *.
  - discriminate.
  - destruct (ws1 a); [apply (IH []); simpl; lia|].
    change (ws2 "N" a) with false. cbv iota. discriminate.
  - destruct (ws1 a); [apply (IH [b]); simpl; lia|].
    destruct (ws2 b a); [apply (IH []); simpl; lia|].
    change (ws3 "N" b a) with false. cbv iota. discriminate.
  - destruct (ws1 a); [apply (IH (b :: c :: m)); simpl; lia|].
    destruct (ws2 b a); [apply (IH (c :: m)); simpl; lia|].
    destruct (ws3 c b a); [apply (IH m); lia|]. discriminate.
Qed.

(** Trimming leaves a text that starts with a letter non-empty. *)
Lemma trim_N (s : string) : trim (String "N" s) <> "".
Proof.
  unfold trim, trimChars.
  assert (dropWhiteSpace (chars (String "N" s)) = "N"%char :: chars s) as ->.
  { cbn [chars list_ascii_of_string]. fold (chars s).
    destruct (chars s) as [|b [|c l]]; reflexivity. }
  cbn [rev]. pose proof (dropWhiteSpaceRev_N _ (rev (chars s)) (le_n _)) as H.
  destruct (dropWhiteSpaceRev (rev (chars s) ++ ["N"%char])) as [|x l] eqn:E; [congruence|].
  cbn [rev]. destruct (rev l); discriminate.
Qed.

Lemma nonEmpty_nonempty (t : option string) (s : string) : nonEmpty t = Some s -> s <> "".
Proof.
  unfold nonEmpty. destruct t as [u|]; [|discriminate].
  destruct (String.eqb_spec u ""); [discriminate|congruence].
Qed.

(** An encoded component holds only unreserved characters and escapes. *)
Lemma urlSafe_encodeURIComponent (s : string) :
  forallb urlSafe (chars (encodeURIComponent s)) = true.
Proof.
  unfold encodeURIComponent. rewrite chars_str.
  induction (chars s) as [|c l IH]; [reflexivity|].
  cbn [flat_map]. rewrite forallb_app, IH, andb_true_r.
  destruct (unreserved c) eqn:Hc; cbn [forallb].
  - unfold urlSafe. now rewrite Hc.
  - assert (forall n, (n < 16)%N -> urlSafe (hexDigit n) = true) as Hhex.
    { intros n Hn. destruct n as [|p]; [reflexivity|].
      do 4 (try destruct p as [p|p|]); try reflexivity; lia. }
    rewrite !Hhex; [reflexivity| |].
    + apply N.mod_lt. discriminate.
    + apply N.Div0.div_lt_upper_bound. unfold code.
      pose proof (N_ascii_bounded c). lia.
Qed.

Lemma ws2_paren (b : ascii) : ws2 b ")" = false.
Proof. unfold ws2. change (code ")") with 41%N. apply andb_false_r. Qed.

Lemma ws3_paren (c b : ascii) : ws3 c b ")" = false.
Proof.
  unfold ws3. change (code ")") with 41%N. cbv zeta.
  change (128 <=? 41)%N with false. change (41 =? 128)%N with false.
  change (41 =? 168)%N with false. change (41 =? 169)%N with false.
  change (41 =? 175)%N with false. change (41 =? 159)%N with false.
  change (41 =? 191)%N with false.
  cbn [andb orb]. now rewrite !andb_false_r.
Qed.

(** Trimming takes the line break before the first letter and the one
    after the closing parenthesis, and nothing else. *)
Lemma trimChars_framed (body : list ascii) :
  trimChars ("010"%char :: "I"%char :: body ++ [")"%char; "010"%char])
  = "I"%char :: body ++ [")"%char].
Proof.
  unfold trimChars.
  assert (dropWhiteSpace ("010"%char :: "I"%char :: body ++ [")"%char; "010"%char])
          = "I"%char :: body ++ [")"%char; "010"%char]) as ->.
  { cbn [dropWhiteSpace]. change (ws1 "010") with true. cbv iota.
    destruct body as [|b [|c body]]; reflexivity. }
  cbn [rev]. rewrite rev_app_distr. cbn [rev app].
  cbn [dropWhiteSpaceRev]. change (ws1 "010") with true. change (ws1 ")") with false.
  cbv iota.
  assert (forall l : list ascii,
            l <> [] ->
            match l with
            | [] => ")"%char :: l
            | b :: l2 =>
                if ws2 b ")" then dropWhiteSpaceRev l2
                else match l2 with
                     | [] => ")"%char :: l
                     | c :: l3 => if ws3 c b ")" then dropWhiteSpaceRev l3 else ")"%char :: l
                     end
            end = ")"%char :: l) as Hkeep.
  { intros [|b [|c l3]] Hl; [congruence | |]; now rewrite ?ws2_paren, ?ws3_paren. }
  rewrite Hkeep by (destruct (rev body); discriminate).
  cbn [rev]. rewrite rev_app_distr, rev_involutive. reflexivity.
Qed.

Ltac flatten_chars :=
  rewrite ?chars_append; cbn [chars list_ascii_of_string newline];
  repeat (progress (rewrite <- ?app_assoc; cbn [app])).

(** The user part of the prompt is its lines, with every field as it is:
    trimming the template takes only its first and its last line break. *)
Lemma user_lines (element category subcategory score analysis : string) :
  user element category subcategory score analysis
  = lines (userLines element category subcategory score analysis).
Proof.
  set (inner :=
         lines [ "NSPECTION ELEMENT: " +:+ element;
                 "CATEGORY/SUBCATEGORY: " +:+ category +:+ " / " +:+ subcategory;
                 "CURRENT SCORE: " +:+ score;
                 "ANALYSIS (verbatim notes):";
                 analysis;
                 "";
                 "Write:";
                 "1) Summary of issue(s) & impact (quantify if possible)";
                 "2) Remediation plan (numbered steps; include examples/snippets/tools)";
                 "3) Acceptance criteria (measurable)";
                 "4) Owner & effort (who implements; rough complexity)";
                 "5) Risks/Dependencies";
                 "6) Nice-to-haves (optional" ]).
  rewrite <- (str_chars (lines (userLines element category subcategory score analysis))).
  unfold user, trim. f_equal.
  transitivity (trimChars ("010"%char :: "I"%char :: chars inner ++ [")"%char; "010"%char])).
  - f_equal. unfold inner, lines. cbn [join]. flatten_chars. reflexivity.
  - rewrite trimChars_framed. unfold inner, userLines, lines. cbn [join]. flatten_chars.
    reflexivity.
Qed.

Lemma destructure_Ok (b b' : value) : destructure b = Ok b' -> b' = b.
Proof. destruct b as [[| | | |]| |]; cbn; congruence. Qed.

Section MoreProxyProperties.

Variable process_env : env.
Variable fetch : fetch_request -> result fetch_response.
Variable JSON_parse : string -> result value.

Local Abbreviation attempt := (attempt process_env fetch JSON_parse).
Local Abbreviation POST := (POST process_env fetch JSON_parse).

Lemma attempt_text (key : string) (req : request) (r : response) :
  snd (attempt key req []) = Ok r ->
  exists s st, r = NextResponse_json s st /\ s <> "".
Proof.
  unfold Route.attempt, bindIO, lift, ret, await_fetch, bind.
  repeat (case_match; simpl in *; simplify_eq; try discriminate);
    intros [= <-]; eexists _, _; (split; [reflexivity|]);
    try discriminate; try (eapply nonEmpty_nonempty; eassumption); try apply trim_N.
Qed.

Lemma POST_text (req : request) :
  exists s st, snd (POST req) = NextResponse_json s st /\ s <> "".
Proof.
  unfold Route.POST.
  destruct (API_KEY process_env) as [key|];
    [|simpl; eexists _, _; split; [reflexivity|discriminate]].
  destruct (String.eqb key ""); [simpl; eexists _, _; split; [reflexivity|discriminate]|].
  pose proof (attempt_text key req) as H.
  destruct (attempt key req []) as [calls [r|e]]; simpl in *; [now apply H|].
  eexists _, _; split; [reflexivity|discriminate].
Qed.

(** The recommendation of a response is never the empty text, whatever the
    environment, the request, [fetch] and [JSON.parse] do: the page,
    which replaces an empty recommendation by its own fallback sentence,
    never has to. *)
Theorem POST_recommendation_not_empty (req : request) :
  exists s : string, carriesRecommendation (snd (POST req)) s /\ s <> "".
Proof.
  destruct (POST_text req) as (s & st & -> & Hs).
  exists s. split; [apply NextResponse_json_carries | exact Hs].
Qed.

(** With a request that asks for a score other than 9, the [try] block
    reaches [fetch], with the call for the request. *)
Lemma attempt_reaches_fetch (key : string) (req : request)
    (element category subcategory score analysis : string) :
  asks req element category subcategory score analysis -> score <> "9" ->
  attempt key req []
  = bindIO (await_fetch fetch
              (upstreamCall process_env key element category subcategory score analysis))
      (fun resp =>
         bindIO (lift (resp_text resp))
           (fun raw =>
              let data :=
                if String.eqb raw "" then Obj ∅
                else try_catch (JSON_parse raw) (fun _ => Obj ∅) in
              if negb (ok resp) then
                ret (NextResponse_json
                       ("Gemini error: " +:+ toStr (Num (ofZ (resp_status resp)))
                        +:+ " " +:+ raw) 500)
              else
                match nonEmpty (text (extractText data)) with
                | Some t => ret (NextResponse_json t 200)
                | None =>
                    bindIO (lift (logged data))
                      (fun _ =>
                         ret (NextResponse_json
                                (trim ("No recommendation text returned. "
                                       +:+ default "" (explain (extractText data))))
                                200))
                end))
      [].
Proof.
  intros (b & Hjson & Hb & Hel & Hcat & Hsub & Hsc & Han) H9.
  unfold Route.attempt. unfold bindIO at 1, lift at 1.
  rewrite Hjson. cbn [bind]. rewrite Hb.
  unfold bindIO at 1, lift at 1. rewrite Hsc.
  apply String.eqb_neq in H9. rewrite H9.
  unfold bindIO at 1, lift at 1. rewrite Hel, Hcat, Hsub, Han. cbn [bind].
  reflexivity.
Qed.

Lemma POST_with_key (key : string) (req : request) :
  API_KEY process_env = Some key -> key <> "" ->
  POST req
  = (fst (attempt key req []),
     try_catch (snd (attempt key req []))
       (fun e => NextResponse_json ("Server error: " +:+ errorToString e) 500)).
Proof.
  intros Hkey Hne. unfold Route.POST. rewrite Hkey.
  apply String.eqb_neq in Hne. rewrite Hne.
  now destruct (attempt key req []).
Qed.


(** Upstream answers.  With the credential present, a request for a score
    other than 9 and an upstream status in 200..299: a body that parses
    to an answer with a text is relayed as status 200 with exactly that
    text; an empty body, or one that is not JSON, is taken for an empty
    answer and gives status 200 with the sentence that no text was
    returned, finish reason [unknown]. *)
Theorem POST_upstream_answer (req : request) (key element category subcategory score analysis : string)
    (resp : fetch_response) (raw : string) :
  API_KEY process_env = Some key -> key <> "" ->
  asks req element category subcategory score analysis -> score <> "9" ->
  let call := upstreamCall process_env key element category subcategory score analysis in
  fetch call = Ok resp -> resp_text resp = Ok raw -> ok resp = true ->
  (forall data t,
     raw <> "" -> JSON_parse raw = Ok data -> extractText data = onlyText t -> t <> "" ->
     POST req = ([call], NextResponse_json t 200))
  /\ (raw = "" \/ (exists e, JSON_parse raw = Throw e) ->
      POST req
      = ([call],
         NextResponse_json
           "No recommendation text returned. No text in response. finishReason=unknown" 200)).
Proof.
  intros Hkey Hne Hasks H9 call Hfetch Hraw Hok.
  rewrite (POST_with_key key req Hkey Hne).
  rewrite (attempt_reaches_fetch key req _ _ _ _ _ Hasks H9). fold call.
  unfold bindIO, await_fetch, lift, ret. rewrite Hfetch, Hraw, Hok. cbn [negb app].
  split.
  - intros data t Hr Hparse Hx Ht. apply String.eqb_neq in Hr. rewrite Hr, Hparse.
    cbn [try_catch]. rewrite Hx. unfold onlyText. cbn [text nonEmpty].
    apply String.eqb_neq in Ht. now rewrite Ht.
  - intros Hblank.
    assert ((if String.eqb raw "" then Obj ∅
             else try_catch (JSON_parse raw) (fun _ => Obj ∅)) = Obj ∅) as ->.
    { destruct Hblank as [-> | (e & ->)]; [reflexivity|]. now destruct (String.eqb raw ""). }
    vm_compute. reflexivity.
Qed.

(** Requests that cannot be read.  With the credential present, a request
    whose body is not JSON, or is [null], is answered with status 500 and
    the error after [Server error: ], and no call is issued. *)
Theorem POST_bad_request (req : request) (key : string) :
  API_KEY process_env = Some key -> key <> "" ->
  (forall e, json req = Throw e ->
     POST req = ([], NextResponse_json ("Server error: " +:+ errorToString e) 500))
  /\ (json req = Ok (Prim Null) \/ json req = Ok (Prim Undefined) ->
      fst (POST req) = [] /\ status (snd (POST req)) = 500%Z
      /\ exists m, carriesRecommendation (snd (POST req)) ("Server error: TypeError: " +:+ m)).
Proof.
  intros Hkey Hne. rewrite (POST_with_key key req Hkey Hne).
  unfold Route.attempt, bindIO, lift. split.
  - intros e ->. reflexivity.
  - intros [-> | ->]; cbn; (split; [reflexivity|]); (split; [reflexivity|]);
      eexists; apply NextResponse_json_carries.
Qed.

Lemma attempt_asks (key : string) (req : request) (call : fetch_request) :
  In call (fst (attempt key req [])) ->
  exists element category subcategory score analysis,
    asks req element category subcategory score analysis
    /\ score <> "9"
    /\ call = upstreamCall process_env key element category subcategory score analysis.
Proof.
  unfold Route.attempt, bindIO at 1, lift at 1.
  destruct (json req) as [b|e] eqn:Hjson; [|intros []]. cbn [bind].
  destruct (destructure b) as [b'|e] eqn:Hb; [|intros []].
  pose proof (destructure_Ok _ _ Hb) as ->.
  unfold bindIO at 1, lift at 1.
  destruct (ToString (field b "score")) as [sc|e] eqn:Hsc; [|intros []].
  destruct (String.eqb_spec sc "9") as [|H9].
  { unfold bindIO, lift, ret. destruct (ToString (field b "element")); intros []. }
  unfold bindIO at 1, lift at 1.
  destruct (ToString (field b "element")) as [el|e] eqn:Hel; [|intros []]. cbn [bind].
  destruct (ToString (field b "category")) as [cat|e] eqn:Hcat; [|intros []]. cbn [bind].
  destruct (ToString (field b "subcategory")) as [sub|e] eqn:Hsub; [|intros []]. cbn [bind].
  destruct (ToString (field b "analysis")) as [an|e] eqn:Han; [|intros []]. cbn [bind].
  intros Hin. exists el, cat, sub, sc, an.
  split; [exists b; repeat split; assumption|]. split; [exact H9|].
  revert Hin. unfold bindIO, await_fetch, lift, ret.
  repeat (case_match; simpl in *; simplify_eq; try tauto); intros [<- | []]; reflexivity.
Qed.

(** What is sent upstream.  Every call the handler issues is for a request
    that could be read and whose score is not 9, with the credential
    present; its URL is the endpoint of the configured model followed by
    the key, percent-encoded so that it holds nothing but unreserved
    characters and escapes; and its prompt is the system text, an empty
    line, and the user lines with the five fields of the request as they
    are. *)
Theorem POST_call_carries_request (req : request) (call : fetch_request) :
  In call (fst (POST req)) ->
  exists key element category subcategory score analysis,
    API_KEY process_env = Some key /\ key <> ""
    /\ asks req element category subcategory score analysis /\ score <> "9"
    /\ url call
       = "https://generativelanguage.googleapis.com/v1beta/models/"
         +:+ MODEL process_env +:+ ":generateContent?key=" +:+ encodeURIComponent key
    /\ forallb urlSafe (chars (encodeURIComponent key)) = true
    /\ prompt call
       = system +:+ newline +:+ newline
         +:+ lines (userLines element category subcategory score analysis).
Proof.
  unfold Route.POST.
  destruct (API_KEY process_env) as [key|]; [|intros []].
  destruct (String.eqb_spec key "") as [|Hne]; [intros []|].
  pose proof (attempt_asks key req call) as H.
  destruct (attempt key req []) as [calls r]. cbn [fst] in *.
  intros Hin. destruct (H Hin) as (el & cat & sub & sc & an & Hasks & H9 & ->).
  exists key, el, cat, sub, sc, an. repeat split; auto.
  - apply urlSafe_encodeURIComponent.
  - cbn [upstreamCall prompt]. now rewrite user_lines.
Qed.

End MoreProxyProperties.

Lemma asks_score3 : asks Sample.score3Request "Title tag" "" "" "3" "".
Proof. eexists. repeat split; reflexivity. Qed.


(** The answer in two parts, relayed. *)
Lemma POST_upstream_answer_witness :
  (API_KEY Sample.withKey = Some "secret-key" /\ "secret-key" <> ""
   /\ asks Sample.score3Request "Title tag" "" "" "3" "" /\ "3" <> "9")
  /\ snd (POST Sample.withKey Sample.upstreamEmpty Sample.parseAnswer Sample.score3Request)
     = NextResponse_json "Shorten the title." 200.
Proof.
  assert (API_KEY Sample.withKey = Some "secret-key") as H1 by reflexivity.
  assert ("secret-key" <> "") as H2 by discriminate.
  assert ("3" <> "9") as H3 by discriminate.
  split; [exact (conj H1 (conj H2 (conj asks_score3 H3)))|].
  assert ("{}" <> "") as H4 by discriminate.
  assert ("Shorten the title." <> "") as H5 by discriminate.
  rewrite (proj1 (POST_upstream_answer Sample.withKey Sample.upstreamEmpty Sample.parseAnswer
                    Sample.score3Request "secret-key" "Title tag" "" "" "3" ""
                    {| resp_status := 200; resp_text := Ok "{}" |} "{}"
                    H1 H2 asks_score3 H3 eq_refl eq_refl eq_refl)
             Sample.answerWithText "Shorten the title." H4 eq_refl eq_refl H5).
  reflexivity.
Defined.

(** A body that is not JSON. *)
Lemma POST_bad_request_witness :
  (API_KEY Sample.withKey = Some "secret-key" /\ "secret-key" <> "")
  /\ POST Sample.withKey Sample.upstreamEmpty Sample.parseEmpty
       {| json := Throw (Error "SyntaxError" "Unexpected end of JSON input") |}
     = ([], NextResponse_json
              ("Server error: "
               +:+ errorToString (Error "SyntaxError" "Unexpected end of JSON input")) 500).
Proof.
  assert (API_KEY Sample.withKey = Some "secret-key") as H1 by reflexivity.
  assert ("secret-key" <> "") as H2 by discriminate.
  split; [exact (conj H1 H2)|].
  exact (proj1 (POST_bad_request Sample.withKey Sample.upstreamEmpty Sample.parseEmpty
                  {| json := Throw (Error "SyntaxError" "Unexpected end of JSON input") |}
                  "secret-key" H1 H2)
           (Error "SyntaxError" "Unexpected end of JSON input") eq_refl).
Defined.

(** The call for the Title tag. *)
Lemma POST_call_carries_request_witness :
  In (upstreamCall Sample.withKey "secret-key" "Title tag" "" "" "3" "")
    (fst (POST Sample.withKey Sample.upstreamEmpty Sample.parseAnswer Sample.score3Request))
  /\ exists key element category subcategory score analysis,
       API_KEY Sample.withKey = Some key /\ key <> ""
       /\ asks Sample.score3Request element category subcategory score analysis
       /\ score <> "9"
       /\ url (upstreamCall Sample.withKey "secret-key" "Title tag" "" "" "3" "")
          = "https://generativelanguage.googleapis.com/v1beta/models/"
            +:+ MODEL Sample.withKey +:+ ":generateContent?key=" +:+ encodeURIComponent key
       /\ forallb urlSafe (chars (encodeURIComponent key)) = true
       /\ prompt (upstreamCall Sample.withKey "secret-key" "Title tag" "" "" "3" "")
          = system +:+ newline +:+ newline
            +:+ lines (userLines element category subcategory score analysis).
Proof.
  assert (In (upstreamCall Sample.withKey "secret-key" "Title tag" "" "" "3" "")
            (fst (POST Sample.withKey Sample.upstreamEmpty Sample.parseAnswer
                    Sample.score3Request))) as H
    by (left; vm_compute; reflexivity).
  split; [exact H|].
  exact (POST_call_carries_request Sample.withKey Sample.upstreamEmpty Sample.parseAnswer
           Sample.score3Request _ H).
Defined.

(** ** More on the extractor *)

Lemma append_empty_r (s : string) : s +:+ "" = s.
Proof.
  rewrite <- (str_chars (s +:+ "")), chars_append.
  change (chars "") with (@nil ascii). now rewrite app_nil_r, str_chars.
Qed.

Lemma Array_join_texts (ps : list value) (texts : list string) :
  Forall2 partText ps texts ->
  Array_join "" (List.filter truthy (map (fun p => getProp p "text") ps))
  = Ok (join "" texts).
Proof.
  assert (forall l : list value,
            (exists s, Array_join "" l = Ok s) ->
            forall t, Array_join "" (Prim (Str t) :: l)
                      = let* s := Array_join "" l in Ok (t +:+ s)) as Hcons.
  { intros l (s & Hs) t. cbn [Array_join ToString toStr bind].
    destruct l as [|x l]; [cbn; now rewrite append_empty_r|].
    rewrite Hs. reflexivity. }
  assert (forall ts : list string, join "" ts = fold_right append "" ts) as Hjoin.
  { induction ts as [|t [|u ts] IH]; [reflexivity | cbn; now rewrite append_empty_r |].
    change (join "" (t :: u :: ts)) with (t +:+ "" +:+ join "" (u :: ts)).
    rewrite IH. reflexivity. }
  intros H. rewrite Hjoin. induction H as [|p t ps ts Hp _ IH]; [reflexivity|].
  cbn [map List.filter fold_right].
  destruct Hp as [Hp | [Hp ->]]; rewrite ?Hp; [|exact IH].
  cbn [truthy ToBoolean].
  destruct (String.eqb_spec t "") as [->|Ht]; cbn [negb]; [exact IH|].
  rewrite Hcons by eauto. now rewrite IH.
Qed.

(** The text of an answer of the usual shape.  When the first candidate
    has an array of parts, each with a text or without one, and their
    texts together are not empty, the extractor returns exactly their
    concatenation in order (parts without text add nothing), whatever
    else the answer holds. *)
Theorem extractText_joins_parts (data : value) (ps : list value) (texts : list string) :
  firstParts data = Arr ps -> Forall2 partText ps texts -> join "" texts <> "" ->
  extractText data = onlyText (join "" texts).
Proof.
  intros Hparts Htexts Hne. unfold extractText. fold (firstParts data).
  rewrite Hparts, (Array_join_texts ps texts Htexts). cbn [bind].
  apply String.eqb_neq in Hne. now rewrite Hne.
Qed.

(** The sample answer, in two parts. *)
Lemma extractText_joins_parts_witness :
  (firstParts Sample.answerWithText
   = Arr [ Obj {[ "text" := Prim (Str "Shorten ") ]};
           Obj {[ "text" := Prim (Str "the title.") ]} ]
   /\ Forall2 partText
        [ Obj {[ "text" := Prim (Str "Shorten ") ]};
          Obj {[ "text" := Prim (Str "the title.") ]} ]
        ["Shorten "; "the title."]
   /\ join "" ["Shorten "; "the title."] <> "")
  /\ extractText Sample.answerWithText = onlyText (join "" ["Shorten "; "the title."]).
Proof.
  assert (firstParts Sample.answerWithText
          = Arr [ Obj {[ "text" := Prim (Str "Shorten ") ]};
                  Obj {[ "text" := Prim (Str "the title.") ]} ]) as H1 by reflexivity.
  assert (Forall2 partText
            [ Obj {[ "text" := Prim (Str "Shorten ") ]};
              Obj {[ "text" := Prim (Str "the title.") ]} ]
            ["Shorten "; "the title."]) as H2
    by (repeat constructor; left; reflexivity).
  assert (join "" ["Shorten "; "the title."] <> "") as H3 by discriminate.
  split; [exact (conj H1 (conj H2 H3))|].
  exact (extractText_joins_parts Sample.answerWithText _ _ H1 H2 H3).
Defined.

(** ** Numerals read back *)

Lemma digits_of_uint_acc (d : Decimal.uint) (acc : positive) :
  fold_left (fun a c => (a * 10 + digitVal c)%Z) (chars (NilEmpty.string_of_uint d)) (Zpos acc)
  = Zpos (Pos.of_uint_acc d acc).
Proof.
  revert acc. induction d; intros acc; cbn [NilEmpty.string_of_uint chars list_ascii_of_string
                                            fold_left Pos.of_uint_acc];
    [reflexivity | fold (chars (NilEmpty.string_of_uint d)) ..];
    rewrite <- IHd; f_equal; unfold digitVal; cbn; lia.
Qed.

Lemma digits_of_uint (d : Decimal.uint) :
  digitsValue (chars (NilEmpty.string_of_uint d)) = Z.of_N (Pos.of_uint d).
Proof.
  unfold digitsValue.
  induction d; cbn [NilEmpty.string_of_uint chars list_ascii_of_string fold_left Pos.of_uint];
    [reflexivity | fold (chars (NilEmpty.string_of_uint d)) ..];
    [exact IHd | exact (digits_of_uint_acc d _) ..].
Qed.

Lemma digitsValue_decimalZ (z : Z) : (0 <= z)%Z -> digitsValue (chars (decimalZ z)) = z.
Proof.
  intros Hz. unfold decimalZ, NilZero.string_of_uint.
  transitivity (Z.of_N (N.of_uint (N.to_uint (Z.to_N z)))).
  - destruct (N.to_uint (Z.to_N z)) eqn:E; try apply digits_of_uint. reflexivity.
  - rewrite DecimalN.Unsigned.of_to. lia.
Qed.

Lemma of_uint_acc_lower (d : Decimal.uint) (acc : positive) :
  (Zpos acc * 10 ^ Z.of_nat (Decimal.nb_digits d) <= Zpos (Pos.of_uint_acc d acc))%Z.
Proof.
  revert acc. induction d; intros acc;
    cbn [Decimal.nb_digits Pos.of_uint_acc]; [rewrite Z.pow_0_r; lia | ..];
    (etransitivity; [|apply IHd]); rewrite Nat2Z.inj_succ, Z.pow_succ_r by lia;
    assert (0 < 10 ^ Z.of_nat (Decimal.nb_digits d))%Z by (apply Z.pow_pos_nonneg; lia); nia.
Qed.

Lemma of_uint_lower (d : Decimal.uint) :
  Decimal.unorm d = d -> d <> Decimal.D0 Decimal.Nil ->
  (10 ^ (Z.of_nat (Decimal.nb_digits d) - 1) <= Z.of_N (Pos.of_uint d))%Z.
Proof.
  intros Hn Hz.
  assert (forall (l : Decimal.uint) (k : positive),
            (10 ^ (Z.of_nat (S (Decimal.nb_digits l)) - 1)
             <= Z.of_N (N.pos (Pos.of_uint_acc l k)))%Z) as Hk.
  { intros l k. pose proof (of_uint_acc_lower l k) as H.
    replace (Z.of_nat (S (Decimal.nb_digits l)) - 1)%Z with (Z.of_nat (Decimal.nb_digits l)) by lia.
    assert (0 < 10 ^ Z.of_nat (Decimal.nb_digits l))%Z by (apply Z.pow_pos_nonneg; lia).
    cbn [Z.of_N]. nia. }
  destruct d; cbn [Decimal.nb_digits Pos.of_uint]; try apply Hk.
  - now destruct (unorm_nonnil Decimal.Nil).
  - exfalso. rewrite unorm_D0 in Hn.
    destruct d; [now apply Hz | ..];
      match type of Hn with Decimal.unorm ?u = _ =>
        assert (u <> Decimal.Nil) as Hu by discriminate;
        pose proof (nb_digits_unorm u Hu) as Hle; rewrite Hn in Hle;
        cbn [Decimal.nb_digits] in Hle; lia
      end.
Qed.

Lemma length_string_of_uint (d : Decimal.uint) :
  String.length (NilEmpty.string_of_uint d) = Decimal.nb_digits d.
Proof. induction d; cbn; congruence. Qed.

Lemma length_decimalZ (z : Z) (n : nat) :
  (0 <= z < 10 ^ Z.of_nat n)%Z -> (0 < n)%nat -> (String.length (decimalZ z) <= n)%nat.
Proof.
  intros Hz Hn. unfold decimalZ, NilZero.string_of_uint.
  set (d := N.to_uint (Z.to_N z)).
  assert (Decimal.unorm d = d) as Hnorm.
  { rewrite <- (DecimalN.Unsigned.to_of d). unfold d.
    now rewrite DecimalN.Unsigned.of_to. }
  assert (Z.of_N (Pos.of_uint d) = z) as Hval.
  { unfold d. change (Pos.of_uint (N.to_uint (Z.to_N z))) with (N.of_uint (N.to_uint (Z.to_N z))).
    rewrite DecimalN.Unsigned.of_to. lia. }
  destruct (Decimal.uint_eq_dec d (Decimal.D0 Decimal.Nil)) as [->|Hd]; [simpl; lia|].
  pose proof (of_uint_lower d Hnorm Hd) as Hlow. rewrite Hval in Hlow.
  assert (String.length (NilEmpty.string_of_uint d) <= n)%nat as Hlen.
  { rewrite length_string_of_uint.
    destruct (Nat.le_gt_cases (Decimal.nb_digits d) n) as [|Hgt]; [assumption|].
    assert (10 ^ Z.of_nat n <= 10 ^ (Z.of_nat (Decimal.nb_digits d) - 1))%Z
      by (apply Z.pow_le_mono_r; lia).
    lia. }
  destruct d; try exact Hlen. simpl. lia.
Qed.

(** ** The normaliser on whole numbers *)

Lemma nearestInteger_whole (v z : Z) : nearestInteger (inject_Z v) z -> z = v.
Proof.
  unfold nearestInteger, Qle, Qlt, Qminus, Qplus, Qopp, inject_Z. cbn. lia.
Qed.

Lemma trim_digits (s : string) : isDigits s = true -> trim s = s.
Proof.
  intros H. unfold trim. rewrite trimChars_digits by exact H. apply str_chars.
Qed.

Lemma sanitizeScore_digits (s : string) :
  s <> "" -> isDigits s = true -> (String.length s <= 15)%nat ->
  sanitizeScore (Str s) = decimalZ (clamp (digitsValue (chars s))).
Proof.
  intros Hne Hd Hlen.
  destruct (sanitizeScore_cases (Str s) ltac:(discriminate) ltac:(discriminate))
    as (_ & _ & _ & H).
  cbn [toStr] in H. rewrite (trim_digits s Hd) in H.
  destruct (H ltac:(intros [-> | [-> | [-> | ->]]]; discriminate Hd) Hne _
              (StringToNumber_digits s Hne Hd Hlen)) as (z & Hz & ->).
  now rewrite (nearestInteger_whole _ _ Hz).
Qed.

(** The normaliser on whole numbers.  For every whole number from 0 up to
    (not including) 10^15, given as a Number, as its decimal numeral, or
    as any text of at most 15 digits that denotes it (leading zeros
    allowed), the normalised score is the numeral of the number clamped
    into 1..9. *)
Theorem sanitizeScore_whole_numbers (z : Z) :
  (0 <= z < 10 ^ 15)%Z ->
  sanitizeScore (Num (ofZ z)) = decimalZ (clamp z)
  /\ sanitizeScore (Str (decimalZ z)) = decimalZ (clamp z)
  /\ (forall s : string,
        s <> "" -> isDigits s = true -> (String.length s <= 15)%nat ->
        digitsValue (chars s) = z -> sanitizeScore (Str s) = decimalZ (clamp z)).
Proof.
  intros Hz.
  assert (sanitizeScore (Str (decimalZ z)) = decimalZ (clamp z)) as H.
  { rewrite sanitizeScore_digits.
    - rewrite digitsValue_decimalZ by lia. reflexivity.
    - apply decimalZ_nonempty.
    - apply isDigits_decimalZ.
    - apply length_decimalZ; [exact Hz | lia]. }
  split; [|split; [exact H|]].
  - rewrite <- H. unfold sanitizeScore. cbn [toStr].
    assert (10 ^ 15 < 2 ^ 53)%Z by reflexivity.
    now rewrite Number_toString_ofZ by lia.
  - intros s Hne Hd Hlen <-. now apply sanitizeScore_digits.
Qed.

(** Fifteen is normalised to nine. *)
Lemma sanitizeScore_whole_numbers_witness :
  (0 <= 15 < 10 ^ 15)%Z /\ sanitizeScore (Num (ofZ 15)) = decimalZ (clamp 15).
Proof.
  assert (0 <= 15 < 10 ^ 15)%Z as H by (split; [lia | reflexivity]).
  split; [exact H | exact (proj1 (sanitizeScore_whole_numbers 15 H))].
Defined.

(** ** Sorting what is sorted *)

Lemma Array_sort_fixed {A : Type} (comparefn : A -> A -> number) (l : list A) :
  StronglySorted (fun a b => before comparefn b a = false) l -> Array_sort comparefn l = l.
Proof.
  induction 1 as [|x l _ IH Hx]; [reflexivity|].
  cbn [Array_sort]. rewrite IH. destruct l as [|y l]; [reflexivity|].
  cbn [insertSorted]. inversion Hx as [|? ? Hy _]; subst. now rewrite Hy.
Qed.

Lemma StronglySorted_of_lookup {A : Type} (R : A -> A -> Prop) (l : list A) :
  (forall (i j : nat) (a b : A), (i < j)%nat -> l !! i = Some a -> l !! j = Some b -> R a b) ->
  StronglySorted R l.
Proof.
  induction l as [|x l IH]; intros H; constructor.
  - apply IH. intros i j a b Hij Hi Hj. apply (H (S i) (S j)); auto. lia.
  - apply List.Forall_forall. intros y Hy.
    apply list_elem_of_In, list_elem_of_lookup_1 in Hy as [j Hj].
    apply (H 0%nat (S j)); auto. lia.
Qed.

Lemma Permutation_filter {A : Type} (p : A -> bool) (l l' : list A) :
  Permutation l l' -> Permutation (List.filter p l) (List.filter p l').
Proof.
  induction 1 as [|x l l' _ IH|x y l|l l' l'' _ IH1 _ IH2]; cbn [List.filter].
  - constructor.
  - destruct (p x); [now constructor | exact IH].
  - destruct (p x), (p y); try reflexivity. apply perm_swap.
  - now transitivity (List.filter p l').
Qed.

Lemma filter_of_one {A : Type} (p : A -> bool) (f : A -> Z) (k : Z) (l : list A) :
  NoDup (map f l) -> (forall x, p x = true -> f x = k) -> (length (List.filter p l) <= 1)%nat.
Proof.
  intros Hnd Hp. induction l as [|x l IH]; [simpl; lia|].
  inversion Hnd as [|? ? Hx Hnd']; subst. cbn [List.filter].
  destruct (p x) eqn:Hpx; [|now apply IH].
  assert (List.filter p l = []) as ->; [|simpl; lia].
  destruct (List.filter p l) as [|y t] eqn:E; [reflexivity|]. exfalso.
  assert (In y (List.filter p l)) as Hy by (rewrite E; now left).
  apply filter_In in Hy as [Hy Hpy]. apply Hx.
  rewrite (Hp x Hpx), <- (Hp y Hpy).
  now apply list_elem_of_In, in_map.
Qed.

Lemma Permutation_of_one {A : Type} (l l' : list A) :
  Permutation l l' -> (length l <= 1)%nat -> l = l'.
Proof.
  intros H Hl. destruct l as [|x [|y l]]; [| |simpl in Hl; lia].
  - symmetry. now apply Permutation_nil.
  - symmetry. now apply Permutation_length_1_inv.
Qed.

(** ** Auto-prioritise, and again *)

Lemma get_prioritized (i : nat) (r : row) (k : string) :
  k <> "priority" -> get (prioritized i r) k = get r k.
Proof. intros Hk. unfold prioritized. apply get_insert_ne. congruence. Qed.

Lemma withSeverity_prioritized (i : nat) (r : row) :
  withSeverity (prioritized i r) = prioritized i (withSeverity r).
Proof.
  unfold withSeverity. rewrite get_prioritized by discriminate.
  unfold prioritized. now apply insert_insert_ne.
Qed.

Lemma effectivePriority_prioritized (i : nat) (r : row) :
  effectivePriority (prioritized i r) = (Z.of_nat i + 1)%Z.
Proof.
  unfold effectivePriority, prioritized. rewrite get_insert_eq.
  destruct (String.eqb_spec (decimalZ (Z.of_nat i + 1)) "") as [E|_].
  - now apply decimalZ_nonempty in E.
  - apply digitsValue_decimalZ. lia.
Qed.

Lemma severityOf_prioritized (i : nat) (r : row) :
  severityOf (prioritized i r) = severityOf r.
Proof. unfold severityOf. now rewrite get_prioritized by discriminate. Qed.

Lemma wellFormed_prioritized (i : nat) (r : row) :
  (Z.of_nat i < 2 ^ 32)%Z -> wellFormed r -> wellFormed (prioritized i r).
Proof.
  intros Hi [_ Hs]. split.
  - unfold prioritized. rewrite get_insert_eq. cbn [priorityOk].
    rewrite isDigits_decimalZ. apply Nat.leb_le, length_decimalZ; [|lia].
    assert (2 ^ 32 + 1 < 10 ^ Z.of_nat 15)%Z by reflexivity. lia.
  - now rewrite get_prioritized by discriminate.
Qed.

Section AutoPrioritizeAgain.

Variable data : list row.
Hypothesis data_wellFormed : Forall wellFormed data.
Hypothesis data_integerId : Forall integerId data.
Hypothesis data_unique : NoDup (ids data).
Hypothesis data_length : (Z.of_nat (length data) < 2 ^ 32)%Z.

Local Abbreviation ranking := (Array_sort bySeverity (implementationRows data)).

(** What becomes of each row. *)
Lemma autoPrioritize_row (j : nat) (r : row) :
  data !! j = Some r ->
  (get r "score" <> Str "9"
   /\ exists i, ranking !! i = Some (withSeverity r)
                /\ autoPrioritize data !! j = Some (prioritized i r))
  \/ (get r "score" = Str "9"
      /\ autoPrioritize data !! j = Some (<["priority" := get r "priority"]> r)).
Proof.
  intros Hj. destruct (strictEquals (get r "score") (Str "9")) eqn:E.
  - apply strictEquals_Str in E. right. split; [exact E|]. now apply unranked_row.
  - assert (get r "score" <> Str "9") as H9.
    { intros H. apply strictEquals_Str in H. congruence. }
    left. split; [exact H9|].
    assert (In (withSeverity r) ranking) as Hin.
    { apply ranking_In. exists r. repeat split; auto.
      apply list_elem_of_In. eapply list_elem_of_lookup_2; eauto. }
    apply list_elem_of_In, list_elem_of_lookup_1 in Hin as [i Hi].
    exists i. split; [exact Hi|]. now apply ranked_row.
Qed.

Lemma ranking_bound (i : nat) (x : row) : ranking !! i = Some x -> (Z.of_nat i < 2 ^ 32)%Z.
Proof.
  intros Hi. apply lookup_lt_Some in Hi. pose proof (ranking_length data). lia.
Qed.

Lemma autoPrioritize_wellFormed : Forall wellFormed (autoPrioritize data).
Proof.
  apply List.Forall_forall. intros r' Hr'.
  apply list_elem_of_In, list_elem_of_lookup_1 in Hr' as [j Hj].
  assert (exists r, data !! j = Some r) as [r Hr].
  { destruct (data !! j) as [r|] eqn:E; [eauto|].
    unfold autoPrioritize in Hj. rewrite list_lookup_fmap, E in Hj. discriminate. }
  assert (wellFormed r) as Hwf.
  { rewrite List.Forall_forall in data_wellFormed. apply data_wellFormed.
    apply list_elem_of_In. eapply list_elem_of_lookup_2; eauto. }
  destruct (autoPrioritize_row j r Hr) as [(_ & i & Hi & Hj') | (_ & Hj')];
    rewrite Hj' in Hj; injection Hj as <-.
  - apply wellFormed_prioritized; [eapply ranking_bound; eauto | exact Hwf].
  - destruct Hwf as [Hp Hs]. split.
    + now rewrite get_insert_eq.
    + now rewrite get_insert_ne by discriminate.
Qed.

Lemma autoPrioritize_integerId : Forall integerId (autoPrioritize data).
Proof.
  unfold autoPrioritize. apply List.Forall_forall. intros r' Hr'.
  apply in_map_iff in Hr' as (r & <- & Hr).
  rewrite List.Forall_forall in data_integerId. specialize (data_integerId r Hr).
  unfold integerId in *. now rewrite get_insert_ne by discriminate.
Qed.

Lemma autoPrioritize_unique : NoDup (ids (autoPrioritize data)).
Proof. now rewrite ids_autoPrioritize. Qed.

Local Abbreviation renumbered := (imap prioritized ranking).

Lemma renumbered_lookup (i : nat) :
  renumbered !! i = prioritized i <$> ranking !! i.
Proof. apply list_lookup_imap. Qed.

Lemma ids_renumbered : ids renumbered = ids ranking.
Proof.
  unfold ids. apply list_eq. intros i.
  rewrite !list_lookup_fmap, renumbered_lookup.
  destruct (ranking !! i) as [x|]; [|reflexivity]. cbn.
  now rewrite get_prioritized by discriminate.
Qed.

Lemma NoDup_of_ids (l : list row) : NoDup (ids l) -> NoDup l.
Proof. apply NoDup_fmap_1. Qed.

Lemma renumbered_NoDup : NoDup renumbered.
Proof. apply NoDup_of_ids. rewrite ids_renumbered. now apply ranking_unique. Qed.

Local Abbreviation kept' :=
  (map withSeverity
     (List.filter (fun r => negb (strictEquals (get r "score") (Str "9")))
        (autoPrioritize data))).

Lemma kept'_NoDup : NoDup kept'.
Proof.
  apply NoDup_of_ids.
  assert (ids kept' = ids (List.filter (fun r => negb (strictEquals (get r "score") (Str "9")))
                             (autoPrioritize data))) as ->.
  { unfold ids. rewrite map_map. apply map_ext. intros r.
    now apply get_withSeverity. }
  apply ids_filter, autoPrioritize_unique.
Qed.

Lemma In_kept' (x : row) :
  In x kept' <-> exists r', In r' (autoPrioritize data) /\ get r' "score" <> Str "9"
                            /\ x = withSeverity r'.
Proof.
  rewrite in_map_iff. split.
  - intros (r' & <- & Hr'). apply filter_In in Hr' as [Hin Hk].
    exists r'. repeat split; auto. intros H9. apply strictEquals_Str in H9.
    now rewrite H9 in Hk.
  - intros (r' & Hin & H9 & ->). exists r'. split; [reflexivity|].
    apply filter_In. split; [exact Hin|].
    apply negb_true_iff, not_true_iff_false. now rewrite strictEquals_Str.
Qed.

Lemma renumbered_kept' (x : row) : In x renumbered <-> In x kept'.
Proof.
  rewrite In_kept'. split.
  - intros Hx. apply list_elem_of_In, list_elem_of_lookup_1 in Hx as [i Hi].
    rewrite renumbered_lookup in Hi.
    destruct (ranking !! i) as [y|] eqn:Hy; [|discriminate]. injection Hi as <-.
    assert (In y ranking) as Hin
      by (apply list_elem_of_In; eapply list_elem_of_lookup_2; eauto).
    apply ranking_In in Hin as (r & Hr & H9 & ->).
    apply list_elem_of_In, list_elem_of_lookup_1 in Hr as [j Hj].
    exists (prioritized i r). split; [|split].
    + apply list_elem_of_In. apply (list_elem_of_lookup_2 _ j).
      now apply ranked_row.
    + now rewrite get_prioritized by discriminate.
    + symmetry. apply withSeverity_prioritized.
  - intros (r' & Hr' & H9 & ->).
    apply list_elem_of_In, list_elem_of_lookup_1 in Hr' as [j Hj].
    assert (exists r, data !! j = Some r) as [r Hr].
    { destruct (data !! j) as [r|] eqn:E; [eauto|].
      unfold autoPrioritize in Hj. rewrite list_lookup_fmap, E in Hj. discriminate. }
    destruct (autoPrioritize_row j r Hr) as [(_ & i & Hi & Hj') | (H9' & Hj')];
      rewrite Hj' in Hj; injection Hj as <-.
    + rewrite withSeverity_prioritized.
      apply list_elem_of_In. apply (list_elem_of_lookup_2 _ i).
      now rewrite renumbered_lookup, Hi.
    + rewrite get_insert_ne in H9 by discriminate. contradiction.
Qed.

Lemma renumbered_Permutation : Permutation renumbered kept'.
Proof.
  apply NoDup_Permutation; [apply renumbered_NoDup | apply kept'_NoDup|].
  intros x. rewrite !list_elem_of_In. apply renumbered_kept'.
Qed.

Lemma renumbered_sorted : StronglySorted checklistOrder renumbered.
Proof.
  apply StronglySorted_of_lookup. intros i j a b Hij Hi Hj.
  rewrite renumbered_lookup in Hi, Hj.
  destruct (ranking !! i) as [x|]; [|discriminate].
  destruct (ranking !! j) as [y|]; [|discriminate].
  injection Hi as <-. injection Hj as <-.
  left. rewrite !effectivePriority_prioritized. lia.
Qed.

Lemma renumbered_priorities : NoDup (map effectivePriority renumbered).
Proof.
  apply NoDup_alt. intros i j k Hi Hj.
  rewrite list_lookup_fmap, renumbered_lookup in Hi, Hj.
  destruct (ranking !! i) as [x|]; [|discriminate].
  destruct (ranking !! j) as [y|]; [|discriminate].
  cbn in Hi, Hj. rewrite effectivePriority_prioritized in Hi, Hj. simplify_eq. lia.
Qed.

(** The checklist after auto-prioritise. *)
Lemma implementationRows_autoPrioritize :
  implementationRows (autoPrioritize data) = renumbered.
Proof.
  symmetry. apply implementationRows_is_the_stable_sort.
  - apply autoPrioritize_wellFormed.
  - apply renumbered_sorted.
  - intros z. apply Permutation_of_one.
    + apply Permutation_filter, renumbered_Permutation.
    + apply (filter_of_one _ effectivePriority (effectivePriority z));
        [apply renumbered_priorities|].
      intros x Hx. unfold sameKeys in Hx. apply andb_true_iff in Hx as [Hx _].
      apply Z.eqb_eq in Hx. lia.
Qed.

Lemma ranking_sorted : StronglySorted severityOrder ranking.
Proof.
  apply (Array_sort_sorted bySeverity projected severityOrder).
  - intros x y Hx Hy Hb. apply not_true_iff_false in Hb.
    rewrite (before_severity y x Hy Hx) in Hb. unfold severityOrder. lia.
  - intros x y Hx Hy Hb. apply (before_severity y x Hy Hx) in Hb.
    unfold severityOrder. lia.
  - intros x y z _ _ _. unfold severityOrder. lia.
  - now apply implementationRows_projected.
Qed.

Lemma renumbered_by_severity : StronglySorted severityOrder renumbered.
Proof.
  apply StronglySorted_of_lookup. intros i j a b Hij Hi Hj.
  rewrite renumbered_lookup in Hi, Hj.
  destruct (ranking !! i) as [x|] eqn:Hx; [|discriminate].
  destruct (ranking !! j) as [y|] eqn:Hy; [|discriminate].
  injection Hi as <-. injection Hj as <-.
  unfold severityOrder. rewrite !severityOf_prioritized.
  apply (StronglySorted_lookup _ _ ranking_sorted i j x y Hij Hx Hy).
Qed.

Lemma ranking_autoPrioritize :
  Array_sort bySeverity (implementationRows (autoPrioritize data)) = renumbered.
Proof.
  rewrite implementationRows_autoPrioritize. apply Array_sort_fixed.
  pose proof (implementationRows_projected _ autoPrioritize_wellFormed) as Hproj.
  rewrite implementationRows_autoPrioritize in Hproj.
  rewrite List.Forall_forall in Hproj.
  apply StronglySorted_of_lookup. intros i j a b Hij Hi Hj.
  pose proof (StronglySorted_lookup _ _ renumbered_by_severity i j a b Hij Hi Hj) as Hord.
  apply not_true_iff_false. rewrite before_severity.
  - unfold severityOrder in Hord. lia.
  - apply Hproj, list_elem_of_In. eapply list_elem_of_lookup_2; eauto.
  - apply Hproj, list_elem_of_In. eapply list_elem_of_lookup_2; eauto.
Qed.

End AutoPrioritizeAgain.

(** The checklist after auto-prioritise.  For every dataset of rows of the
    data model, unique by integer id and of a length an array can have:
    once the priorities are written, the checklist is the ranking itself,
    each row with its new priority; so it lists the rows in descending
    order of severity, and the row at place [i] (from 0) carries the
    priority [i+1]. *)
Theorem autoPrioritize_then_checklist (data : list row) :
  Forall wellFormed data -> Forall integerId data -> NoDup (ids data) ->
  (Z.of_nat (length data) < 2 ^ 32)%Z ->
  implementationRows (autoPrioritize data)
  = imap prioritized (Array_sort bySeverity (implementationRows data))
  /\ StronglySorted severityOrder (implementationRows (autoPrioritize data))
  /\ (forall (i : nat) (x : row),
        implementationRows (autoPrioritize data) !! i = Some x ->
        get x "priority" = Str (decimalZ (Z.of_nat i + 1))).
Proof.
  intros Hwf Hid Hnd Hlen.
  rewrite (implementationRows_autoPrioritize data Hwf Hid Hnd Hlen).
  split; [reflexivity|]. split; [now apply renumbered_by_severity|].
  intros i x Hi. rewrite list_lookup_imap in Hi.
  destruct (_ !! i) as [y|]; [|discriminate]. injection Hi as <-.
  apply get_insert_eq.
Qed.

Lemma autoPrioritize_then_checklist_witness :
  (Forall wellFormed Sample.audit /\ Forall integerId Sample.audit
   /\ NoDup (ids Sample.audit) /\ (Z.of_nat (length Sample.audit) < 2 ^ 32)%Z)
  /\ StronglySorted severityOrder (implementationRows (autoPrioritize Sample.audit)).
Proof.
  split; [exact (conj audit_wellFormed (conj audit_integerId (conj audit_unique audit_length)))|].
  exact (proj1 (proj2 (autoPrioritize_then_checklist Sample.audit audit_wellFormed
                         audit_integerId audit_unique audit_length))).
Defined.

(** Auto-prioritise settles.  For every dataset of rows of the data model,
    unique by integer id and of a length an array can have, pressing the
    button a second time changes nothing: the priorities it wrote are the
    ones it writes again. *)
Theorem autoPrioritize_idempotent (data : list row) :
  Forall wellFormed data -> Forall integerId data -> NoDup (ids data) ->
  (Z.of_nat (length data) < 2 ^ 32)%Z ->
  autoPrioritize (autoPrioritize data) = autoPrioritize data.
Proof.
  intros Hwf Hid Hnd Hlen.
  pose proof (autoPrioritize_wellFormed data Hwf Hid Hnd Hlen) as Hwf'.
  pose proof (autoPrioritize_integerId data Hid) as Hid'.
  pose proof (autoPrioritize_unique data Hnd) as Hnd'.
  assert (length (autoPrioritize data) = length data) as Hlength
    by (unfold autoPrioritize; apply length_map).
  assert (Z.of_nat (length (autoPrioritize data)) < 2 ^ 32)%Z as Hlen' by lia.
  apply list_eq. intros j.
  destruct (autoPrioritize data !! j) as [r'|] eqn:Hj'.
  2:{ unfold autoPrioritize at 1. now rewrite list_lookup_fmap, Hj'. }
  assert (exists r, data !! j = Some r) as [r Hr].
  { destruct (data !! j) as [r|] eqn:E; [eauto|].
    unfold autoPrioritize in Hj'. rewrite list_lookup_fmap, E in Hj'. discriminate. }
  destruct (autoPrioritize_row data Hid Hnd Hlen j r Hr)
    as [(H9 & i & Hi & Hj) | (H9 & Hj)]; rewrite Hj in Hj'; injection Hj' as <-.
  - destruct (autoPrioritize_row _ Hid' Hnd' Hlen' j _ Hj)
      as [(_ & i' & Hi' & ->) | (H9' & _)].
    2:{ rewrite get_prioritized in H9' by discriminate. contradiction. }
    rewrite (ranking_autoPrioritize data Hwf Hid Hnd Hlen) in Hi'.
    rewrite withSeverity_prioritized in Hi'.
    assert (i' = i) as ->.
    { pose proof (renumbered_NoDup data Hnd) as Hnodup.
      rewrite NoDup_alt in Hnodup. apply (Hnodup i' i _ Hi').
      now rewrite list_lookup_imap, Hi. }
    f_equal. unfold prioritized. apply insert_insert_eq.
  - destruct (autoPrioritize_row _ Hid' Hnd' Hlen' j _ Hj)
      as [(H9' & _) | (_ & ->)].
    { rewrite get_insert_ne in H9' by discriminate. contradiction. }
    rewrite get_insert_eq. f_equal. apply insert_insert_eq.
Qed.

Lemma autoPrioritize_idempotent_witness :
  (Forall wellFormed Sample.audit /\ Forall integerId Sample.audit
   /\ NoDup (ids Sample.audit) /\ (Z.of_nat (length Sample.audit) < 2 ^ 32)%Z)
  /\ autoPrioritize (autoPrioritize Sample.audit) = autoPrioritize Sample.audit.
Proof.
  split; [exact (conj audit_wellFormed (conj audit_integerId (conj audit_unique audit_length)))|].
  exact (autoPrioritize_idempotent Sample.audit audit_wellFormed audit_integerId
           audit_unique audit_length).
Defined.

(** ** The page and the route together *)

Lemma asks_requestBody (r : row) :
  asks {| json := Ok (Obj (Prim <$> requestBody r)) |}
    (textOf (get r "inspectionElement")) (textOf (get r "issueCategory"))
    (textOf (get r "issueSubCategory")) (textOf (get r "score"))
    (textOf (get r "analysis")).
Proof.
  exists (Obj (Prim <$> requestBody r)). split; [reflexivity|]. split; [reflexivity|].
  assert (forall k v, requestBody r !! k = Some v -> v <> Undefined ->
            ToString (field (Obj (Prim <$> requestBody r)) k) = Ok (toStr v)) as Hfield.
  { intros k v Hk Hv. unfold field. cbn [getProp]. rewrite lookup_fmap, Hk. cbn.
    destruct v; try reflexivity. congruence. }
  assert (forall v : scalar, or v (Str "") <> Undefined) as Hor.
  { intros v. unfold or. destruct (ToBoolean v) eqn:E; [|discriminate].
    intros ->. discriminate. }
  unfold textOf. repeat split; apply Hfield; try apply Hor; reflexivity.
Qed.

Lemma asks_unique (req : request) (e1 c1 s1 sc1 a1 e2 c2 s2 sc2 a2 : string) :
  asks req e1 c1 s1 sc1 a1 -> asks req e2 c2 s2 sc2 a2 ->
  e1 = e2 /\ c1 = c2 /\ s1 = s2 /\ sc1 = sc2 /\ a1 = a2.
Proof.
  intros (b & Hb & _ & H1 & H2 & H3 & H4 & H5) (b' & Hb' & _ & H1' & H2' & H3' & H4' & H5').
  rewrite Hb in Hb'. injection Hb' as <-. repeat split; congruence.
Qed.

Lemma textOf_score (v : scalar) : toStr v <> "9" -> textOf v <> "9".
Proof.
  unfold textOf, or. destruct (ToBoolean v); [auto | discriminate].
Qed.

Section Served.

Variable process_env : env.
Variable upstream : fetch_request -> result fetch_response.
Variable JSON_parse : string -> result value.

Local Abbreviation POST := (POST process_env upstream JSON_parse).
Local Abbreviation served := (served process_env upstream JSON_parse).

(** The page served by the route.  For a row whose request fields are
    texts (or missing): when its score prints as [9] the page writes its
    fixed sentence and asks nothing; otherwise it sends one request, what
    it writes into the row is exactly the recommendation text of the
    response to that request (never its own fallback sentence), and any
    call the handler issues upstream for it carries the five texts of the
    row. *)
Theorem generateRecs_served (r : row) :
  askable r ->
  let req := {| json := Ok (Obj (Prim <$> requestBody r)) |} in
  (toStr (get r "score") = "9" ->
   generateRecs served r
   = [ setLoadingId (get r "id");
       changeField (get r "id") "recommendations" (Prim (Str generic));
       setLoadingId Null ])
  /\ (toStr (get r "score") <> "9" ->
      exists s : string,
        s <> "" /\ carriesRecommendation (snd (POST req)) s
        /\ generateRecs served r
           = [ setLoadingId (get r "id");
               fetchRecommend (requestBody r);
               changeField (get r "id") "recommendations" (Prim (Str s));
               setLoadingId Null ]
        /\ forall call, In call (fst (POST req)) ->
             exists key,
               API_KEY process_env = Some key
               /\ call = upstreamCall process_env key
                           (textOf (get r "inspectionElement")) (textOf (get r "issueCategory"))
                           (textOf (get r "issueSubCategory")) (textOf (get r "score"))
                           (textOf (get r "analysis"))).
Proof.
  intros _ req. unfold generateRecs, attemptRecs. split.
  - intros H9. apply String.eqb_eq in H9. now rewrite H9.
  - intros H9. pose proof H9 as H9'. apply String.eqb_neq in H9'. rewrite H9'.
    destruct (POST_text process_env upstream JSON_parse req) as (s & st & Hpost & Hs).
    exists s. split; [exact Hs|]. split; [rewrite Hpost; apply NextResponse_json_carries|].
    split.
    + unfold Spec.served. fold req. rewrite Hpost.
      cbn [NextResponse_json body getProp]. rewrite lookup_singleton_eq. cbn [default].
      unfold orV, id. cbn [truthy ToBoolean].
      apply String.eqb_neq in Hs. rewrite Hs. reflexivity.
    + intros call Hin. revert Hin. unfold Route.POST.
      destruct (API_KEY process_env) as [key|]; [|intros []].
      destruct (String.eqb key ""); [intros []|].
      pose proof (attempt_asks process_env upstream JSON_parse key req call) as H.
      destruct (Route.attempt process_env upstream JSON_parse key req []) as [calls o].
      cbn [fst] in *. intros Hin.
      destruct (H Hin) as (el & cat & sub & sc & an & Hasks & _ & ->).
      destruct (asks_unique _ _ _ _ _ _ _ _ _ _ _ Hasks (asks_requestBody r))
        as (-> & -> & -> & -> & ->).
      exists key. split; reflexivity.
Qed.

End Served.

(** A row with score 9 asks nothing. *)
Lemma generateRecs_served_witness :
  askable (Sample.mkRow 3 "1" "9")
  /\ generateRecs (served Sample.withKey Sample.upstreamEmpty Sample.parseAnswer)
       (Sample.mkRow 3 "1" "9")
     = [ setLoadingId (get (Sample.mkRow 3 "1" "9") "id");
         changeField (get (Sample.mkRow 3 "1" "9") "id") "recommendations" (Prim (Str generic));
         setLoadingId Null ].
Proof.
  assert (askable (Sample.mkRow 3 "1" "9")) as H by (repeat split).
  split; [exact H|].
  exact (proj1 (generateRecs_served Sample.withKey Sample.upstreamEmpty Sample.parseAnswer
                  (Sample.mkRow 3 "1" "9") H) eq_refl).
Defined.
